(** * eventhub: the event-search route, embedded and verified

    The development follows the handler of [GET /api/search/events]: query
    validation ([QuerySchema]), the date helpers ([toIsoNoMs],
    [ymdToLocalStart], [ymdToLocalEnd], [startIsoFromYMD], [endIsoFromYMD]),
    the process-local result cache, the Ticketmaster query, the response
    normaliser, the window re-filter, the sort, and the handler [GET].

    JavaScript's runtime is modelled just far enough to run the route:
    - strings are [string]s of 8-bit characters (one character per code
      unit; the model covers ASCII text);
    - a Number is an exact decimal [m * 10^e], or NaN, or an infinity
      (binary64 rounding is not modelled; negative zero is zero);
    - a time value is a [Z] of milliseconds since the epoch, and an
      Invalid Date is [None];
    - a JSON payload is a [value]; objects are association lists;
    - the handler runs in a small monad with early return, exceptions and
      the module-level [cache] as state. *)

From Stdlib Require Import ZArith Lia List Ascii String Bool.
From Stdlib Require Import DecimalString Sorted Permutation.
From stdpp Require Import gmap strings list.

Import ListNotations.
Local Open Scope Z_scope.
Set Warnings "-register-all".

(* ================================================================== *)
(** ** Strings *)

Module Str.

Definition chars (s : string) : list ascii := list_ascii_of_string s.
Definition text (l : list ascii) : string := string_of_list_ascii l.

(** White space as [String.prototype.trim] and [StringToNumber] strip
    it (the ASCII part: TAB, LF, VT, FF, CR, SPACE). *)
Definition is_ws (c : ascii) : bool :=
  match nat_of_ascii c with
  | 9 | 10 | 11 | 12 | 13 | 32 => true
  | _ => false
  end%nat.

Fixpoint drop_ws (l : list ascii) : list ascii :=
  match l with
  | c :: r => if is_ws c then drop_ws r else l
  | [] => []
  end.

Definition trim_chars (l : list ascii) : list ascii :=
  rev (drop_ws (rev (drop_ws l))).

Definition trim (s : string) : string := text (trim_chars (chars s)).

(** [s.split(sep)] for a one-character separator. *)
Fixpoint split_chars (sep : ascii) (l : list ascii) : list (list ascii) :=
  match l with
  | [] => [[]]
  | c :: r =>
      if Ascii.eqb c sep then [] :: split_chars sep r
      else match split_chars sep r with
           | seg :: segs => (c :: seg) :: segs
           | [] => [[c]]
           end
  end.

Definition split (sep : ascii) (s : string) : list string :=
  map text (split_chars sep (chars s)).

Definition is_digit (c : ascii) : bool :=
  let n := nat_of_ascii c in (48 <=? n)%nat && (n <=? 57)%nat.

Definition digit_val (c : ascii) : Z := Z.of_nat (nat_of_ascii c) - 48.

(** The value of a run of decimal digits, most significant first. *)
Definition digits_val (l : list ascii) : Z :=
  fold_left (fun acc c => 10 * acc + digit_val c) l 0.

Definition digit_char (d : Z) : ascii :=
  match d with
  | 0 => "0" | 1 => "1" | 2 => "2" | 3 => "3" | 4 => "4"
  | 5 => "5" | 6 => "6" | 7 => "7" | 8 => "8" | _ => "9"
  end%char.

(** [n] written with exactly [w] decimal digits (the low [w] digits). *)
Fixpoint pad (w : nat) (n : Z) : list ascii :=
  match w with
  | O => []
  | S w' => pad w' (n / 10) ++ [digit_char (n mod 10)]
  end.

(** Split a list at the first element that fails [p]. *)
Fixpoint span {A} (p : A -> bool) (l : list A) : list A * list A :=
  match l with
  | x :: r => if p x then let '(a, b) := span p r in (x :: a, b) else ([], l)
  | [] => ([], [])
  end.

(** Exactly [w] digits at the head of [l], with their value. *)
Fixpoint take_digits (w : nat) (acc : Z) (l : list ascii)
  : option (Z * list ascii) :=
  match w with
  | O => Some (acc, l)
  | S w' =>
      match l with
      | c :: r => if is_digit c
                  then take_digits w' (10 * acc + digit_val c) r
                  else None
      | [] => None
      end
  end.

(** A non-negative integer in decimal, no leading zeros. *)
Definition of_N (n : N) : list ascii :=
  match n with
  | N0 => ["0"%char]
  | Npos p => chars (NilEmpty.string_of_uint (Pos.to_uint p))
  end.

Definition of_Z (z : Z) : list ascii :=
  match z with
  | Zneg p => "-"%char :: of_N (Npos p)
  | _ => of_N (Z.to_N z)
  end.

End Str.

(* ================================================================== *)
(** ** Numbers *)

Module Num.

(** A JavaScript Number: [Fin m e] is the decimal [m * 10^e]. *)
Inductive jsnum : Type :=
| NaN
| PosInf
| NegInf
| Fin (m e : Z).

Definition of_Z (z : Z) : jsnum := Fin z 0.

Definition isNaN (x : jsnum) : bool :=
  match x with NaN => true | _ => false end.

(** Both mantissas brought to the smaller exponent. *)
Definition align (m1 e1 m2 e2 : Z) : Z * Z * Z :=
  let e := Z.min e1 e2 in
  (m1 * 10 ^ (e1 - e), m2 * 10 ^ (e2 - e), e).

(** [x < y]; false when either side is NaN. *)
Definition ltb (x y : jsnum) : bool :=
  match x, y with
  | NaN, _ | _, NaN => false
  | _, NegInf => false
  | NegInf, _ => true
  | PosInf, _ => false
  | _, PosInf => true
  | Fin m1 e1, Fin m2 e2 =>
      let '(a, b, _) := align m1 e1 m2 e2 in a <? b
  end.

Definition isZero (x : jsnum) : bool :=
  match x with Fin 0 _ => true | _ => false end.

Definition sub (x y : jsnum) : jsnum :=
  match x, y with
  | NaN, _ | _, NaN => NaN
  | PosInf, PosInf | NegInf, NegInf => NaN
  | PosInf, _ | _, NegInf => PosInf
  | NegInf, _ | _, PosInf => NegInf
  | Fin m1 e1, Fin m2 e2 =>
      let '(a, b, e) := align m1 e1 m2 e2 in Fin (a - b) e
  end.

(** ToIntegerOrInfinity, for the finite case: truncation toward zero.
    [None] is NaN or an infinity. *)
Definition trunc (x : jsnum) : option Z :=
  match x with
  | Fin m e => Some (if 0 <=? e then m * 10 ^ e else Z.quot m (10 ^ (- e)))
  | _ => None
  end.

(** Trailing zeros of a digit run, dropped and counted. *)
Definition strip_zeros (ds : list ascii) : list ascii * Z :=
  let '(zs, rest) := Str.span (Ascii.eqb "0") (rev ds) in
  (rev rest, Z.of_nat (length zs)).

(** The decimal with digits [ds] scaled by [10^e], sign [neg]; digits
    are normalised so that equal values have equal representations, and
    magnitudes outside the binary64 range overflow or underflow. *)
Definition decimal (neg : bool) (ds : list ascii) (e : Z) : jsnum :=
  let '(sig, k) := strip_zeros ds in
  let m := Str.digits_val sig in
  if m =? 0 then Fin 0 0
  else
    let lead := snd (Str.span (Ascii.eqb "0") sig) in
    let mag := Z.of_nat (length lead) + e + k in
    if 309 <? mag then (if neg then NegInf else PosInf)
    else if mag <? -323 then Fin 0 0
    else Fin (if neg then - m else m) (e + k).

Definition radix_digit (base : Z) (c : ascii) : option Z :=
  let n := Z.of_nat (nat_of_ascii c) in
  let v := if (48 <=? n) && (n <=? 57) then n - 48
           else if (97 <=? n) && (n <=? 102) then n - 87
           else if (65 <=? n) && (n <=? 70) then n - 55
           else 99 in
  if v <? base then Some v else None.

Fixpoint radix_val (base : Z) (acc : Z) (l : list ascii) : option Z :=
  match l with
  | [] => Some acc
  | c :: r => match radix_digit base c with
              | Some v => radix_val base (base * acc + v) r
              | None => None
              end
  end.

Definition radix_literal (base : Z) (l : list ascii) : jsnum :=
  match l with
  | [] => NaN
  | _ => match radix_val base 0 l with
         | Some v => decimal false (Str.of_Z v) 0
         | None => NaN
         end
  end.

(** The exponent part after [e]/[E]: an optional sign and digits to the
    end of the literal. *)
Definition exponent (l : list ascii) : option Z :=
  let '(neg, ds) :=
    match l with
    | "+"%char :: r => (false, r)
    | "-"%char :: r => (true, r)
    | _ => (false, l)
    end in
  match ds with
  | [] => None
  | _ => if forallb Str.is_digit ds
         then Some (if neg then - Str.digits_val ds else Str.digits_val ds)
         else None
  end.

(** StrUnsignedDecimalLiteral. *)
Definition unsigned_decimal (neg : bool) (l : list ascii) : jsnum :=
  if String.eqb (Str.text l) "Infinity"
  then (if neg then NegInf else PosInf)
  else
    let '(ip, r1) := Str.span Str.is_digit l in
    let '(fp, r2) :=
      match r1 with
      | "."%char :: r => Str.span Str.is_digit r
      | _ => ([], r1)
      end in
    match ip ++ fp with
    | [] => NaN
    | ds =>
        let scale := - Z.of_nat (length fp) in
        match r2 with
        | [] => decimal neg ds scale
        | c :: r =>
            if Ascii.eqb c "e" || Ascii.eqb c "E"
            then match exponent r with
                 | Some x => decimal neg ds (scale + x)
                 | None => NaN
                 end
            else NaN
        end
    end.

(** StringToNumber: what [Number(s)] returns for a string. *)
Definition of_chars (l : list ascii) : jsnum :=
  match Str.trim_chars l with
  | [] => Fin 0 0
  | "0"%char :: "x"%char :: r | "0"%char :: "X"%char :: r => radix_literal 16 r
  | "0"%char :: "o"%char :: r | "0"%char :: "O"%char :: r => radix_literal 8 r
  | "0"%char :: "b"%char :: r | "0"%char :: "B"%char :: r => radix_literal 2 r
  | "+"%char :: r => unsigned_decimal false r
  | "-"%char :: r => unsigned_decimal true r
  | t => unsigned_decimal false t
  end.

Definition of_string (s : string) : jsnum := of_chars (Str.chars s).

(** Number::toString (radix 10). *)
Definition to_chars (x : jsnum) : list ascii :=
  match x with
  | NaN => Str.chars "NaN"
  | PosInf => Str.chars "Infinity"
  | NegInf => Str.chars "-Infinity"
  | Fin m e =>
      if m =? 0 then ["0"%char]
      else
        let '(ds, z) := strip_zeros (Str.of_Z (Z.abs m)) in
        let k := Z.of_nat (length ds) in
        let n := k + e + z in
        let sign := if m <? 0 then ["-"%char] else [] in
        sign ++
        (if (k <=? n) && (n <=? 21)
         then ds ++ repeat "0"%char (Z.to_nat (n - k))
         else if (0 <? n) && (n <=? 21)
         then firstn (Z.to_nat n) ds ++ "."%char :: skipn (Z.to_nat n) ds
         else if (-6 <? n) && (n <=? 0)
         then "0"%char :: "."%char :: repeat "0"%char (Z.to_nat (- n)) ++ ds
         else
           let ex := (if 0 <=? n - 1 then "+"%char else "-"%char)
                       :: Str.of_Z (Z.abs (n - 1)) in
           match ds with
           | [d] => d :: "e"%char :: ex
           | d :: rest => d :: "."%char :: rest ++ "e"%char :: ex
           | [] => []
           end)
  end.

Definition to_string (x : jsnum) : string := Str.text (to_chars x).

End Num.



(* ================================================================== *)
(** ** Time values and dates (ECMAScript, Date objects) *)

Module Date.

Definition msPerDay : Z := 86400000.
Definition msPerHour : Z := 3600000.
Definition msPerMinute : Z := 60000.
Definition msPerSecond : Z := 1000.

(** The largest magnitude of a time value. *)
Definition maxTime : Z := 8640000000000000.

Definition Day (t : Z) : Z := t / msPerDay.
Definition TimeWithinDay (t : Z) : Z := t mod msPerDay.

Definition DaysInYear (y : Z) : Z :=
  if negb (y mod 4 =? 0) then 365
  else if negb (y mod 100 =? 0) then 366
  else if negb (y mod 400 =? 0) then 365
  else 366.

Definition DayFromYear (y : Z) : Z :=
  365 * (y - 1970) + (y - 1969) / 4 - (y - 1901) / 100 + (y - 1601) / 400.

Definition TimeFromYear (y : Z) : Z := msPerDay * DayFromYear y.

(** The year of day number [d]: the largest [y] with
    [DayFromYear y <= d].  The mean year length gives an estimate that
    is off by at most one. *)
Definition YearFromDay (d : Z) : Z :=
  let y0 := 1970 + (400 * d) / 146097 in
  if DayFromYear (y0 + 1) <=? d then y0 + 1
  else if d <? DayFromYear y0 then y0 - 1
  else y0.

Definition YearFromTime (t : Z) : Z := YearFromDay (Day t).

Definition leapDays (y : Z) : Z := DaysInYear y - 365.
Definition InLeapYear (t : Z) : Z := leapDays (YearFromTime t).

Definition DayWithinYear (t : Z) : Z := Day t - DayFromYear (YearFromTime t).

(** Day number within the year of the first day of month [m] (0-11). *)
Definition monthStart (leap m : Z) : Z :=
  match m with
  | 0 => 0
  | 1 => 31
  | 2 => 59 + leap
  | 3 => 90 + leap
  | 4 => 120 + leap
  | 5 => 151 + leap
  | 6 => 181 + leap
  | 7 => 212 + leap
  | 8 => 243 + leap
  | 9 => 273 + leap
  | 10 => 304 + leap
  | 11 => 334 + leap
  | _ => 365 + leap
  end.

Definition monthOfDay (leap d : Z) : Z :=
  if d <? 31 then 0
  else if d <? 59 + leap then 1
  else if d <? 90 + leap then 2
  else if d <? 120 + leap then 3
  else if d <? 151 + leap then 4
  else if d <? 181 + leap then 5
  else if d <? 212 + leap then 6
  else if d <? 243 + leap then 7
  else if d <? 273 + leap then 8
  else if d <? 304 + leap then 9
  else if d <? 334 + leap then 10
  else 11.

Definition MonthFromTime (t : Z) : Z :=
  monthOfDay (InLeapYear t) (DayWithinYear t).

Definition DateFromTime (t : Z) : Z :=
  DayWithinYear t - monthStart (InLeapYear t) (MonthFromTime t) + 1.

Definition HourFromTime (t : Z) : Z := (t / msPerHour) mod 24.
Definition MinFromTime (t : Z) : Z := (t / msPerMinute) mod 60.
Definition SecFromTime (t : Z) : Z := (t / msPerSecond) mod 60.
Definition msFromTime (t : Z) : Z := t mod msPerSecond.

Definition MakeTime (hour min sec ms : Z) : Z :=
  hour * msPerHour + min * msPerMinute + sec * msPerSecond + ms.

(** [month] is zero-based and may lie outside 0-11; [date] may lie
    outside the month. *)
Definition MakeDay (year month date : Z) : Z :=
  let ym := year + month / 12 in
  let mn := month mod 12 in
  DayFromYear ym + monthStart (leapDays ym) mn + date - 1.

Definition MakeDate (day time : Z) : Z := day * msPerDay + time.

Definition MakeFullYear (year : Z) : Z :=
  if (0 <=? year) && (year <=? 99) then 1900 + year else year.

Definition TimeClip (t : Z) : option Z :=
  if Z.abs t <=? maxTime then Some t else None.

Definition DaysInMonth (y m : Z) : Z :=
  monthStart (leapDays y) (m + 1) - monthStart (leapDays y) m.

(** *** [Date.prototype.toISOString], for a valid date *)

Definition isoYear (y : Z) : list ascii :=
  if (0 <=? y) && (y <=? 9999) then Str.pad 4 y
  else (if y <? 0 then "-"%char else "+"%char) :: Str.pad 6 (Z.abs y).

Definition isoDate (t : Z) : list ascii :=
  isoYear (YearFromTime t) ++ "-"%char :: Str.pad 2 (MonthFromTime t + 1)
    ++ "-"%char :: Str.pad 2 (DateFromTime t).

Definition isoClock (t : Z) : list ascii :=
  Str.pad 2 (HourFromTime t) ++ ":"%char :: Str.pad 2 (MinFromTime t)
    ++ ":"%char :: Str.pad 2 (SecFromTime t).

Definition toISOChars (t : Z) : list ascii :=
  isoDate t ++ "T"%char :: isoClock t
    ++ "."%char :: Str.pad 3 (msFromTime t) ++ ["Z"%char].

(** *** The two shapes of the date-time string format the route meets:
    [YYYY-MM-DD], read as UTC, and [YYYY-MM-DDTHH:mm:ss(.sss)Z]; the
    year has four digits, or a sign and six. *)

Definition isoYearOf (l : list ascii) : option (Z * list ascii) :=
  match l with
  | "+"%char :: r => Str.take_digits 6 0 r
  | "-"%char :: r =>
      match Str.take_digits 6 0 r with
      | Some (y, r') => if y =? 0 then None else Some (- y, r')
      | None => None
      end
  | _ => Str.take_digits 4 0 l
  end.

Definition isoDateOf (l : list ascii) : option (Z * list ascii) :=
  match isoYearOf l with
  | Some (y, "-"%char :: r1) =>
      match Str.take_digits 2 0 r1 with
      | Some (m, "-"%char :: r2) =>
          match Str.take_digits 2 0 r2 with
          | Some (d, r3) =>
              if (1 <=? m) && (m <=? 12) && (1 <=? d) && (d <=? DaysInMonth y (m - 1))
              then Some (MakeDay y (m - 1) d, r3)
              else None
          | None => None
          end
      | _ => None
      end
  | _ => None
  end.

Definition isoClockOf (l : list ascii) : option (Z * list ascii) :=
  match Str.take_digits 2 0 l with
  | Some (h, ":"%char :: r1) =>
      match Str.take_digits 2 0 r1 with
      | Some (mi, ":"%char :: r2) =>
          match Str.take_digits 2 0 r2 with
          | Some (s, r3) =>
              if (h <=? 23) && (mi <=? 59) && (s <=? 59)
              then
                match r3 with
                | "."%char :: r4 =>
                    match Str.take_digits 3 0 r4 with
                    | Some (ms, r5) => Some (MakeTime h mi s ms, r5)
                    | None => None
                    end
                | _ => Some (MakeTime h mi s 0, r3)
                end
              else None
          | None => None
          end
      | _ => None
      end
  | _ => None
  end.

(** [None]: the string has neither shape. *)
Definition isoParse (l : list ascii) : option Z :=
  match isoDateOf l with
  | Some (day, []) => TimeClip (MakeDate day 0)
  | Some (day, "T"%char :: r) =>
      match isoClockOf r with
      | Some (time, ["Z"%char]) => TimeClip (MakeDate day time)
      | _ => None
      end
  | _ => None
  end.

End Date.


(* ================================================================== *)
(** ** JavaScript values, exceptions *)

Inductive error : Type := RangeError | TypeError | SyntaxError.

(** The result of an expression that may throw. *)
Inductive outcome (A : Type) : Type :=
| Ok (a : A)
| Throw (e : error).
Arguments Ok {A} a.
Arguments Throw {A} e.

Definition obind {A B} (o : outcome A) (k : A -> outcome B) : outcome B :=
  match o with
  | Ok a => k a
  | Throw e => Throw e
  end.

Declare Scope js_scope.
Delimit Scope js_scope with js.
Notation "'let*' x := m 'in' k" := (obind m (fun x => k))
  (at level 10, x name, m at level 200, k at level 200) : js_scope.

Fixpoint omap {A B} (f : A -> outcome B) (l : list A) : outcome (list B) :=
  match l with
  | [] => Ok []
  | x :: r => obind (f x) (fun y => obind (omap f r) (fun ys => Ok (y :: ys)))
  end.

Module JS.

(** A value as [JSON.parse] builds it, plus [undefined]. *)
Inductive value : Type :=
| VUndefined
| VNull
| VBool (b : bool)
| VNum (n : Num.jsnum)
| VStr (s : string)
| VArr (items : list value)
| VObj (fields : list (string * value)).

Definition nonEmpty (s : string) : bool :=
  match s with EmptyString => false | _ => true end.

(** ToBoolean. *)
Definition truthy (v : value) : bool :=
  match v with
  | VUndefined | VNull => false
  | VBool b => b
  | VNum n => negb (Num.isNaN n || Num.isZero n)
  | VStr s => nonEmpty s
  | VArr _ | VObj _ => true
  end.

Definition nullish (v : value) : bool :=
  match v with VUndefined | VNull => true | _ => false end.

(** [a ?? b] *)
Definition coalesce (a b : value) : value := if nullish a then b else a.

Fixpoint lookup (fields : list (string * value)) (k : string) : value :=
  match fields with
  | [] => VUndefined
  | (k', v) :: r => if String.eqb k' k then v else lookup r k
  end.

(** [v?.k], and [v.k] on a value that is not nullish.  The keys the
    route reads are own properties of payload objects only: none of them
    names a built-in of strings, numbers or arrays. *)
Definition prop (v : value) (k : string) : value :=
  match v with
  | VObj fields => lookup fields k
  | _ => VUndefined
  end.

(** [v.k]: reading a property of [null] or [undefined] throws. *)
Definition member (v : value) (k : string) : outcome value :=
  if nullish v then Throw TypeError else Ok (prop v k).

(** [v?.[0]], and [v[0]] on a value that is not nullish. *)
Definition index0 (v : value) : value :=
  match v with
  | VArr (x :: _) => x
  | VStr (String c _) => VStr (String c EmptyString)
  | VObj fields => lookup fields "0"
  | _ => VUndefined
  end.

(** ToString. *)
Fixpoint toChars (v : value) : list ascii :=
  match v with
  | VUndefined => Str.chars "undefined"
  | VNull => Str.chars "null"
  | VBool true => Str.chars "true"
  | VBool false => Str.chars "false"
  | VNum n => Num.to_chars n
  | VStr s => Str.chars s
  | VArr items =>
      (fix join (l : list value) : list ascii :=
         match l with
         | [] => []
         | x :: r =>
             (match x with VUndefined | VNull => [] | _ => toChars x end)
               ++ match r with [] => [] | _ => ","%char :: join r end
         end) items
  | VObj _ => Str.chars "[object Object]"
  end.

Definition toString (v : value) : string := Str.text (toChars v).

(** ToNumber; [Number(v)]. *)
Definition toNumber (v : value) : Num.jsnum :=
  match v with
  | VUndefined => Num.NaN
  | VNull => Num.Fin 0 0
  | VBool true => Num.Fin 1 0
  | VBool false => Num.Fin 0 0
  | VNum n => n
  | _ => Num.of_chars (toChars v)
  end.

(** [Array.prototype.sort] with a comparator that may throw: a stable
    insertion sort, the order the language fixes for a consistent
    comparator.  A NaN from the comparator counts as [+0]. *)
Section Sort.
Context {A : Type} (cmp : A -> A -> outcome Num.jsnum).

Fixpoint insert (x : A) (l : list A) : outcome (list A) :=
  match l with
  | [] => Ok [x]
  | y :: r =>
      obind (cmp x y) (fun c =>
        if Num.ltb (Num.Fin 0 0) c
        then obind (insert x r) (fun r' => Ok (y :: r'))
        else Ok (x :: l))
  end.

Fixpoint sort (l : list A) : outcome (list A) :=
  match l with
  | [] => Ok []
  | x :: r => obind (sort r) (insert x)
  end.
End Sort.

(** *** [JSON.stringify] of strings and numbers *)

(** The double quote. *)
Definition quote_char : ascii := "034"%char.

Definition hex_digit (n : Z) : ascii :=
  if n <? 10 then Str.digit_char n
  else match n with
       | 10 => "a" | 11 => "b" | 12 => "c" | 13 => "d" | 14 => "e" | _ => "f"
       end%char.

Definition escape (c : ascii) : list ascii :=
  let n := Z.of_nat (nat_of_ascii c) in
  if n =? 34 then ["\"%char; quote_char]
  else if n =? 92 then ["\"; "\"]%char
  else if n =? 8 then ["\"; "b"]%char
  else if n =? 9 then ["\"; "t"]%char
  else if n =? 10 then ["\"; "n"]%char
  else if n =? 12 then ["\"; "f"]%char
  else if n =? 13 then ["\"; "r"]%char
  else if n <? 32 then ["\"; "u"; "0"; "0"; hex_digit (n / 16); hex_digit (n mod 16)]%char
  else [c].

Definition quote (s : string) : list ascii :=
  quote_char :: flat_map escape (Str.chars s) ++ [quote_char].

Definition jsonNumber (n : Num.jsnum) : list ascii :=
  match n with
  | Num.Fin _ _ => Num.to_chars n
  | _ => Str.chars "null"
  end.

Fixpoint joinWith (sep : ascii) (l : list (list ascii)) : list ascii :=
  match l with
  | [] => []
  | [x] => x
  | x :: r => x ++ sep :: joinWith sep r
  end.

(** An object literal of scalar members; a member whose value is
    [undefined] ([None]) is left out. *)
Definition jsonObject (members : list (string * option (list ascii))) : string :=
  Str.text
    ("{"%char ::
     joinWith ","
       (flat_map (fun m => match snd m with
                           | Some v => [quote (fst m) ++ ":"%char :: v]
                           | None => []
                           end) members)
     ++ ["}"%char]).

End JS.

(* ================================================================== *)
(** ** URLSearchParams *)

Module URL.

Definition SearchParams : Type := list (string * string).

(** [params.get(name)]: the first value of that name. *)
Fixpoint get (p : SearchParams) (name : string) : option string :=
  match p with
  | [] => None
  | (k, v) :: r => if String.eqb k name then Some v else get r name
  end.

Definition remove (name : string) (p : SearchParams) : SearchParams :=
  List.filter (fun kv => negb (String.eqb (fst kv) name)) p.

(** [params.set(name, value)]: replace the first pair of that name and
    drop the others, or append. *)
Fixpoint set (name value : string) (p : SearchParams) : SearchParams :=
  match p with
  | [] => [(name, value)]
  | (k, v) :: r =>
      if String.eqb k name then (name, value) :: remove name r
      else (k, v) :: set name value r
  end.

(** [Object.fromEntries(url.searchParams)]: the last value of a name
    wins. *)
Definition fromEntries (p : SearchParams) : gmap string string :=
  list_to_map (rev p).

Definition upper_hex (n : Z) : ascii :=
  if n <? 10 then Str.digit_char n
  else match n with
       | 10 => "A" | 11 => "B" | 12 => "C" | 13 => "D" | 14 => "E" | _ => "F"
       end%char.

(** The application/x-www-form-urlencoded byte serializer. *)
Definition encodeChar (c : ascii) : list ascii :=
  let n := Z.of_nat (nat_of_ascii c) in
  if ((48 <=? n) && (n <=? 57)) || ((65 <=? n) && (n <=? 90))
     || ((97 <=? n) && (n <=? 122))
     || (n =? 42) || (n =? 45) || (n =? 46) || (n =? 95)
  then [c]
  else if n =? 32 then ["+"%char]
  else ["%"%char; upper_hex (n / 16); upper_hex (n mod 16)].

Definition encode (s : string) : list ascii :=
  flat_map encodeChar (Str.chars s).

(** [params.toString()] *)
Definition toString (p : SearchParams) : string :=
  Str.text (JS.joinWith "&"
              (map (fun kv => encode (fst kv) ++ "="%char :: encode (snd kv)) p)).

End URL.

(* ================================================================== *)
(** ** The query schema (zod) *)

Module Zod.

Inductive issue : Type := invalid_type | too_small | too_big.

(** [parsed.error.flatten()]: the violated fields with their issues, in
    schema order. *)
Definition details : Type := list (string * issue).

(** [z.coerce.number().min(lo).max(hi)] on a present input. *)
Definition coerceNumber (lo hi : Z) (input : string) : list issue + Num.jsnum :=
  let n := Num.of_string input in
  if Num.isNaN n then inl [invalid_type]
  else
    match (if Num.ltb n (Num.of_Z lo) then [too_small] else [])
            ++ (if Num.ltb (Num.of_Z hi) n then [too_big] else []) with
    | [] => inr n
    | issues => inl issues
    end.

(** [.optional()] *)
Definition optional {A} (parse : string -> list issue + A) (input : option string)
  : list issue + option A :=
  match input with
  | None => inr None
  | Some s => match parse s with
              | inl e => inl e
              | inr a => inr (Some a)
              end
  end.

(** [.default(d)] *)
Definition default {A} (parse : string -> list issue + A) (d : A) (input : option string)
  : list issue + A :=
  match input with
  | None => inr d
  | Some s => parse s
  end.

(** [z.string().trim().max(n)] *)
Definition trimmedString (n : nat) (input : string) : list issue + string :=
  let t := Str.trim input in
  if (n <? String.length t)%nat then inl [too_big] else inr t.

(** [z.string()] *)
Definition anyString (input : string) : list issue + string := inr input.

Definition issuesOf {A} (field : string) (r : list issue + A) : details :=
  match r with
  | inl e => map (fun i => (field, i)) e
  | inr _ => []
  end.

End Zod.

Record Query : Type := mkQuery {
  q : option string;
  lat : option Num.jsnum;
  lng : option Num.jsnum;
  radius : Num.jsnum;
  from : option string;
  to : option string;
  page : Num.jsnum;
}.

Module QuerySchema.

Definition q := Zod.optional (Zod.trimmedString 80).
Definition lat := Zod.optional (Zod.coerceNumber (-90) 90).
Definition lng := Zod.optional (Zod.coerceNumber (-180) 180).
Definition radius := Zod.default (Zod.coerceNumber 1 1000) (Num.of_Z 25).
Definition from := Zod.optional Zod.anyString.
Definition to := Zod.optional Zod.anyString.
Definition page := Zod.default (Zod.coerceNumber 0 49) (Num.of_Z 0).

(** [QuerySchema.safeParse(obj)]: the typed query, or every violated
    field. *)
Definition safeParse (obj : gmap string string) : Zod.details + Query :=
  match q (obj !! "q"), lat (obj !! "lat"), lng (obj !! "lng"),
        radius (obj !! "radius"), from (obj !! "from"), to (obj !! "to"),
        page (obj !! "page") with
  | inr q', inr lat', inr lng', inr radius', inr from', inr to', inr page' =>
      inr (mkQuery q' lat' lng' radius' from' to' page')
  | rq, rlat, rlng, rradius, rfrom, rto, rpage =>
      inl (Zod.issuesOf "q" rq ++ Zod.issuesOf "lat" rlat ++ Zod.issuesOf "lng" rlng
           ++ Zod.issuesOf "radius" rradius ++ Zod.issuesOf "from" rfrom
           ++ Zod.issuesOf "to" rto ++ Zod.issuesOf "page" rpage)
  end.

End QuerySchema.

(* ================================================================== *)
(** ** The process, the request, the upstream *)

(** What the route reads from the machine it runs on. *)
Record Host : Type := {
  (** [process.env.TICKETMASTER_API_KEY] *)
  apiKey : option string;
  (** the offset of the system time zone from UTC at a local time *)
  localTZA : Z -> Z;
  (** [Date.parse] on a string that has neither shape of [Date.isoParse]:
      other ISO forms and the engine's own formats; [None] is NaN *)
  parseOther : string -> option Z;
}.

(** What [fetch] resolves to. [RawBody]: a body that is not JSON. *)
Inductive Payload : Type :=
| NoBody
| JsonBody (v : JS.value)
| RawBody (text : string).

Record FetchResponse : Type := {
  status : Z;
  payload : Payload;
}.

Definition ok (r : FetchResponse) : bool :=
  (200 <=? status r) && (status r <=? 299).

(** What one request meets: the clock at the three places the handler
    reads it, and the upstream's answer to a URL ([None]: the call fails). *)
Record Env : Type := {
  now_default : Z;   (* [new Date()] in [startIsoFromYMD] *)
  now_lookup : Z;    (* [Date.now()] in the cache lookup *)
  now_store : Z;     (* [Date.now()] in the cache store *)
  upstream : string -> option FetchResponse;
}.

(** The request: the pairs of [new URL(req.url).searchParams]. *)
Record Request : Type := {
  searchParams : URL.SearchParams;
}.

(* ================================================================== *)
(** ** The response *)

Record PriceRange : Type := {
  min : JS.value;
  max : JS.value;
  currency : JS.value;
}.

Record Coords : Type := {
  coords_lat : Num.jsnum;
  coords_lng : Num.jsnum;
}.

Record Venue : Type := {
  name : JS.value;
  city : JS.value;
  coords : option Coords;
}.

Record NormalizedEvent : Type := {
  id : JS.value;
  title : JS.value;
  start : JS.value;
  ticketUrl : JS.value;
  priceRange : option PriceRange;
  categories : list JS.value;
  imageUrl : JS.value;
  venue : Venue;
}.

Record PageInfo : Type := {
  pi_page : JS.value;
  totalPages : JS.value;
  total : JS.value;
}.

Record Data : Type := {
  results : list NormalizedEvent;
  pageInfo : PageInfo;
}.

(** The JSON bodies the handler sends. *)
Inductive Body : Type :=
| ErrorBody (error : string)
| InvalidQuery (details : Zod.details)
| DebugBody (startISO : string) (endISO : option string) (tmUrl : string)
| UpstreamFailed (details : JS.value) (tmUrl : string)
| DataBody (data : Data).

Record Response : Type := {
  code : Z;
  body : Body;
}.

(** [NextResponse.json(body, { status })] *)
Definition json (b : Body) (status : Z) : Response := {| code := status; body := b |}.

(* ================================================================== *)
(** ** The handler monad: early return, exceptions, the cache *)

Record CacheEntry : Type := {
  ts : Z;
  data : Data;
}.

Record World : Type := {
  cache : gmap string CacheEntry;   (* the module-level [cache] *)
  calls : list string;              (* the URLs fetched so far *)
}.

Inductive step (A : Type) : Type :=
| Next (a : A)
| Return (r : Response)
| Raise (e : error).
Arguments Next {A} a.
Arguments Return {A} r.
Arguments Raise {A} e.

Definition handler (A : Type) : Type := World -> step A * World.

Definition ret {A} (a : A) : handler A := fun w => (Next a, w).
Definition respond {A} (r : Response) : handler A := fun w => (Return r, w).
Definition raise {A} (e : error) : handler A := fun w => (Raise e, w).

Definition bind {A B} (m : handler A) (k : A -> handler B) : handler B :=
  fun w =>
    match m w with
    | (Next a, w') => k a w'
    | (Return r, w') => (Return r, w')
    | (Raise e, w') => (Raise e, w')
    end.

Notation "'let!' x := m 'in' k" := (bind m (fun x => k))
  (at level 10, x name, m at level 200, k at level 200) : js_scope.

Definition lift {A} (o : outcome A) : handler A :=
  match o with
  | Ok a => ret a
  | Throw e => raise e
  end.

(** [if (c) return r;] *)
Definition returnIf (c : bool) (r : Response) : handler unit :=
  if c then respond r else ret tt.

Definition cache_get (key : string) : handler (option CacheEntry) :=
  fun w => (Next (cache w !! key), w).

Definition cache_set (key : string) (e : CacheEntry) : handler unit :=
  fun w => (Next tt, {| cache := <[key := e]> (cache w); calls := calls w |}).

(** [await fetch(url, { cache: "no-store" })] *)
Definition fetch (env : Env) (url : string) : handler FetchResponse :=
  fun w =>
    let w' := {| cache := cache w; calls := calls w ++ [url] |} in
    match upstream env url with
    | Some r => (Next r, w')
    | None => (Raise TypeError, w')
    end.

(** [await r.json()] *)
Definition body_json (r : FetchResponse) : outcome JS.value :=
  match payload r with
  | JsonBody v => Ok v
  | _ => Throw SyntaxError
  end.

(** [await r.text()] after [r.json()] has failed: the body stream was
    read by [json()], so only a response without a body still yields
    text. *)
Definition body_text_after_json (r : FetchResponse) : outcome JS.value :=
  match payload r with
  | NoBody => Ok (JS.VStr "")
  | _ => Throw TypeError
  end.

(* ================================================================== *)
(** ** The route *)

Local Open Scope js_scope.
Import JS.

Definition TM_BASE : string := "https://app.ticketmaster.com/discovery/v2/events.json".

Definition TTL_MS : Z := 1000 * 60 * 5.

Definition MAX_WINDOW_MS : Z := 1000 * 60 * 60 * 24 * 180.

(** [(v.width ?? 0)] as an operand of [-]. *)
Definition widthOf (v : value) : outcome Num.jsnum :=
  let* w := member v "width" in
  Ok (toNumber (coalesce w (VNum (Num.of_Z 0)))).

(** Always the largest image available. *)
Definition pickImage (images : value) : outcome value :=
  match images with
  | VArr [] => Ok VUndefined
  | VArr items =>
      let* sorted :=
        sort (fun a b => let* wb := widthOf b in
                         let* wa := widthOf a in
                         Ok (Num.sub wb wa)) items in
      Ok (prop (index0 (VArr sorted)) "url")
  | _ => Ok VUndefined
  end.

(** *** Date helpers *)

(** [Date.parse(s)]; also the time value of [new Date(s)]. *)
Definition Date_parse (h : Host) (s : string) : option Z :=
  match Date.isoParse (Str.chars s) with
  | Some t => Some t
  | None => parseOther h s
  end.

(** [new Date(y, m, d, hh, mi, ss, ms)]: local time to a time value;
    [None] is an Invalid Date. *)
Definition Date_local (h : Host) (y m d : Num.jsnum) (hh mi ss ms : Z) : option Z :=
  match Num.trunc y, Num.trunc m, Num.trunc d with
  | Some y', Some m', Some d' =>
      let t := Date.MakeDate (Date.MakeDay (Date.MakeFullYear y') m' d')
                             (Date.MakeTime hh mi ss ms) in
      Date.TimeClip (t - localTZA h t)
  | _, _, _ => None
  end.

(** [s.replace(/\.\d{3}Z$/, "Z")] *)
Definition dropMs (l : list ascii) : list ascii :=
  match rev l with
  | "Z"%char :: d3 :: d2 :: d1 :: "."%char :: r =>
      if Str.is_digit d1 && Str.is_digit d2 && Str.is_digit d3
      then rev ("Z"%char :: r)
      else l
  | _ => l
  end.

(** [d.toISOString()] throws a RangeError on an Invalid Date. *)
Definition toIsoNoMs (d : option Z) : outcome string :=
  match d with
  | Some t => Ok (Str.text (dropMs (Date.toISOChars t)))
  | None => Throw RangeError
  end.

(** [const [y, m, d] = s.split("-").map(Number)] and
    [new Date(y, (m ?? 1) - 1, d ?? 1, hh, mi, ss, ms)]. *)
Definition ymdToLocal (h : Host) (s : string) (hh mi ss ms : Z) : option Z :=
  let parts := map Num.of_string (Str.split "-" s) in
  let y := nth 0 parts Num.NaN in
  let m := nth 1 parts (Num.of_Z 1) in
  let d := nth 2 parts (Num.of_Z 1) in
  Date_local h y (Num.sub m (Num.of_Z 1)) d hh mi ss ms.

Definition ymdToLocalStart (h : Host) (s : string) : option Z :=
  ymdToLocal h s 0 0 0 0.

Definition ymdToLocalEnd (h : Host) (s : string) : option Z :=
  ymdToLocal h s 23 59 59 999.

(** A string operand in a condition: absent and empty are falsy. *)
Definition given (s : option string) : option string :=
  match s with
  | Some s' => if nonEmpty s' then Some s' else None
  | None => None
  end.

Definition startIsoFromYMD (h : Host) (env : Env) (s : option string) : outcome string :=
  match given s with
  | Some s' => toIsoNoMs (ymdToLocalStart h s')
  | None => toIsoNoMs (Date.TimeClip (now_default env))
  end.

Definition endIsoFromYMD (h : Host) (s : option string) : outcome (option string) :=
  match given s with
  | Some s' => let* e := toIsoNoMs (ymdToLocalEnd h s') in Ok (Some e)
  | None => Ok None
  end.

(** [a > b] on two dates; false when either is invalid. *)
Definition after (a b : option Z) : bool :=
  match a, b with
  | Some x, Some y => y <? x
  | _, _ => false
  end.

(** Keep start <= end. *)
Definition orderWindow (h : Host) (startISO : string) (endISO : option string)
  : string * option string :=
  match given endISO with
  | Some e =>
      if after (Date_parse h startISO) (Date_parse h e)
      then (e, Some startISO)
      else (startISO, endISO)
  | None => (startISO, endISO)
  end.

(** Cap the window to 180 days. *)
Definition capWindow (h : Host) (startISO : string) (endISO : option string)
  : outcome (string * option string) :=
  match given endISO with
  | Some e =>
      match Date_parse h e, Date_parse h startISO with
      | Some te, Some ts =>
          if MAX_WINDOW_MS <? te - ts
          then let* e' := toIsoNoMs (Date.TimeClip (ts + MAX_WINDOW_MS)) in
               Ok (startISO, Some e')
          else Ok (startISO, endISO)
      | _, _ => Ok (startISO, endISO)
      end
  | None => Ok (startISO, endISO)
  end.

(** The date window of a query: local dates, then UTC without
    milliseconds, ordered and capped. *)
Definition resolveWindow (h : Host) (env : Env) (from to : option string)
  : outcome (string * option string) :=
  let* startISO := startIsoFromYMD h env from in
  let* endISO := endIsoFromYMD h to in
  let '(startISO, endISO) := orderWindow h startISO endISO in
  capWindow h startISO endISO.

(** *** The cache key *)

Definition cacheKeyOf (q : option string) (lat lng : option Num.jsnum) (radius : Num.jsnum)
    (startISO : string) (endISO : option string) (page : Num.jsnum) : string :=
  jsonObject
    [("q", option_map quote q);
     ("lat", option_map jsonNumber lat);
     ("lng", option_map jsonNumber lng);
     ("radius", Some (jsonNumber radius));
     ("startISO", Some (quote startISO));
     ("endISO", option_map quote endISO);
     ("page", Some (jsonNumber page))]%string.

(** [JSON.stringify({ q, lat, lng, radius, startISO, endISO, page })] *)
Definition keyOf (query : Query) (startISO : string) (endISO : option string) : string :=
  cacheKeyOf (q query) (lat query) (lng query) (radius query) startISO endISO (page query).

(** *** The Ticketmaster query *)

Definition tmParams (key : string) (query : Query) (startISO : string)
    (endISO : option string) : URL.SearchParams :=
  let p := URL.set "apikey" key [] in
  let p := URL.set "size" "100" p in
  let p := URL.set "page" (Num.to_string (page query)) p in
  let p := URL.set "sort" "relevance,desc" p in
  let p := URL.set "locale" "*" p in
  let p := match given (q query) with
           | Some kw => URL.set "keyword" kw p
           | None => p
           end in
  let p := match lat query, lng query with
           | Some la, Some ln =>
               URL.set "unit" "km"
                 (URL.set "radius" (Num.to_string (radius query))
                    (URL.set "latlong"
                       (Num.to_string la +:+ "," +:+ Num.to_string ln) p))
           | _, _ => p
           end in
  let p := URL.set "startDateTime" startISO p in
  match given endISO with
  | Some e => URL.set "endDateTime" e p
  | None => p
  end.

Definition tmUrlOf (key : string) (query : Query) (startISO : string)
    (endISO : option string) : string :=
  TM_BASE +:+ "?" +:+ URL.toString (tmParams key query startISO endISO).

(** *** Normalise TM to our shape *)

(** One pass over [ev.classifications]: [c?.<kind>?.name], truthy only. *)
Definition classNames (ev : value) (kind : string) : outcome (list value) :=
  match prop ev "classifications" with
  | VUndefined | VNull => Ok []
  | VArr cs => Ok (List.filter truthy (map (fun c => prop (prop c kind) "name") cs))
  | _ => Throw TypeError
  end.

Definition venueCoords (venue : value) : option Coords :=
  let latitude := prop (prop venue "location") "latitude" in
  let longitude := prop (prop venue "location") "longitude" in
  if truthy latitude && truthy longitude
  then Some {| coords_lat := toNumber latitude; coords_lng := toNumber longitude |}
  else None.

Definition normalizeEvent (ev : value) : outcome NormalizedEvent :=
  let* priceRanges := member ev "priceRanges" in
  let price := match priceRanges with
               | VArr _ => index0 priceRanges
               | _ => VUndefined
               end in
  let venue := index0 (prop (prop ev "_embedded") "venues") in
  let* segments := classNames ev "segment" in
  let* genres := classNames ev "genre" in
  let categories := List.filter truthy (segments ++ genres) in
  let dates := prop (prop ev "dates") "start" in
  let* image := pickImage (prop ev "images") in
  Ok {| id := prop ev "id";
        title := prop ev "name";
        start := coalesce (coalesce (prop dates "dateTime") (prop dates "localDate"))
                          (VStr "");
        ticketUrl := prop ev "url";
        priceRange :=
          if truthy price
          then Some {| min := prop price "min"; max := prop price "max";
                       currency := prop price "currency" |}
          else None;
        categories := categories;
        imageUrl := image;
        venue := {| name := prop venue "name";
                    city := prop (prop venue "city") "name";
                    coords := venueCoords venue |} |}.

(** [raw?._embedded?.events?.map(...) ?? []] *)
Definition normalize (raw : value) : outcome (list NormalizedEvent) :=
  match prop (prop raw "_embedded") "events" with
  | VUndefined | VNull => Ok []
  | VArr evs => omap normalizeEvent evs
  | _ => Throw TypeError
  end.

(** *** Enforce the window on our side, and sort *)

(** [/^\d{4}-\d{2}-\d{2}$/.test(s)] *)
Definition isDateOnly (l : list ascii) : bool :=
  match l with
  | [y1; y2; y3; y4; "-"; m1; m2; "-"; d1; d2]%char =>
      forallb Str.is_digit [y1; y2; y3; y4; m1; m2; d1; d2]
  | _ => false
  end.

(** The instant the filter compares: [None] when [e.start] does not
    parse.  A date-only start counts as the local end of its day. *)
Definition effectiveInstant (h : Host) (start : value) : outcome (option Z) :=
  match Date_parse h (toString start) with
  | None => Ok None
  | Some ms =>
      if isDateOnly (toChars start)
      then match start with
           | VStr s => Ok (ymdToLocal h s 23 59 59 999)
           | _ => Throw TypeError
           end
      else Ok (Some ms)
  end.

(** [endMs]: a time value, or [Number.POSITIVE_INFINITY]. *)
Inductive upper : Type :=
| UpTo (t : option Z)
| Unbounded.

Definition startMsOf (h : Host) (startISO : string) : option Z := Date_parse h startISO.

Definition endMsOf (h : Host) (endISO : option string) : upper :=
  match given endISO with
  | Some e => UpTo (Date_parse h e)
  | None => Unbounded
  end.

(** [ms >= startMs && ms <= endMs] *)
Definition within (startMs : option Z) (endMs : upper) (ms : Z) : bool :=
  match startMs with
  | Some s =>
      (s <=? ms) && match endMs with
                    | UpTo (Some e) => ms <=? e
                    | UpTo None => false
                    | Unbounded => true
                    end
  | None => false
  end.

Definition keep (h : Host) (startMs : option Z) (endMs : upper) (e : NormalizedEvent)
  : outcome bool :=
  let* ms := effectiveInstant h (start e) in
  Ok match ms with
     | Some t => within startMs endMs t
     | None => false
     end.

Fixpoint ofilter {A} (p : A -> outcome bool) (l : list A) : outcome (list A) :=
  match l with
  | [] => Ok []
  | x :: r =>
      let* b := p x in
      let* r' := ofilter p r in
      Ok (if b then x :: r' else r')
  end.

Definition numOfTime (t : option Z) : Num.jsnum :=
  match t with
  | Some z => Num.of_Z z
  | None => Num.NaN
  end.

(** [(a, b) => Date.parse(a.start) - Date.parse(b.start)] *)
Definition byStart (h : Host) (a b : NormalizedEvent) : outcome Num.jsnum :=
  Ok (Num.sub (numOfTime (Date_parse h (toString (start a))))
              (numOfTime (Date_parse h (toString (start b))))).

Definition refilter (h : Host) (startISO : string) (endISO : option string)
    (events : list NormalizedEvent) : outcome (list NormalizedEvent) :=
  let startMs := startMsOf h startISO in
  let endMs := endMsOf h endISO in
  let* filtered := ofilter (keep h startMs endMs) events in
  sort (byStart h) filtered.

Definition pageInfoOf (raw : value) : PageInfo :=
  let p := prop raw "page" in
  {| pi_page := coalesce (prop p "number") (VNum (Num.of_Z 0));
     totalPages := coalesce (prop p "totalPages") (VNum (Num.of_Z 0));
     total := coalesce (prop p "totalElements") (VNum (Num.of_Z 0)) |}.

(** *** The handler *)

Definition flag (req : Request) (name : string) : bool :=
  match URL.get (searchParams req) name with
  | Some v => String.eqb v "1"
  | None => false
  end.

(** [try { details = await r.json() } catch { details = await r.text() }] *)
Definition failureDetails (r : FetchResponse) : outcome value :=
  match body_json r with
  | Ok v => Ok v
  | Throw _ => body_text_after_json r
  end.

(** The upstream refused: forward its status with its body, best effort. *)
Definition upstreamFailure (r : FetchResponse) (tmUrl : string) : handler unit :=
  let! details := lift (failureDetails r) in
  respond (json (UpstreamFailed details tmUrl) (status r)).

Definition GET (h : Host) (env : Env) (req : Request) : handler Response :=
  let! key :=
    match given (apiKey h) with
    | Some k => ret k
    | None => respond (json (ErrorBody "Missing TICKETMASTER_API_KEY") 500)
    end in
  let! query :=
    match QuerySchema.safeParse (URL.fromEntries (searchParams req)) with
    | inr query => ret query
    | inl details => respond (json (InvalidQuery details) 400)
    end in
  let! window := lift (resolveWindow h env (from query) (to query)) in
  let '(startISO, endISO) := window in
  let nocache := flag req "nocache" in
  let cacheKey := keyOf query startISO endISO in
  let! _ :=
    if nocache then ret tt
    else
      let! hit := cache_get cacheKey in
      match hit with
      | Some entry =>
          returnIf (now_lookup env - ts entry <? TTL_MS)
                   (json (DataBody (data entry)) 200)
      | None => ret tt
      end in
  let tmUrl := tmUrlOf key query startISO endISO in
  let! _ := returnIf (flag req "debug") (json (DebugBody startISO endISO tmUrl) 200) in
  let! r := fetch env tmUrl in
  let! _ := if ok r then ret tt else upstreamFailure r tmUrl in
  let! raw := lift (body_json r) in
  let! events := lift (normalize raw) in
  let! filtered := lift (refilter h startISO endISO events) in
  let data := {| results := filtered; pageInfo := pageInfoOf raw |} in
  let! _ :=
    if nocache then ret tt
    else cache_set cacheKey {| ts := now_store env; data := data |} in
  respond (json (DataBody data) 200).

(** One request served on the cache [c]: what the caller gets, the cache
    afterwards, and the upstream calls made. *)
Definition serve (h : Host) (env : Env) (req : Request) (c : gmap string CacheEntry)
  : step Response * World :=
  GET h env req {| cache := c; calls := [] |}.

(** The caches the process can hold: empty at start, then whatever the
    requests served so far have left. *)
Inductive reachable (h : Host) : gmap string CacheEntry -> Prop :=
| reach_start : reachable h ∅
| reach_serve env req c :
    reachable h c -> reachable h (cache (snd (serve h env req c))).

(* ================================================================== *)
(** ** What a request can come to *)

(** The entry a lookup returns: present, and younger than the TTL. *)
Definition lookupHit (nocache : bool) (c : gmap string CacheEntry) (key : string) (now : Z)
  : option CacheEntry :=
  if nocache then None
  else match c !! key with
       | Some entry => if now - ts entry <? TTL_MS then Some entry else None
       | None => None
       end.

(** The request passed the credential check, validation and date
    normalisation. *)
Record prepared (h : Host) (env : Env) (req : Request)
    (key : string) (query : Query) (s : string) (e : option string) : Prop := {
  prep_key : given (apiKey h) = Some key;
  prep_query : QuerySchema.safeParse (URL.fromEntries (searchParams req)) = inr query;
  prep_window : resolveWindow h env (from query) (to query) = Ok (s, e);
}.

(** Every way [GET] ends: the result, the cache afterwards, the upstream
    calls made. *)
Inductive served (h : Host) (env : Env) (req : Request) (c : gmap string CacheEntry)
  : step Response -> gmap string CacheEntry -> list string -> Prop :=
| served_no_key :
    given (apiKey h) = None ->
    served h env req c
      (Return (json (ErrorBody "Missing TICKETMASTER_API_KEY") 500)) c []
| served_invalid key details :
    given (apiKey h) = Some key ->
    QuerySchema.safeParse (URL.fromEntries (searchParams req)) = inl details ->
    served h env req c (Return (json (InvalidQuery details) 400)) c []
| served_bad_date key query err :
    given (apiKey h) = Some key ->
    QuerySchema.safeParse (URL.fromEntries (searchParams req)) = inr query ->
    resolveWindow h env (from query) (to query) = Throw err ->
    served h env req c (Raise err) c []
| served_hit key query s e entry :
    prepared h env req key query s e ->
    lookupHit (flag req "nocache") c (keyOf query s e) (now_lookup env) = Some entry ->
    served h env req c (Return (json (DataBody (data entry)) 200)) c []
| served_debug key query s e :
    prepared h env req key query s e ->
    lookupHit (flag req "nocache") c (keyOf query s e) (now_lookup env) = None ->
    flag req "debug" = true ->
    served h env req c
      (Return (json (DebugBody s e (tmUrlOf key query s e)) 200)) c []
| served_unreachable key query s e :
    prepared h env req key query s e ->
    lookupHit (flag req "nocache") c (keyOf query s e) (now_lookup env) = None ->
    flag req "debug" = false ->
    upstream env (tmUrlOf key query s e) = None ->
    served h env req c (Raise TypeError) c [tmUrlOf key query s e]
| served_refused key query s e r details :
    prepared h env req key query s e ->
    lookupHit (flag req "nocache") c (keyOf query s e) (now_lookup env) = None ->
    flag req "debug" = false ->
    upstream env (tmUrlOf key query s e) = Some r ->
    ok r = false ->
    failureDetails r = Ok details ->
    served h env req c
      (Return (json (UpstreamFailed details (tmUrlOf key query s e)) (status r)))
      c [tmUrlOf key query s e]
| served_refused_unread key query s e r err :
    prepared h env req key query s e ->
    lookupHit (flag req "nocache") c (keyOf query s e) (now_lookup env) = None ->
    flag req "debug" = false ->
    upstream env (tmUrlOf key query s e) = Some r ->
    ok r = false ->
    failureDetails r = Throw err ->
    served h env req c (Raise err) c [tmUrlOf key query s e]
| served_bad_json key query s e r err :
    prepared h env req key query s e ->
    lookupHit (flag req "nocache") c (keyOf query s e) (now_lookup env) = None ->
    flag req "debug" = false ->
    upstream env (tmUrlOf key query s e) = Some r ->
    ok r = true ->
    body_json r = Throw err ->
    served h env req c (Raise err) c [tmUrlOf key query s e]
| served_bad_payload key query s e r raw err :
    prepared h env req key query s e ->
    lookupHit (flag req "nocache") c (keyOf query s e) (now_lookup env) = None ->
    flag req "debug" = false ->
    upstream env (tmUrlOf key query s e) = Some r ->
    ok r = true ->
    body_json r = Ok raw ->
    (let* events := normalize raw in refilter h s e events) = Throw err ->
    served h env req c (Raise err) c [tmUrlOf key query s e]
| served_fresh key query s e r raw events filtered :
    prepared h env req key query s e ->
    lookupHit (flag req "nocache") c (keyOf query s e) (now_lookup env) = None ->
    flag req "debug" = false ->
    upstream env (tmUrlOf key query s e) = Some r ->
    ok r = true ->
    body_json r = Ok raw ->
    normalize raw = Ok events ->
    refilter h s e events = Ok filtered ->
    served h env req c
      (Return (json (DataBody {| results := filtered; pageInfo := pageInfoOf raw |}) 200))
      (if flag req "nocache" then c
       else <[keyOf query s e :=
                {| ts := now_store env;
                   data := {| results := filtered; pageInfo := pageInfoOf raw |} |}]> c)
      [tmUrlOf key query s e].

(* ================================================================== *)
(** ** Notions the properties are stated with *)

(** The text [toIsoNoMs] produces for a valid date. *)
Definition isoNoMs (t : Z) : list ascii :=
  Date.isoDate t ++ "T"%char :: Date.isoClock t ++ ["Z"%char].

(** [s] is the text of a valid date, whole seconds [t]. *)
Definition isoText (s : string) (t : Z) : Prop :=
  exists t0, Z.abs t0 <= Date.maxTime /\ s = Str.text (isoNoMs t0) /\ t = t0 - t0 mod 1000.

(** The zone's offset stays within a day. *)
Definition zoneBounded (h : Host) : Prop :=
  forall t, Z.abs (localTZA h t) <= Date.msPerDay.

(** No character of [l] is [sep]. *)
Definition free (sep : ascii) (l : list ascii) : Prop :=
  forallb (fun c => negb (Ascii.eqb c sep)) l = true.

(** Characters [JSON.stringify] copies unchanged. *)
Definition plain (c : ascii) : bool :=
  let n := nat_of_ascii c in
  (32 <=? n)%nat && negb (n =? 34)%nat && negb (n =? 92)%nat.

(** The quote-separated pieces at the end of a key: the window and the
    page. *)
Definition keyTail (startISO : string) (endISO : option string) (page : Num.jsnum)
  : list (list ascii) :=
  [Str.chars "startISO"; [":"%char]; Str.chars startISO]
  ++ match endISO with
     | Some e => [[","%char]; Str.chars "endISO"; [":"%char]; Str.chars e]
     | None => []
     end
  ++ [[","%char]; Str.chars "page"; ":"%char :: jsonNumber page ++ ["}"%char]].

(** The parsed instant of an event's start. *)
Definition parsedStart (h : Host) (ev : NormalizedEvent) : option Z :=
  Date_parse h (toString (start ev)).

(** [ms] is the effective instant of a start that parsed as [p]: the
    local end of the day for a date-only start, [p] itself otherwise. *)
Definition effectiveAt (h : Host) (v : value) (p ms : Z) : Prop :=
  if isDateOnly (toChars v)
  then exists s, v = VStr s /\ ymdToLocalEnd h s = Some ms
  else ms = p.

(** An event the filter keeps for the window [[s, e]]. *)
Definition inWindow (h : Host) (s : string) (e : option string) (ev : NormalizedEvent)
  : Prop :=
  exists p ms ts,
    parsedStart h ev = Some p /\ effectiveAt h (start ev) p ms
    /\ Date_parse h s = Some ts /\ ts <= ms
    /\ match e with
       | Some e' => exists te, Date_parse h e' = Some te /\ ms <= te
       | None => True
       end.

(** Ascending parsed instants. *)
Definition notAfter (h : Host) (a b : NormalizedEvent) : Prop :=
  exists ta tb, parsedStart h a = Some ta /\ parsedStart h b = Some tb /\ ta <= tb.

(** What holds of a stored response: it was filtered and sorted for the
    window its key names. *)
Definition filteredFor (h : Host) (s : string) (e : option string)
    (l : list NormalizedEvent) : Prop :=
  Forall (inWindow h s e) l /\ StronglySorted (notAfter h) l.

Definition entry_ok (h : Host) (k : string) (entry : CacheEntry) : Prop :=
  exists query s e,
    k = keyOf query s e
    /\ (exists ts, isoText s ts)
    /\ (forall e', e = Some e' -> exists te, isoText e' te)
    /\ filteredFor h s e (results (data entry)).



(** The venue location fields of an upstream event record. *)
Definition latitudeOf (ev : value) : value :=
  prop (prop (index0 (prop (prop ev "_embedded") "venues")) "location") "latitude".

Definition longitudeOf (ev : value) : value :=
  prop (prop (index0 (prop (prop ev "_embedded") "venues")) "location") "longitude".

(* ================================================================== *)
(** ** A sample process, for the examples below *)

(** A machine on UTC whose engine parses nothing but the two ISO shapes. *)
Definition utcHost : Host :=
  {| apiKey := Some "demo-key"; localTZA := fun _ => 0; parseOther := fun _ => None |}.

Definition tmEvent (id : string) (start : value) (venues : list value) : value :=
  VObj [("id", VStr id); ("name", VStr "Show");
        ("dates", VObj [("start", start)]);
        ("_embedded", VObj [("venues", VArr venues)])]%string.

Definition tmPayload (events : list value) : value :=
  VObj [("_embedded", VObj [("events", VArr events)])]%string.

(** Two events on the fourth of July: one with a date only, one at noon. *)
Definition july4 : value :=
  tmPayload
    [tmEvent "a" (VObj [("localDate", VStr "2025-07-04")]) [];
     tmEvent "b" (VObj [("dateTime", VStr "2025-07-04T12:00:00Z")]) []]%string.

Definition answering (now : Z) (raw : value) : Env :=
  {| now_default := now; now_lookup := now + 1; now_store := now + 2;
     upstream := fun _ => Some {| status := 200; payload := JsonBody raw |} |}.

Definition mid_june : Z := 1750000000123.

Definition julyRequest : Request :=
  {| searchParams := [("from", "2025-07-01"); ("to", "2025-07-31")]%string |}.

Definition emptyData : Data :=
  {| results := [];
     pageInfo := {| pi_page := VUndefined; totalPages := VUndefined; total := VUndefined |} |}.

(** The data a response carries, when it carries some. *)
Definition dataOf (r : step Response) : Data :=
  match r with
  | Return {| body := DataBody d |} => d
  | _ => emptyData
  end.

Definition julyData : Data :=
  Eval vm_compute in dataOf (fst (serve utcHost (answering mid_june july4) julyRequest ∅)).

(** A venue whose latitude is the string "abc". *)
Definition oddVenueEvent : value :=
  tmEvent "a" (VObj [("localDate", VStr "2025-07-04")])
    [VObj [("name", VStr "Hall");
           ("location", VObj [("latitude", VStr "abc"); ("longitude", VStr "-79.38")])]]%string.

(* ================================================================== *)
(** ** Claims that fail as they are worded *)

(** C2 as stated: adjacent results ascend by effective instant. *)
Definition sorted_by_effective_instant : Prop :=
  forall h c env req code d,
    reachable h c ->
    fst (serve h env req c) = Return {| code := code; body := DataBody d |} ->
    forall i a b ea eb,
      results d !! i = Some a -> results d !! S i = Some b ->
      effectiveInstant h (start a) = Ok (Some ea) ->
      effectiveInstant h (start b) = Ok (Some eb) ->
      ea <= eb.

(** C3 as stated: the same parameters again within the TTL give the same
    response from the cache, with no upstream call. *)
Definition repeat_is_served_from_cache : Prop :=
  forall h env1 env2 req c,
    reachable h c ->
    now_default env1 <= now_lookup env1 <= now_store env1 ->
    now_store env1 <= now_default env2 <= now_lookup env2 ->
    now_lookup env2 - now_default env1 < TTL_MS ->
    let first := serve h env1 req c in
    let second := serve h env2 req (cache (snd first)) in
    fst second = fst first /\ calls (snd second) = [].

(** C7 as stated: with the bypass flag the upstream is always called,
    and the cache stays as it was. *)
Definition bypass_always_calls_upstream : Prop :=
  forall h env req c,
    reachable h c -> flag req "nocache" = true ->
    calls (snd (serve h env req c)) <> [] /\ cache (snd (serve h env req c)) = c.

(** C9 as stated: coordinates are there exactly when both fields are
    present and parse as numbers, and never hold NaN. *)
Definition coords_iff_both_parse : Prop :=
  forall ev e,
    normalizeEvent ev = Ok e ->
    (is_Some (coords (venue e))
     <-> latitudeOf ev <> VUndefined /\ longitudeOf ev <> VUndefined
         /\ Num.isNaN (toNumber (latitudeOf ev)) = false
         /\ Num.isNaN (toNumber (longitudeOf ev)) = false)
    /\ (forall c, coords (venue e) = Some c ->
                  Num.isNaN (coords_lat c) = false /\ Num.isNaN (coords_lng c) = false).



(* ================================================================== *)
(** ** Notions the further properties are stated with *)

(** [lo <= n <= hi] for a finite [n], the decimal [m * 10^e], with the
    denominator cleared. *)
Definition inRange (lo hi : Z) (n : Num.jsnum) : Prop :=
  exists m e,
    n = Num.Fin m e
    /\ lo * 10 ^ Z.max 0 (- e) <= m * 10 ^ Z.max 0 e <= hi * 10 ^ Z.max 0 (- e).

(** The cache after a run of requests, each with the clock and the
    upstream it met. *)
Fixpoint serveAll (h : Host) (reqs : list (Env * Request)) (c : gmap string CacheEntry)
  : gmap string CacheEntry :=
  match reqs with
  | [] => c
  | (env, req) :: rest => serveAll h rest (cache (snd (serve h env req c)))
  end.

(** A status in the 2xx range. *)
Definition successful (code : Z) : Prop := 200 <= code <= 299.

(** The events the filter keeps for the window [[s, e]]. *)
Definition kept (h : Host) (s : string) (e : option string) (ev : NormalizedEvent) : bool :=
  match keep h (startMsOf h s) (endMsOf h e) ev with
  | Ok b => b
  | Throw _ => false
  end.

(** The events whose start parses as the instant [t]. *)
Definition startsAt (h : Host) (t : Z) (ev : NormalizedEvent) : bool :=
  match parsedStart h ev with
  | Some p => p =? t
  | None => false
  end.

(** Insertion into a sorted list and insertion sort, for a comparison
    that cannot throw: [behind x y] says that [x] goes behind [y]. *)
Section Arrange.
Context {A : Type} (behind : A -> A -> bool).

Fixpoint place (x : A) (l : list A) : list A :=
  match l with
  | [] => [x]
  | y :: r => if behind x y then y :: place x r else x :: l
  end.

Fixpoint arrange (l : list A) : list A :=
  match l with
  | [] => []
  | x :: r => place x (arrange r)
  end.
End Arrange.

(** The elements a comparator orders as [behind] does: it does not
    throw on them, and returns a positive number exactly when the first
    goes behind the second. *)
Definition comparable {A : Type} (behind : A -> A -> bool)
    (cmp : A -> A -> outcome Num.jsnum) (l : list A) : Prop :=
  forall a b, In a l -> In b l ->
    exists c, cmp a b = Ok c /\ Num.ltb (Num.Fin 0 0) c = behind a b.

(** Ascending by a key: [x] goes behind [y] when the key of [y] is
    smaller; descending: when it is larger. *)
Definition ascendingBy {A : Type} (key : A -> Num.jsnum) (x y : A) : bool :=
  Num.ltb (key y) (key x).





(** Three shows, the first and the last at the same hour. *)
Definition threeShows : value :=
  tmPayload
    [tmEvent "a" (VObj [("dateTime", VStr "2025-07-04T12:00:00Z")]) [];
     tmEvent "b" (VObj [("dateTime", VStr "2025-07-04T09:00:00Z")]) [];
     tmEvent "c" (VObj [("dateTime", VStr "2025-07-04T12:00:00Z")]) []]%string.

(** One normalised event, for the examples. *)
Definition julyShow : NormalizedEvent :=
  {| id := VStr "a"; title := VStr "Show"; start := VStr "2025-07-04";
     ticketUrl := VUndefined; priceRange := None; categories := [];
     imageUrl := VUndefined;
     venue := {| name := VUndefined; city := VUndefined; coords := None |} |}.

(* ================================================================== *)
(** ** The movie-search route (GET /api/tmdb/search) *)

Module TMDB.

Definition TMDB_BASE : string := "https://api.themoviedb.org/3".

Record Movie : Type := {
  id : value;
  title : value;
  overview : value;
  release_date : value;
  poster_path : value;
}.

(** The JSON bodies the handler sends. *)
Inductive Body : Type :=
| Results (results : list Movie)
| Failure (error : string).

Record Response : Type := {
  code : Z;
  body : Body;
}.

Definition json (b : Body) (status : Z) : Response := {| code := status; body := b |}.

(** How a request ends: with a response, or with an exception the
    handler does not catch. *)
Inductive result : Type :=
| Answer (r : Response)
| Thrown (e : error).

(** The characters [encodeURIComponent] leaves as they are: letters,
    digits and [- _ . ! ~ * ' ( )]. *)
Definition unreserved (c : ascii) : bool :=
  let n := Z.of_nat (nat_of_ascii c) in
  ((48 <=? n) && (n <=? 57)) || ((65 <=? n) && (n <=? 90)) || ((97 <=? n) && (n <=? 122))
  || (n =? 45) || (n =? 95) || (n =? 46) || (n =? 33) || (n =? 126)
  || (n =? 42) || (n =? 39) || (n =? 40) || (n =? 41).

Definition percent (byte : Z) : list ascii :=
  ["%"%char; URL.upper_hex (byte / 16); URL.upper_hex (byte mod 16)].

(** Any other character goes out as the bytes of its UTF-8 form: one
    byte below U+0080, two up to U+00FF. *)
Definition encodeChar (c : ascii) : list ascii :=
  let n := Z.of_nat (nat_of_ascii c) in
  if unreserved c then [c]
  else if n <? 128 then percent n
  else percent (192 + n / 64) ++ percent (128 + n mod 64).

Definition encodeURIComponent (s : string) : list ascii :=
  flat_map encodeChar (Str.chars s).

(** One TMDB record to our shape; [m.id] throws on [null]. *)
Definition normalizeMovie (m : value) : outcome Movie :=
  let* id := member m "id" in
  Ok {| id := id;
        title := prop m "title";
        overview := coalesce (prop m "overview") (VStr "");
        release_date := prop m "release_date";
        poster_path := prop m "poster_path" |}.

(** [(data.results ?? []).map(...)] *)
Definition normalize (data : value) : outcome (list Movie) :=
  let* results := member data "results" in
  match coalesce results (VArr []) with
  | VArr ms => omap normalizeMovie ms
  | _ => Throw TypeError
  end.

(** [searchParams.get('q')?.trim() || ''] *)
Definition queryOf (req : Request) : string :=
  match URL.get (searchParams req) "q" with
  | Some v => Str.trim v
  | None => ""
  end.

Definition urlOf (key q : string) : string :=
  TMDB_BASE +:+ "/search/movie?query=" +:+ Str.text (encodeURIComponent q)
    +:+ "&api_key=" +:+ key.

(** The handler, with [process.env.TMDB_API_KEY] and the upstream it
    meets: what the caller gets, and the URLs fetched. *)
Definition GET (apiKey : option string) (upstream : string -> option FetchResponse)
    (req : Request) : result * list string :=
  let q := queryOf req in
  if negb (nonEmpty q) then (Answer (json (Results []) 200), [])
  else
    match given apiKey with
    | None => (Answer (json (Failure "Missing TMDB_API_KEY") 500), [])
    | Some key =>
        let url := urlOf key q in
        match upstream url with
        | None => (Thrown TypeError, [url])
        | Some r =>
            if negb (ok r)
            then (Answer (json (Failure "TMDB request failed") (status r)), [url])
            else
              match (let* data := body_json r in normalize data) with
              | Ok results => (Answer (json (Results results) 200), [url])
              | Throw e => (Thrown e, [url])
              end
        end
    end.

End TMDB.


(** A record of TMDB, for the examples. *)
Definition shrek : value :=
  VObj [("id", VNum (Num.of_Z 808)); ("title", VStr "Shrek");
        ("release_date", VStr "2001-05-18"); ("poster_path", VNull)]%string.

(* ================================================================== *)
(** ** Reading a query string ([new URL(req.url).searchParams]) *)

(** The application/x-www-form-urlencoded parser.  The model covers
    ASCII text: a sequence that decodes to a byte above 127, where the
    parser would decode UTF-8, reads as [None]. *)
Module Form.

Definition hex_value (c : ascii) : option Z :=
  let n := Z.of_nat (nat_of_ascii c) in
  if (48 <=? n) && (n <=? 57) then Some (n - 48)
  else if (65 <=? n) && (n <=? 70) then Some (n - 55)
  else if (97 <=? n) && (n <=? 102) then Some (n - 87)
  else None.

Definition byte (n : Z) : ascii := ascii_of_nat (Z.to_nat n).

(** Percent-decoding: [%XY] with two hex digits is the byte [XY]; a [%]
    that no two hex digits follow stays as it is. *)
Fixpoint percentDecode (l : list ascii) : list ascii :=
  match l with
  | [] => []
  | c :: r =>
      if Ascii.eqb c "%"
      then match r with
           | a :: b :: r' =>
               match hex_value a, hex_value b with
               | Some x, Some y => byte (16 * x + y) :: percentDecode r'
               | _, _ => c :: percentDecode r
               end
           | _ => c :: percentDecode r
           end
      else c :: percentDecode r
  end.

Definition isAscii (c : ascii) : bool := Z.of_nat (nat_of_ascii c) <? 128.

(** A name or a value: [+] is a space, then the percent-decoding. *)
Definition decode (l : list ascii) : option string :=
  let bytes := percentDecode (map (fun c => if Ascii.eqb c "+" then " "%char else c) l) in
  if forallb isAscii bytes then Some (Str.text bytes) else None.

(** One sequence: the name up to the first [=], the value after it. *)
Definition pairOf (l : list ascii) : option (string * string) :=
  let '(name, rest) := Str.span (fun c => negb (Ascii.eqb c "=")) l in
  match decode name, decode (match rest with _ :: value => value | [] => [] end) with
  | Some n, Some v => Some (n, v)
  | _, _ => None
  end.

Fixpoint collect {A} (l : list (option A)) : option (list A) :=
  match l with
  | [] => Some []
  | o :: r =>
      match o, collect r with
      | Some x, Some xs => Some (x :: xs)
      | _, _ => None
      end
  end.

(** The sequences between [&], the empty ones skipped. *)
Definition parse (s : string) : option URL.SearchParams :=
  collect (map pairOf
             (List.filter (fun l => match l with [] => false | _ => true end)
                          (Str.split_chars "&" (Str.chars s)))).

End Form.

(** Text of ASCII characters. *)
Definition asciiText (s : string) : Prop :=
  forallb Form.isAscii (Str.chars s) = true.

(* ================================================================== *)
(** ** The events page (the client of the events route) *)

Module EventsPage.

(** The state of the search form. *)
Record Form : Type := {
  q : string;
  from : string;
  to : string;
  radius : Num.jsnum;
  center_lat : Num.jsnum;
  center_lng : Num.jsnum;
}.

(** The parameters of [queryString]. *)
Definition params (f : Form) : URL.SearchParams :=
  let p := [] in
  let p := if nonEmpty (Str.trim (q f)) then URL.set "q" (Str.trim (q f)) p else p in
  let p := URL.set "lat" (Num.to_string (center_lat f)) p in
  let p := URL.set "lng" (Num.to_string (center_lng f)) p in
  let p := URL.set "radius" (Num.to_string (radius f)) p in
  let p := if nonEmpty (from f) then URL.set "from" (from f) p else p in
  if nonEmpty (to f) then URL.set "to" (to f) p else p.

Definition queryString (f : Form) : string := URL.toString (params f).

(** The radius field's [onChange]: the new radius, clamped between 1
    and 200. *)
Definition clampRadius (input : string) : Num.jsnum :=
  let val := Num.of_string input in
  if Num.ltb val (Num.of_Z 1) then Num.of_Z 1
  else if Num.ltb (Num.of_Z 200) val then Num.of_Z 200
  else val.

(** [(v.priceRange?.max ?? 0)] as an operand of [-]. *)
Definition maxPrice (v : value) : outcome Num.jsnum :=
  let* range := member v "priceRange" in
  Ok (toNumber (coalesce (prop range "max") (VNum (Num.of_Z 0)))).

(** [(a, b) => (b.priceRange?.max ?? 0) - (a.priceRange?.max ?? 0)] *)
Definition byPrice (a b : value) : outcome Num.jsnum :=
  let* mb := maxPrice b in
  let* ma := maxPrice a in
  Ok (Num.sub mb ma).

(** What the page shows. *)
Record View : Type := {
  loading : bool;
  error : option string;
  events : list value;
}.

(** How the request of [search] settles: [fetch] or [r.json()] is
    aborted, [fetch] rejects (no network), the body is not JSON, or the
    route replies with JSON.  The messages are the engine's. *)
Inductive Settled : Type :=
| Aborted
| Rejected (message : string)
| Unreadable (message : string)
| Replied (ok : bool) (json : value).

(** [e?.message || "Search failed"] *)
Definition shown (message : string) : string :=
  if nonEmpty message then message else "Search failed".

(** The message of [new Error(msg)] for a reply that is not ok:
    [json?.details?.fault?.faultstring || json?.error || "Search failed"]. *)
Definition failureMessage (json : value) : string :=
  let faultstring := prop (prop (prop json "details") "fault") "faultstring" in
  toString (if truthy faultstring then faultstring
            else if truthy (prop json "error") then prop json "error"
            else VStr "Search failed").

(** [(json.results || [])], sorted in place. *)
Definition sortedResults (json : value) : outcome (list value) :=
  let* results := member json "results" in
  match (if truthy results then results else VArr []) with
  | VArr l => sort byPrice l
  | _ => Throw TypeError
  end.

(** The view when [search] has settled; [typeError] is the message of
    the engine's TypeError. *)
Definition search (typeError : string) (v : View) (s : Settled) : View :=
  match s with
  | Aborted => {| loading := false; error := None; events := events v |}
  | Rejected m | Unreadable m =>
      {| loading := false; error := Some (shown m); events := events v |}
  | Replied false json =>
      {| loading := false; error := Some (shown (failureMessage json)); events := events v |}
  | Replied true json =>
      match sortedResults json with
      | Ok sorted => {| loading := false; error := None; events := sorted |}
      | Throw _ => {| loading := false; error := Some (shown typeError); events := events v |}
      end
  end.

(** SameValueZero, the equality of [Set]: two objects or two arrays of a
    parsed payload are never the same. *)
Definition sameValueZero (a b : value) : bool :=
  match a, b with
  | VUndefined, VUndefined | VNull, VNull => true
  | VBool x, VBool y => Bool.eqb x y
  | VNum x, VNum y =>
      (Num.isNaN x && Num.isNaN y)
      || (negb (Num.isNaN x) && negb (Num.isNaN y)
          && negb (Num.ltb x y) && negb (Num.ltb y x))
  | VStr x, VStr y => String.eqb x y
  | _, _ => false
  end.

(** [Array.from(new Set(l))]: the first of each value, in order. *)
Fixpoint distinct (seen l : list value) : list value :=
  match l with
  | [] => []
  | x :: r =>
      if existsb (sameValueZero x) seen then distinct seen r
      else x :: distinct (x :: seen) r
  end.

(** The category badges of a card:
    [Array.from(new Set(ev.categories ?? [])).filter(Boolean).slice(0, 2)]. *)
Definition badges (categories : list value) : list value :=
  firstn 2 (List.filter truthy (distinct [] categories)).

End EventsPage.




(* ================================================================== *)
(** ** The home page (the client of the movie route) *)

Module HomePage.

(** The query string of the URL [onSearch] fetches:
    [`api/tmdb/search?q=${encodeURIComponent(q)}`]. *)
Definition queryString (q : string) : string :=
  Str.text (Str.chars "q=" ++ TMDB.encodeURIComponent q).

End HomePage.

(* ================================================================== *)
(** ** The events route before the date window: its choice of image *)

Module Earlier.

(** [Math.abs] *)
Definition abs (x : Num.jsnum) : Num.jsnum :=
  match x with
  | Num.NaN => Num.NaN
  | Num.PosInf | Num.NegInf => Num.PosInf
  | Num.Fin m e => Num.Fin (Z.abs m) e
  end.

(** [Math.abs((v.width ?? target) - target)] *)
Definition distanceOf (target : Num.jsnum) (v : value) : outcome Num.jsnum :=
  let* w := member v "width" in
  Ok (abs (Num.sub (toNumber (coalesce w (VNum target))) target)).

(** An image around a target width. *)
Definition pickImage (images : value) (target : Num.jsnum) : outcome value :=
  match images with
  | VArr [] => Ok VUndefined
  | VArr items =>
      let* sorted :=
        sort (fun a b => let* da := distanceOf target a in
                         let* db := distanceOf target b in
                         Ok (Num.sub da db)) items in
      Ok (prop (index0 (VArr sorted)) "url")
  | _ => Ok VUndefined
  end.

(** The target of the route's call [pickImage(ev.images)]. *)
Definition target : Num.jsnum := Num.of_Z 400.

End Earlier.



(** A number in the form [Number] gives it: zero is [Fin 0 0]; otherwise
    the mantissa does not end in the digit 0, and the magnitude lies in
    the range of binary64. *)
Definition canonical (x : Num.jsnum) : Prop :=
  match x with
  | Num.Fin m e =>
      (m = 0 /\ e = 0)
      \/ (m mod 10 <> 0
          /\ -323 <= Z.of_nat (length (Str.of_Z (Z.abs m))) + e <= 309)
  | _ => True
  end.

(** No zero at the end. *)
Definition endsNonzero (l : list ascii) : Prop :=
  match rev l with c :: _ => Ascii.eqb "0" c = false | [] => True end.


(* ================================================================== *)
(** ** The runtime model on small inputs *)

Example num_of_string_ex :
  map Num.of_string [" 12 "; "43.650"; "-79.38"; "abc"; ""; "1e3"; "0x1F"; ".5"; "5."; "1e"]%string
  = [Num.Fin 12 0; Num.Fin 4365 (-2); Num.Fin (-7938) (-2); Num.NaN; Num.Fin 0 0;
     Num.Fin 1 3; Num.Fin 31 0; Num.Fin 5 (-1); Num.Fin 5 0; Num.NaN].
Proof. reflexivity. Qed.

Example num_to_string_ex :
  map Num.to_string [Num.Fin 25 0; Num.Fin 4365 (-2); Num.Fin (-7938) (-2); Num.Fin 1 3;
                     Num.Fin 5 (-1); Num.Fin 1 21; Num.Fin 12 (-8); Num.Fin 0 0; Num.Fin 100 0]
  = ["25"; "43.65"; "-79.38"; "1000"; "0.5"; "1e+21"; "1.2e-7"; "0"; "100"]%string.
Proof. reflexivity. Qed.

Example iso_ex1 : Str.text (Date.toISOChars 1748736000000) = "2025-06-01T00:00:00.000Z"%string.
Proof. reflexivity. Qed.

Example iso_ex2 : Str.text (Date.toISOChars (-1)) = "1969-12-31T23:59:59.999Z"%string.
Proof. reflexivity. Qed.

Example iso_ex3 : Str.text (Date.toISOChars Date.maxTime) = "+275760-09-13T00:00:00.000Z"%string.
Proof. reflexivity. Qed.

Example iso_ex4 : Str.text (Date.toISOChars (- Date.maxTime)) = "-271821-04-20T00:00:00.000Z"%string.
Proof. reflexivity. Qed.

Example iso_ex5 : Date.isoParse (Str.chars "2024-02-29T23:59:59Z") = Some 1709251199000.
Proof. reflexivity. Qed.

Example iso_ex6 : Date.isoParse (Str.chars "2025-02-29") = None.
Proof. reflexivity. Qed.

Example iso_ex7 : Date.isoParse (Str.chars "2025-07-04") = Some 1751587200000.
Proof. reflexivity. Qed.

(* ================================================================== *)
(** * Lemmas *)

Lemma DayFromYear_step y : Date.DayFromYear (y + 1) = Date.DayFromYear y + Date.DaysInYear y.
Proof.
  unfold Date.DayFromYear, Date.DaysInYear.
  destruct (Z.eqb_spec (y mod 4) 0); cbn [negb];
  [destruct (Z.eqb_spec (y mod 100) 0); cbn [negb];
   [destruct (Z.eqb_spec (y mod 400) 0); cbn [negb]|]|];
  Z.div_mod_to_equations; lia.
Qed.

Lemma YearFromDay_spec d :
  Date.DayFromYear (Date.YearFromDay d) <= d < Date.DayFromYear (Date.YearFromDay d + 1).
Proof.
  unfold Date.YearFromDay.
  set (y0 := 1970 + 400 * d / 146097).
  destruct (Z.leb_spec (Date.DayFromYear (y0 + 1)) d) as [H1|H1];
  [|destruct (Z.ltb_spec d (Date.DayFromYear y0)) as [H2|H2]].
  - split; [lia|]. unfold Date.DayFromYear in *. subst y0. Z.div_mod_to_equations. lia.
  - split; [|replace (y0 - 1 + 1) with y0 by lia; lia].
    unfold Date.DayFromYear in *. subst y0. Z.div_mod_to_equations. lia.
  - lia.
Qed.

(** ** Strings and digits *)

Lemma chars_text l : Str.chars (Str.text l) = l.
Proof. apply list_ascii_of_string_of_list_ascii. Qed.

Lemma text_chars s : Str.text (Str.chars s) = s.
Proof. apply string_of_list_ascii_of_string. Qed.

Lemma digit_char_is_digit d : Str.is_digit (Str.digit_char d) = true.
Proof.
  unfold Str.digit_char.
  repeat match goal with |- context [match ?x with _ => _ end] => destruct x end; reflexivity.
Qed.

Lemma digit_val_char d : 0 <= d < 10 -> Str.digit_val (Str.digit_char d) = d.
Proof.
  intros H.
  assert (d = 0 \/ d = 1 \/ d = 2 \/ d = 3 \/ d = 4 \/ d = 5 \/ d = 6 \/ d = 7 \/ d = 8 \/ d = 9)
    as Hd by lia.
  repeat (destruct Hd as [-> | Hd]; [reflexivity|]). subst; reflexivity.
Qed.

Lemma pad_length w n : length (Str.pad w n) = w.
Proof.
  revert n; induction w as [|w IH]; intros n; cbn [Str.pad]; [reflexivity|].
  rewrite length_app, IH. cbn. lia.
Qed.

Lemma pad_digits w n : forallb Str.is_digit (Str.pad w n) = true.
Proof.
  revert n; induction w as [|w IH]; intros n; cbn [Str.pad]; [reflexivity|].
  rewrite forallb_app, IH. cbn. now rewrite digit_char_is_digit.
Qed.

Lemma pad_value w n acc :
  0 <= n < 10 ^ Z.of_nat w ->
  fold_left (fun a c => 10 * a + Str.digit_val c) (Str.pad w n) acc
  = acc * 10 ^ Z.of_nat w + n.
Proof.
  revert n acc; induction w as [|w IH]; intros n acc H.
  - cbn in *. lia.
  - cbn [Str.pad]. rewrite fold_left_app. cbn [fold_left].
    rewrite Nat2Z.inj_succ, Z.pow_succ_r in * by lia.
    rewrite IH by (split; [apply Z.div_pos; lia | apply Z.div_lt_upper_bound; lia]).
    rewrite digit_val_char by (apply Z.mod_pos_bound; lia).
    pose proof (Z.div_mod n 10). lia.
Qed.

Lemma take_digits_app l acc rest :
  forallb Str.is_digit l = true ->
  Str.take_digits (length l) acc (l ++ rest)
  = Some (fold_left (fun a c => 10 * a + Str.digit_val c) l acc, rest).
Proof.
  revert acc; induction l as [|c l IH]; intros acc H; cbn in *; [reflexivity|].
  apply andb_prop in H as [Hc Hl]. rewrite Hc. now apply IH.
Qed.

Lemma take_digits_pad w n rest :
  0 <= n < 10 ^ Z.of_nat w ->
  Str.take_digits w 0 (Str.pad w n ++ rest) = Some (n, rest).
Proof.
  intros H. rewrite <- (pad_length w n) at 1.
  rewrite take_digits_app by apply pad_digits.
  rewrite pad_value by assumption. repeat f_equal; lia.
Qed.

(** ** The calendar *)

Lemma leapDays_range y : 0 <= Date.leapDays y <= 1.
Proof.
  unfold Date.leapDays, Date.DaysInYear.
  repeat match goal with |- context [if ?b then _ else _] => destruct b end; lia.
Qed.

Lemma DayWithinYear_range t :
  0 <= Date.DayWithinYear t < 365 + Date.InLeapYear t.
Proof.
  unfold Date.DayWithinYear, Date.InLeapYear, Date.leapDays, Date.YearFromTime.
  pose proof (YearFromDay_spec (Date.Day t)) as H.
  rewrite DayFromYear_step in H. lia.
Qed.

Lemma monthOfDay_range leap d :
  0 <= leap <= 1 -> 0 <= d < 365 + leap ->
  0 <= Date.monthOfDay leap d <= 11
  /\ Date.monthStart leap (Date.monthOfDay leap d) <= d
  /\ d < Date.monthStart leap (Date.monthOfDay leap d + 1).
Proof.
  intros Hl Hd. unfold Date.monthOfDay.
  repeat match goal with
         | |- context [if ?a <? ?b then _ else _] => destruct (Z.ltb_spec a b)
         end; simpl; lia.
Qed.

Lemma MonthFromTime_range t : 0 <= Date.MonthFromTime t <= 11.
Proof.
  apply monthOfDay_range; [apply leapDays_range | apply DayWithinYear_range].
Qed.

Lemma DateFromTime_range t :
  1 <= Date.DateFromTime t
       <= Date.DaysInMonth (Date.YearFromTime t) (Date.MonthFromTime t).
Proof.
  unfold Date.DateFromTime, Date.DaysInMonth.
  pose proof (monthOfDay_range (Date.InLeapYear t) (Date.DayWithinYear t)
                (leapDays_range _) (DayWithinYear_range t)) as (_ & H1 & H2).
  fold (Date.MonthFromTime t) in H1, H2. fold (Date.InLeapYear t). lia.
Qed.

Lemma MakeDay_inverse t :
  Date.MakeDay (Date.YearFromTime t) (Date.MonthFromTime t) (Date.DateFromTime t)
  = Date.Day t.
Proof.
  pose proof (MonthFromTime_range t) as Hm.
  unfold Date.MakeDay.
  rewrite Z.div_small, Z.mod_small, Z.add_0_r by lia.
  fold (Date.InLeapYear t). unfold Date.DateFromTime, Date.DayWithinYear. lia.
Qed.

Lemma MakeDate_inverse t :
  Date.MakeDate (Date.Day t)
    (Date.MakeTime (Date.HourFromTime t) (Date.MinFromTime t) (Date.SecFromTime t) 0)
  = t - t mod 1000.
Proof.
  unfold Date.MakeDate, Date.MakeTime, Date.Day, Date.HourFromTime, Date.MinFromTime,
    Date.SecFromTime, Date.msPerDay, Date.msPerHour, Date.msPerMinute, Date.msPerSecond.
  Z.div_mod_to_equations. lia.
Qed.

Lemma clock_ranges t :
  0 <= Date.HourFromTime t <= 23 /\ 0 <= Date.MinFromTime t <= 59
  /\ 0 <= Date.SecFromTime t <= 59 /\ 0 <= Date.msFromTime t <= 999.
Proof.
  unfold Date.HourFromTime, Date.MinFromTime, Date.SecFromTime, Date.msFromTime,
    Date.msPerSecond.
  repeat split; Z.div_mod_to_equations; lia.
Qed.

Lemma YearFromTime_range t :
  Z.abs t <= Date.maxTime -> -271821 <= Date.YearFromTime t <= 275760.
Proof.
  intros Ht. unfold Date.YearFromTime.
  pose proof (YearFromDay_spec (Date.Day t)) as H.
  assert (-100000000 <= Date.Day t <= 100000000) as Hd.
  { unfold Date.Day, Date.msPerDay, Date.maxTime in *. Z.div_mod_to_equations. lia. }
  unfold Date.DayFromYear in H. Z.div_mod_to_equations. lia.
Qed.

(** ** [toISOString] read back *)

Lemma isoYearOf_digits c r :
  Str.is_digit c = true ->
  Date.isoYearOf (c :: r) = Str.take_digits 4 0 (c :: r).
Proof.
  destruct c as [[] [] [] [] [] [] [] []]; intros H; try discriminate H; reflexivity.
Qed.

Lemma isoYearOf_isoYear y rest :
  -999999 <= y <= 999999 ->
  Date.isoYearOf (Date.isoYear y ++ rest) = Some (y, rest).
Proof.
  intros Hy. unfold Date.isoYear.
  destruct (Z.leb_spec 0 y) as [H0|H0]; [destruct (Z.leb_spec y 9999) as [H1|H1]|];
    cbn [andb].
  - pose proof (pad_digits 4 y) as Hd. pose proof (pad_length 4 y) as Hl.
    destruct (Str.pad 4 y) as [|c l] eqn:E; [discriminate Hl|].
    cbn [app]. rewrite isoYearOf_digits by (cbn in Hd; now apply andb_prop in Hd).
    change (c :: l ++ rest) with ((c :: l) ++ rest). rewrite <- E.
    apply take_digits_pad. change (10 ^ Z.of_nat 4) with 10000. lia.
  - destruct (Z.ltb_spec y 0); [lia|]. cbn [app Date.isoYearOf].
    rewrite Z.abs_eq by lia. apply take_digits_pad.
    change (10 ^ Z.of_nat 6) with 1000000. lia.
  - destruct (Z.ltb_spec y 0); [|lia]. cbn [app Date.isoYearOf].
    rewrite take_digits_pad by (change (10 ^ Z.of_nat 6) with 1000000; lia).
    destruct (Z.eqb_spec (Z.abs y) 0); [lia|]. repeat f_equal; lia.
Qed.

Lemma isoDateOf_isoDate t rest :
  Z.abs t <= Date.maxTime ->
  Date.isoDateOf (Date.isoDate t ++ rest) = Some (Date.Day t, rest).
Proof.
  intros Ht. unfold Date.isoDateOf, Date.isoDate.
  pose proof (YearFromTime_range t Ht) as Hy.
  pose proof (MonthFromTime_range t) as Hm.
  pose proof (DateFromTime_range t) as Hd.
  assert (Date.DaysInMonth (Date.YearFromTime t) (Date.MonthFromTime t) <= 31) as Hd'.
  { unfold Date.DaysInMonth. pose proof (leapDays_range (Date.YearFromTime t)).
    assert (Date.MonthFromTime t = 0 \/ Date.MonthFromTime t = 1 \/ Date.MonthFromTime t = 2
            \/ Date.MonthFromTime t = 3 \/ Date.MonthFromTime t = 4 \/ Date.MonthFromTime t = 5
            \/ Date.MonthFromTime t = 6 \/ Date.MonthFromTime t = 7 \/ Date.MonthFromTime t = 8
            \/ Date.MonthFromTime t = 9 \/ Date.MonthFromTime t = 10 \/ Date.MonthFromTime t = 11)
      as Hc by lia.
    repeat (destruct Hc as [-> | Hc]; [simpl; lia|]). rewrite Hc. simpl; lia. }
  rewrite <- app_assoc, isoYearOf_isoYear by lia. cbn [app].
  rewrite <- app_assoc, take_digits_pad by (change (10 ^ Z.of_nat 2) with 100; lia).
  cbn [app].
  rewrite take_digits_pad by (change (10 ^ Z.of_nat 2) with 100; lia).
  replace (Date.MonthFromTime t + 1 - 1) with (Date.MonthFromTime t) by lia.
  destruct (Z.leb_spec 1 (Date.MonthFromTime t + 1)); [|lia].
  destruct (Z.leb_spec (Date.MonthFromTime t + 1) 12); [|lia].
  destruct (Z.leb_spec 1 (Date.DateFromTime t)); [|lia].
  destruct (Z.leb_spec (Date.DateFromTime t)
              (Date.DaysInMonth (Date.YearFromTime t) (Date.MonthFromTime t))); [|lia].
  cbn [andb]. now rewrite MakeDay_inverse.
Qed.

Lemma isoClockOf_isoClock t :
  Date.isoClockOf (Date.isoClock t ++ ["Z"%char])
  = Some (Date.MakeTime (Date.HourFromTime t) (Date.MinFromTime t) (Date.SecFromTime t) 0,
          ["Z"%char]).
Proof.
  pose proof (clock_ranges t) as (Hh & Hm & Hs & _).
  unfold Date.isoClockOf, Date.isoClock.
  rewrite <- app_assoc, take_digits_pad by (change (10 ^ Z.of_nat 2) with 100; lia).
  cbn [app]. rewrite <- app_assoc.
  rewrite take_digits_pad by (change (10 ^ Z.of_nat 2) with 100; lia).
  cbn [app]. rewrite take_digits_pad by (change (10 ^ Z.of_nat 2) with 100; lia).
  destruct (Z.leb_spec (Date.HourFromTime t) 23); [|lia].
  destruct (Z.leb_spec (Date.MinFromTime t) 59); [|lia].
  destruct (Z.leb_spec (Date.SecFromTime t) 59); [|lia].
  reflexivity.
Qed.



Lemma dropMs_toISOChars t : dropMs (Date.toISOChars t) = isoNoMs t.
Proof.
  unfold dropMs, Date.toISOChars, isoNoMs.
  pose proof (pad_digits 3 (Date.msFromTime t)) as Hd.
  pose proof (pad_length 3 (Date.msFromTime t)) as Hl.
  destruct (Str.pad 3 (Date.msFromTime t)) as [|d1 [|d2 [|d3 [|]]]]; try discriminate Hl.
  cbn in Hd.
  replace (Date.isoDate t ++ "T"%char :: Date.isoClock t ++ "."%char :: [d1; d2; d3] ++ ["Z"%char])
    with ((Date.isoDate t ++ "T"%char :: Date.isoClock t) ++ ["."; d1; d2; d3; "Z"]%char)
    by (rewrite <- app_assoc; reflexivity).
  rewrite rev_app_distr. cbn [rev app].
  destruct (Str.is_digit d1), (Str.is_digit d2), (Str.is_digit d3); try discriminate Hd.
  cbn [andb rev]. rewrite rev_involutive, <- app_assoc. reflexivity.
Qed.

Lemma isoParse_isoNoMs t :
  Z.abs t <= Date.maxTime ->
  Date.isoParse (isoNoMs t) = Some (t - t mod 1000).
Proof.
  intros Ht. unfold Date.isoParse, isoNoMs.
  rewrite isoDateOf_isoDate by assumption.
  rewrite isoClockOf_isoClock, MakeDate_inverse.
  unfold Date.TimeClip.
  destruct (Z.leb_spec (Z.abs (t - t mod 1000)) Date.maxTime) as [|H]; [reflexivity|].
  exfalso. unfold Date.maxTime in *. Z.div_mod_to_equations. lia.
Qed.

Lemma toIsoNoMs_Ok d s :
  toIsoNoMs d = Ok s ->
  exists t, d = Some t /\ s = Str.text (isoNoMs t).
Proof.
  destruct d as [t|]; [|discriminate]. cbn. rewrite dropMs_toISOChars.
  intros [= <-]. eauto.
Qed.

Lemma TimeClip_Some t t' : Date.TimeClip t = Some t' -> t' = t /\ Z.abs t <= Date.maxTime.
Proof.
  unfold Date.TimeClip. destruct (Z.leb_spec (Z.abs t) Date.maxTime); [|discriminate].
  intros [= <-]. auto.
Qed.

(** Reading back what [toIsoNoMs] wrote gives the date, to the second. *)
Lemma Date_parse_isoNoMs h t :
  Z.abs t <= Date.maxTime ->
  Date_parse h (Str.text (isoNoMs t)) = Some (t - t mod 1000).
Proof.
  intros Ht. unfold Date_parse. rewrite chars_text, isoParse_isoNoMs by assumption.
  reflexivity.
Qed.

(** ** Splitting at a character *)

Lemma split_chars_nonempty sep l : Str.split_chars sep l <> [].
Proof.
  destruct l as [|c l]; cbn; [discriminate|].
  destruct (Ascii.eqb c sep); [discriminate|].
  destruct (Str.split_chars sep l); discriminate.
Qed.

Lemma split_chars_app sep l1 l2 :
  Str.split_chars sep (l1 ++ sep :: l2) = Str.split_chars sep l1 ++ Str.split_chars sep l2.
Proof.
  induction l1 as [|c l1 IH]; cbn.
  - now rewrite Ascii.eqb_refl.
  - destruct (Ascii.eqb c sep); [now rewrite IH|].
    rewrite IH. pose proof (split_chars_nonempty sep l1).
    destruct (Str.split_chars sep l1); [contradiction|reflexivity].
Qed.



Lemma split_chars_free sep l : free sep l -> Str.split_chars sep l = [l].
Proof.
  unfold free. induction l as [|c l IH]; cbn; [reflexivity|].
  intros H. apply andb_prop in H as [Hc Hl].
  destruct (Ascii.eqb c sep); [discriminate|]. now rewrite IH.
Qed.

Lemma split_chars_segments sep pre segs :
  Forall (free sep) segs ->
  Str.split_chars sep (pre ++ flat_map (fun s => sep :: s) segs)
  = Str.split_chars sep pre ++ segs.
Proof.
  intros H. revert pre. induction H as [|s segs Hs _ IH]; intros pre; cbn [flat_map].
  - now rewrite !app_nil_r.
  - change ((sep :: s) ++ ?r) with (sep :: s ++ r).
    replace (pre ++ sep :: s ++ flat_map (fun s0 => sep :: s0) segs)
      with ((pre ++ sep :: s) ++ flat_map (fun s0 => sep :: s0) segs)
      by (rewrite <- app_assoc; reflexivity).
    rewrite IH, split_chars_app, (split_chars_free sep s Hs).
    rewrite <- app_assoc. reflexivity.
Qed.

Lemma free_app sep l1 l2 : free sep l1 -> free sep l2 -> free sep (l1 ++ l2).
Proof. unfold free. intros H1 H2. now rewrite forallb_app, H1, H2. Qed.

Lemma free_rev sep l : free sep l -> free sep (rev l).
Proof.
  unfold free. induction l as [|c l IH]; cbn; [reflexivity|].
  intros H. apply andb_prop in H as [Hc Hl].
  rewrite forallb_app, IH by assumption. cbn. now rewrite Hc.
Qed.

Lemma free_firstn sep n l : free sep l -> free sep (firstn n l).
Proof.
  unfold free. revert l; induction n as [|n IH]; intros [|c l]; cbn; try reflexivity.
  intros H. apply andb_prop in H as [Hc Hl]. now rewrite Hc, IH.
Qed.

Lemma free_skipn sep n l : free sep l -> free sep (skipn n l).
Proof.
  unfold free. revert l; induction n as [|n IH]; intros [|c l]; cbn; try reflexivity; auto.
  intros H. apply andb_prop in H as [Hc Hl]. now apply IH.
Qed.

Lemma free_repeat sep c n : Ascii.eqb c sep = false -> free sep (repeat c n).
Proof. unfold free. intros H. induction n; cbn; [reflexivity|]. now rewrite H. Qed.

Lemma free_span sep (p : ascii -> bool) l :
  free sep l -> free sep (fst (Str.span p l)) /\ free sep (snd (Str.span p l)).
Proof.
  unfold free. induction l as [|c l IH]; cbn; [auto|].
  intros H. pose proof H as H'. apply andb_prop in H as [Hc Hl].
  destruct (p c); [|cbn; auto].
  destruct (Str.span p l) as [a b]. cbn in *. rewrite Hc. destruct (IH Hl). auto.
Qed.

Lemma free_digits sep l :
  Str.is_digit sep = false -> forallb Str.is_digit l = true -> free sep l.
Proof.
  unfold free. intros Hs. induction l as [|c l IH]; cbn; [reflexivity|].
  intros H. apply andb_prop in H as [Hc Hl]. rewrite IH by assumption.
  destruct (Ascii.eqb_spec c sep); [congruence|reflexivity].
Qed.

(** ** The characters of a number *)

Lemma uint_digits u :
  forallb Str.is_digit (Str.chars (NilEmpty.string_of_uint u)) = true.
Proof. induction u; cbn; auto. Qed.

Lemma of_N_digits n : forallb Str.is_digit (Str.of_N n) = true.
Proof. destruct n; [reflexivity|apply uint_digits]. Qed.



Lemma of_Z_free z : free quote_char (Str.of_Z z).
Proof.
  destruct z; cbn [Str.of_Z].
  - reflexivity.
  - apply free_digits; [reflexivity|apply of_N_digits].
  - change ("-"%char :: ?l) with (["-"%char] ++ l).
    apply free_app; [reflexivity|]. apply free_digits; [reflexivity|apply of_N_digits].
Qed.

Lemma strip_zeros_free l :
  free quote_char l -> free quote_char (fst (Num.strip_zeros l)).
Proof.
  intros H. unfold Num.strip_zeros.
  pose proof (free_span quote_char (Ascii.eqb "0") (rev l) (free_rev _ _ H)) as [_ H2].
  destruct (Str.span (Ascii.eqb "0") (rev l)) as [a b]. cbn in *. now apply free_rev.
Qed.

Lemma to_chars_free x : free quote_char (Num.to_chars x).
Proof.
  destruct x as [| | |m e]; try reflexivity.
  unfold Num.to_chars. destruct (m =? 0); [reflexivity|].
  pose proof (strip_zeros_free _ (of_Z_free (Z.abs m))) as Hds.
  destruct (Num.strip_zeros (Str.of_Z (Z.abs m))) as [ds z]. cbn [fst] in Hds.
  apply free_app; [destruct (m <? 0); reflexivity|].
  repeat match goal with |- context [if ?b then _ else _] => destruct b end.
  - apply free_app; [assumption|now apply free_repeat].
  - apply free_app; [now apply free_firstn|].
    change ("."%char :: ?l) with (["."%char] ++ l).
    apply free_app; [reflexivity|now apply free_skipn].
  - change ("0"%char :: "."%char :: ?l) with (["0"; "."]%char ++ l).
    apply free_app; [reflexivity|]. apply free_app; [now apply free_repeat|assumption].
  - destruct ds as [|d [|d' rest]]; [reflexivity| |].
    + change (d :: "e"%char :: "+"%char :: ?l) with ([d] ++ ["e"; "+"]%char ++ l).
      apply free_app; [now apply (free_firstn _ 1 [d])|].
      apply free_app; [reflexivity|apply of_Z_free].
    + change (d :: "."%char :: (d' :: rest) ++ "e"%char :: "+"%char :: ?l)
        with ([d] ++ ["."%char] ++ (d' :: rest) ++ ["e"; "+"]%char ++ l).
      apply free_app; [now apply (free_firstn _ 1 (d :: d' :: rest))|].
      apply free_app; [reflexivity|].
      apply free_app; [now apply (free_skipn _ 1 (d :: d' :: rest))|].
      apply free_app; [reflexivity|apply of_Z_free].
  - destruct ds as [|d [|d' rest]]; [reflexivity| |].
    + change (d :: "e"%char :: "-"%char :: ?l) with ([d] ++ ["e"; "-"]%char ++ l).
      apply free_app; [now apply (free_firstn _ 1 [d])|].
      apply free_app; [reflexivity|apply of_Z_free].
    + change (d :: "."%char :: (d' :: rest) ++ "e"%char :: "-"%char :: ?l)
        with ([d] ++ ["."%char] ++ (d' :: rest) ++ ["e"; "-"]%char ++ l).
      apply free_app; [now apply (free_firstn _ 1 (d :: d' :: rest))|].
      apply free_app; [reflexivity|].
      apply free_app; [now apply (free_skipn _ 1 (d :: d' :: rest))|].
      apply free_app; [reflexivity|apply of_Z_free].
Qed.

Lemma jsonNumber_free x : free quote_char (jsonNumber x).
Proof. destruct x; try reflexivity. apply to_chars_free. Qed.

(** ** The cache key determines the window *)



Lemma escape_plain c : plain c = true -> escape c = [c].
Proof.
  destruct c as [[] [] [] [] [] [] [] []]; intros H; try discriminate H; reflexivity.
Qed.

Lemma plain_not_quote c : plain c = true -> Ascii.eqb c quote_char = false.
Proof.
  destruct c as [[] [] [] [] [] [] [] []]; intros H; try discriminate H; reflexivity.
Qed.

Lemma digit_plain c : Str.is_digit c = true -> plain c = true.
Proof.
  destruct c as [[] [] [] [] [] [] [] []]; intros H; try discriminate H; reflexivity.
Qed.

Lemma digits_plain l : forallb Str.is_digit l = true -> forallb plain l = true.
Proof.
  induction l as [|c l IH]; cbn; [reflexivity|].
  intros H. apply andb_prop in H as [Hc Hl]. now rewrite digit_plain, IH.
Qed.

Lemma plain_free l : forallb plain l = true -> free quote_char l.
Proof.
  unfold free. induction l as [|c l IH]; cbn; [reflexivity|].
  intros H. apply andb_prop in H as [Hc Hl]. now rewrite plain_not_quote, IH.
Qed.

Lemma quote_plain s :
  forallb plain (Str.chars s) = true ->
  quote s = quote_char :: Str.chars s ++ [quote_char].
Proof.
  intros H. unfold quote. f_equal. f_equal.
  induction (Str.chars s) as [|c l IH]; cbn in *; [reflexivity|].
  apply andb_prop in H as [Hc Hl]. now rewrite escape_plain, IH.
Qed.

Lemma isoNoMs_plain t : forallb plain (isoNoMs t) = true.
Proof.
  assert (forall w n, forallb plain (Str.pad w n) = true) as Hp
    by (intros; apply digits_plain, pad_digits).
  assert (forallb plain (Date.isoYear (Date.YearFromTime t)) = true) as Hy.
  { unfold Date.isoYear. destruct (_ && _); [apply Hp|].
    cbn [forallb]. rewrite Hp. now destruct (_ <? _). }
  unfold isoNoMs, Date.isoDate, Date.isoClock.
  repeat first [ rewrite forallb_app | cbn [forallb] ].
  now rewrite Hy, !Hp.
Qed.

Lemma joinWith_app sep (l1 l2 : list (list ascii)) :
  l1 <> [] -> l2 <> [] ->
  joinWith sep (l1 ++ l2) = joinWith sep l1 ++ sep :: joinWith sep l2.
Proof.
  intros H1 H2. induction l1 as [|x l1 IH]; [contradiction|].
  destruct l1 as [|y l1].
  - cbn. destruct l2; [contradiction|reflexivity].
  - cbn [app joinWith] in *. rewrite IH by discriminate.
    now rewrite <- app_assoc.
Qed.



Lemma cacheKeyOf_chars q lat lng radius s e page :
  forallb plain (Str.chars s) = true ->
  (forall e', e = Some e' -> forallb plain (Str.chars e') = true) ->
  exists pre,
    Str.chars (cacheKeyOf q lat lng radius s e page)
    = pre ++ flat_map (fun seg => quote_char :: seg) (keyTail s e page).
Proof.
  intros Hs He. unfold cacheKeyOf, jsonObject. rewrite chars_text.
  set (f := fun m : string * option (list ascii) =>
              match snd m with Some v => [quote (fst m) ++ ":"%char :: v] | None => [] end).
  change (flat_map f ?l) with
    (flat_map f ([("q"%string, option_map quote q); ("lat"%string, option_map jsonNumber lat);
                  ("lng"%string, option_map jsonNumber lng);
                  ("radius"%string, Some (jsonNumber radius))]
                 ++ [("startISO"%string, Some (quote s)); ("endISO"%string, option_map quote e);
                     ("page"%string, Some (jsonNumber page))])).
  rewrite flat_map_app, joinWith_app.
  - eexists ("{"%char :: joinWith "," _ ++ [","%char]).
    cbn [app]. f_equal. rewrite <- !app_assoc. f_equal. cbn [app]. f_equal.
    rewrite (quote_plain s Hs).
    destruct e as [e'|]; cbn -[quote jsonNumber].
    + rewrite (quote_plain e' (He e' eq_refl)).
      unfold quote_char. cbn. rewrite <- !app_assoc. cbn.
      repeat (f_equal; try (rewrite <- !app_assoc; cbn)).
    + unfold quote_char. cbn. rewrite <- !app_assoc. cbn.
      repeat (f_equal; try (rewrite <- !app_assoc; cbn)).
  - subst f. destruct q, lat, lng; discriminate.
  - subst f. destruct e; discriminate.
Qed.

Lemma keyTail_free s e page :
  forallb plain (Str.chars s) = true ->
  (forall e', e = Some e' -> forallb plain (Str.chars e') = true) ->
  Forall (free quote_char) (keyTail s e page).
Proof.
  intros Hs He.
  assert (free quote_char (":"%char :: jsonNumber page ++ ["}"%char])) as Hp.
  { change (":"%char :: ?l) with ([":"%char] ++ l).
    repeat apply free_app; try reflexivity. apply jsonNumber_free. }
  unfold keyTail. destruct e as [e'|]; cbn [app];
    repeat match goal with |- Forall _ _ => constructor end;
    try reflexivity; try assumption; apply plain_free; auto.
Qed.

(** Two keys are equal only for the same window. *)
Lemma cacheKeyOf_window q lat lng radius s e page q' lat' lng' radius' s' e' page' :
  forallb plain (Str.chars s) = true ->
  (forall x, e = Some x -> forallb plain (Str.chars x) = true) ->
  forallb plain (Str.chars s') = true ->
  (forall x, e' = Some x -> forallb plain (Str.chars x) = true) ->
  cacheKeyOf q lat lng radius s e page = cacheKeyOf q' lat' lng' radius' s' e' page' ->
  s = s' /\ e = e'.
Proof.
  intros Hs He Hs' He' Hk.
  destruct (cacheKeyOf_chars q lat lng radius s e page Hs He) as [pre E].
  destruct (cacheKeyOf_chars q' lat' lng' radius' s' e' page' Hs' He') as [pre' E'].
  rewrite Hk, E' in E.
  apply (f_equal (fun l => rev (Str.split_chars quote_char l))) in E.
  rewrite !split_chars_segments, !rev_app_distr in E by now apply keyTail_free.
  assert (forall a b : string, Str.chars a = Str.chars b -> a = b) as inj.
  { intros a b H. rewrite <- (text_chars a), <- (text_chars b). now f_equal. }
  unfold keyTail in E.
  destruct e as [x|], e' as [x'|]; cbn [app rev] in E; inversion E;
    repeat match goal with H : Str.chars _ = Str.chars _ |- _ => apply inj in H end;
    subst; auto.
Qed.

(** ** The date window *)



Lemma isoText_parse h s t : isoText s t -> Date_parse h s = Some t.
Proof. intros (t0 & H & -> & ->). now apply Date_parse_isoNoMs. Qed.

Lemma isoText_range s t : isoText s t -> Z.abs t <= Date.maxTime /\ t mod 1000 = 0.
Proof.
  intros (t0 & H & _ & ->). unfold Date.maxTime in *. Z.div_mod_to_equations. lia.
Qed.

Lemma isoText_plain s t : isoText s t -> forallb plain (Str.chars s) = true.
Proof. intros (t0 & _ & -> & _). rewrite chars_text. apply isoNoMs_plain. Qed.

Lemma isoText_given s t : isoText s t -> given (Some s) = Some s.
Proof.
  intros (t0 & _ & -> & _). unfold given, isoNoMs, Date.isoDate, Date.isoYear.
  destruct (_ && _).
  - pose proof (pad_length 4 (Date.YearFromTime t0)) as Hl.
    destruct (Str.pad 4 (Date.YearFromTime t0)); [discriminate Hl|reflexivity].
  - reflexivity.
Qed.

Lemma isoText_whole t :
  Z.abs t <= Date.maxTime -> t mod 1000 = 0 -> isoText (Str.text (isoNoMs t)) t.
Proof. intros H1 H2. exists t. repeat split; [assumption|lia]. Qed.

Lemma toIsoNoMs_clipped d s :
  (forall t, d = Some t -> Z.abs t <= Date.maxTime) ->
  toIsoNoMs d = Ok s -> exists t, isoText s t.
Proof.
  intros Hd H. apply toIsoNoMs_Ok in H as (t0 & -> & ->).
  exists (t0 - t0 mod 1000), t0. auto.
Qed.

Lemma Date_local_range h y m d hh mi ss ms t :
  Date_local h y m d hh mi ss ms = Some t -> Z.abs t <= Date.maxTime.
Proof.
  unfold Date_local. destruct (Num.trunc y), (Num.trunc m), (Num.trunc d); try discriminate.
  intros H. apply TimeClip_Some in H as [-> H]. exact H.
Qed.

Lemma startIsoFromYMD_Ok h env f s :
  startIsoFromYMD h env f = Ok s -> exists t, isoText s t.
Proof.
  unfold startIsoFromYMD. destruct (given f); apply toIsoNoMs_clipped; intros t Ht.
  - unfold ymdToLocalStart, ymdToLocal in Ht. now apply Date_local_range in Ht.
  - now apply TimeClip_Some in Ht as [-> Ht].
Qed.

Lemma endIsoFromYMD_Ok h f e :
  endIsoFromYMD h f = Ok (Some e) -> exists t, isoText e t.
Proof.
  unfold endIsoFromYMD. destruct (given f); [|discriminate].
  destruct (toIsoNoMs _) as [e0|] eqn:E; [|discriminate]. cbn. intros [= <-].
  revert E. apply toIsoNoMs_clipped. intros t Ht.
  unfold ymdToLocalEnd, ymdToLocal in Ht. now apply Date_local_range in Ht.
Qed.

(** What [orderWindow] does to two valid bounds. *)
Lemma orderWindow_spec h s0 e0 a b :
  isoText s0 a -> isoText e0 b ->
  orderWindow h s0 (Some e0) = (if b <? a then (e0, Some s0) else (s0, Some e0)).
Proof.
  intros Hs He. unfold orderWindow.
  rewrite (isoText_given _ _ He), (isoText_parse h _ _ Hs), (isoText_parse h _ _ He).
  reflexivity.
Qed.

(** What [capWindow] does to two valid, ordered bounds. *)
Lemma capWindow_spec h s e ts te :
  isoText s ts -> isoText e te ->
  exists e', capWindow h s (Some e) = Ok (s, Some e')
             /\ isoText e' (Z.min te (ts + MAX_WINDOW_MS))
             /\ (te - ts <= MAX_WINDOW_MS -> e' = e).
Proof.
  intros Hs He. unfold capWindow.
  rewrite (isoText_given _ _ He), (isoText_parse h _ _ Hs), (isoText_parse h _ _ He).
  pose proof (isoText_range _ _ Hs) as [Hs1 Hs2].
  pose proof (isoText_range _ _ He) as [He1 He2].
  destruct (Z.ltb_spec MAX_WINDOW_MS (te - ts)) as [H|H].
  - assert (Z.abs (ts + MAX_WINDOW_MS) <= Date.maxTime) as Hr
        by (unfold MAX_WINDOW_MS, Date.maxTime in *; lia).
    unfold Date.TimeClip. destruct (Z.leb_spec (Z.abs (ts + MAX_WINDOW_MS)) Date.maxTime); [|lia].
    cbn. rewrite dropMs_toISOChars. eexists. split; [reflexivity|]. split; [|lia].
    rewrite Z.min_r by lia. apply isoText_whole; [assumption|].
    unfold MAX_WINDOW_MS. Z.div_mod_to_equations. lia.
  - exists e. split; [reflexivity|]. split; [|reflexivity]. now rewrite Z.min_l by lia.
Qed.

(** The resolved window, from the two raw bounds. *)
Lemma resolveWindow_spec h env f t s e :
  resolveWindow h env f t = Ok (s, e) ->
  exists s0 e0 a,
    startIsoFromYMD h env f = Ok s0 /\ endIsoFromYMD h t = Ok e0 /\ isoText s0 a
    /\ match e0 with
       | None => s = s0 /\ e = None
       | Some e0' =>
           exists b e',
             isoText e0' b /\ e = Some e'
             /\ s = (if b <? a then e0' else s0)
             /\ isoText s (Z.min a b)
             /\ isoText e' (Z.min (Z.max a b) (Z.min a b + MAX_WINDOW_MS))
       end.
Proof.
  unfold resolveWindow.
  destruct (startIsoFromYMD h env f) as [s0|] eqn:Es; [|discriminate].
  destruct (endIsoFromYMD h t) as [e0|] eqn:Ee; [|discriminate].
  cbn [obind]. destruct (startIsoFromYMD_Ok _ _ _ _ Es) as [a Ha].
  destruct e0 as [e0'|].
  - destruct (endIsoFromYMD_Ok _ _ _ Ee) as [b Hb].
    rewrite (orderWindow_spec h s0 e0' a b Ha Hb).
    destruct (Z.ltb_spec b a) as [Hlt|Hge].
    + destruct (capWindow_spec h e0' s0 b a Hb Ha) as (e' & -> & He' & _).
      intros [= <- <-]. exists s0, (Some e0'), a. repeat (split; [reflexivity || assumption|]).
      exists b, e'. rewrite Z.min_r, Z.max_l by lia.
      destruct (Z.ltb_spec b a); [auto|lia].
    + destruct (capWindow_spec h s0 e0' a b Ha Hb) as (e' & -> & He' & _).
      intros [= <- <-]. exists s0, (Some e0'), a. repeat (split; [reflexivity || assumption|]).
      exists b, e'. rewrite Z.min_l, Z.max_r by lia.
      destruct (Z.ltb_spec b a); [lia|auto].
  - unfold orderWindow, capWindow. cbn. intros [= <- <-].
    exists s0, None, a. auto.
Qed.

(** Both bounds of a resolved window are texts of valid dates. *)
Lemma resolveWindow_isoText h env f t s e :
  resolveWindow h env f t = Ok (s, e) ->
  (exists ts, isoText s ts) /\ (forall e', e = Some e' -> exists te, isoText e' te).
Proof.
  intros H. apply resolveWindow_spec in H as (s0 & e0 & a & _ & _ & Ha & H).
  destruct e0 as [e0'|].
  - destruct H as (b & e' & _ & -> & _ & Hs & He). split; [eauto|].
    intros ? [= <-]. eauto.
  - destruct H as [-> ->]. split; [eauto|discriminate].
Qed.

(** ** Calendar-date strings *)

Lemma digit_char_val c :
  Str.is_digit c = true -> Str.digit_char (Str.digit_val c) = c /\ 0 <= Str.digit_val c < 10.
Proof.
  destruct c as [[] [] [] [] [] [] [] []]; intros H; try discriminate H;
    (split; [reflexivity|cbv; split; congruence]).
Qed.

Lemma digits_pad l :
  forallb Str.is_digit l = true ->
  l = Str.pad (length l) (Str.digits_val l) /\ 0 <= Str.digits_val l < 10 ^ Z.of_nat (length l).
Proof.
  unfold Str.digits_val. induction l as [|c l IH] using rev_ind; intros H.
  - cbn. split; [reflexivity|lia].
  - rewrite forallb_app in H. apply andb_prop in H as [Hl Hc]. cbn in Hc.
    apply andb_prop in Hc as [Hc _]. destruct (IH Hl) as [E R].
    destruct (digit_char_val c Hc) as [Ec Rc].
    rewrite fold_left_app, length_app. cbn [fold_left length].
    replace (length l + 1)%nat with (S (length l)) by lia.
    set (v := fold_left (fun acc c0 => 10 * acc + Str.digit_val c0) l 0) in *.
    cbn [Str.pad]. rewrite Nat2Z.inj_succ, Z.pow_succ_r by lia.
    replace ((10 * v + Str.digit_val c) / 10) with v by (Z.div_mod_to_equations; lia).
    replace ((10 * v + Str.digit_val c) mod 10) with (Str.digit_val c)
      by (Z.div_mod_to_equations; lia).
    rewrite Ec, <- E. split; [reflexivity|lia].
Qed.

Lemma isDateOnly_inv l :
  isDateOnly l = true ->
  exists y m d,
    l = Str.pad 4 y ++ "-"%char :: Str.pad 2 m ++ "-"%char :: Str.pad 2 d
    /\ 0 <= y < 10000 /\ 0 <= m < 100 /\ 0 <= d < 100.
Proof.
  unfold isDateOnly.
  do 5 (destruct l as [|? l]; try discriminate).
  match goal with
  | |- context [match ?x with Ascii _ _ _ _ _ _ _ _ => _ end] =>
      destruct x as [[] [] [] [] [] [] [] []]; try discriminate
  end.
  do 3 (destruct l as [|? l]; try discriminate).
  match goal with
  | |- context [match ?x with Ascii _ _ _ _ _ _ _ _ => _ end] =>
      destruct x as [[] [] [] [] [] [] [] []]; try discriminate
  end.
  do 3 (destruct l as [|? l]; try discriminate).
  intros H.
  match goal with
  | |- context [[?a; ?b; ?c; ?d; _; ?e; ?f; _; ?g; ?i]] =>
      assert (forallb Str.is_digit [a; b; c; d] = true
              /\ forallb Str.is_digit [e; f] = true
              /\ forallb Str.is_digit [g; i] = true) as (Hy & Hm & Hd)
        by (cbn [forallb] in *; repeat (apply andb_prop in H as [? H]);
            repeat split;
            repeat match goal with
                   | Hx : Str.is_digit ?c = true |- context [Str.is_digit ?c] => rewrite Hx
                   end; reflexivity);
      destruct (digits_pad _ Hy) as [Ey Ry];
      destruct (digits_pad _ Hm) as [Em Rm];
      destruct (digits_pad _ Hd) as [Ed Rd];
      exists (Str.digits_val [a; b; c; d]), (Str.digits_val [e; f]), (Str.digits_val [g; i])
  end.
  cbn [length] in *. rewrite <- Ey, <- Em, <- Ed.
  change (10 ^ Z.of_nat 4) with 10000 in Ry. change (10 ^ Z.of_nat 2) with 100 in Rm, Rd.
  auto.
Qed.

Lemma range_forallb (f : Z -> bool) (n : Z) :
  forallb f (map Z.of_nat (seq 0 (Z.to_nat n))) = true ->
  forall z, 0 <= z < n -> f z = true.
Proof.
  intros H z Hz. rewrite forallb_forall in H. apply H.
  apply in_map_iff. exists (Z.to_nat z). split; [lia|]. apply in_seq. lia.
Qed.

Lemma Number_pad4 y :
  0 <= y < 10000 -> Num.trunc (Num.of_chars (Str.pad 4 y)) = Some y.
Proof.
  intros H.
  pose proof (range_forallb
    (fun n => match Num.trunc (Num.of_chars (Str.pad 4 n)) with
              | Some v => v =? n
              | None => false
              end) 10000 ltac:(vm_compute; reflexivity) y H) as C.
  cbv beta in C. destruct (Num.trunc _); [|discriminate]. f_equal. lia.
Qed.

Lemma Number_pad2 m :
  0 <= m < 100 ->
  Num.trunc (Num.of_chars (Str.pad 2 m)) = Some m
  /\ Num.trunc (Num.sub (Num.of_chars (Str.pad 2 m)) (Num.of_Z 1)) = Some (m - 1).
Proof.
  intros H.
  pose proof (range_forallb
    (fun n => match Num.trunc (Num.of_chars (Str.pad 2 n)),
                    Num.trunc (Num.sub (Num.of_chars (Str.pad 2 n)) (Num.of_Z 1)) with
              | Some v, Some w => (v =? n) && (w =? n - 1)
              | _, _ => false
              end) 100 ltac:(vm_compute; reflexivity) m H) as C.
  cbv beta in C.
  destruct (Num.trunc (Num.of_chars _)); [|discriminate].
  destruct (Num.trunc (Num.sub _ _)); [|discriminate].
  apply andb_prop in C as [C1 C2]. split; f_equal; lia.
Qed.

Lemma split_date y m d :
  Str.split_chars "-" (Str.pad 4 y ++ "-"%char :: Str.pad 2 m ++ "-"%char :: Str.pad 2 d)
  = [Str.pad 4 y; Str.pad 2 m; Str.pad 2 d].
Proof.
  assert (forall w n, free "-" (Str.pad w n)) as F
    by (intros; apply free_digits; [reflexivity|apply pad_digits]).
  rewrite split_chars_app, split_chars_app, !split_chars_free by apply F. reflexivity.
Qed.



Lemma monthStart_range leap m :
  0 <= leap <= 1 -> 0 <= m <= 11 -> 0 <= Date.monthStart leap m <= 335.
Proof.
  intros Hl Hm.
  assert (m = 0 \/ m = 1 \/ m = 2 \/ m = 3 \/ m = 4 \/ m = 5 \/ m = 6 \/ m = 7 \/ m = 8
          \/ m = 9 \/ m = 10 \/ m = 11) as Hc by lia.
  repeat (destruct Hc as [-> | Hc]; [simpl; lia|]). subst. simpl. lia.
Qed.

(** A string of the shape [YYYY-MM-DD] always makes a valid local date. *)
Lemma ymdToLocal_dateOnly h s hh mi ss ms :
  zoneBounded h -> isDateOnly (Str.chars s) = true ->
  0 <= Date.MakeTime hh mi ss ms < Date.msPerDay ->
  exists t, ymdToLocal h s hh mi ss ms = Some t.
Proof.
  intros Hz Hs Ht. apply isDateOnly_inv in Hs as (y & m & d & E & Hy & Hm & Hd).
  unfold ymdToLocal, Str.split. rewrite E, split_date. cbn [map nth].
  unfold Num.of_string. rewrite !chars_text.
  unfold Date_local.
  rewrite (Number_pad4 y Hy). destruct (Number_pad2 m Hm) as [_ ->].
  destruct (Number_pad2 d Hd) as [-> _].
  set (t := Date.MakeDate _ _). specialize (Hz t).
  assert (Z.abs t <= 4000000 * Date.msPerDay) as Hb.
  { subst t. unfold Date.MakeDate, Date.MakeDay.
    set (yr := Date.MakeFullYear y + (m - 1) / 12).
    assert (99 <= yr <= 10010) as Hyr.
    { subst yr. unfold Date.MakeFullYear.
      destruct (Z.leb_spec 0 y), (Z.leb_spec y 99); cbn [andb];
        Z.div_mod_to_equations; lia. }
    pose proof (monthStart_range (Date.leapDays yr) ((m - 1) mod 12) (leapDays_range yr)
                  ltac:(Z.div_mod_to_equations; lia)) as Hms.
    assert (-700000 <= Date.DayFromYear yr <= 3000000) as Hdy
      by (unfold Date.DayFromYear; Z.div_mod_to_equations; lia).
    unfold Date.msPerDay in *. nia. }
  unfold Date.TimeClip.
  destruct (Z.leb_spec (Z.abs (t - localTZA h t)) Date.maxTime) as [|Hn]; [eauto|].
  exfalso. unfold Date.msPerDay, Date.maxTime in *. lia.
Qed.

(** ** The handler, case by case *)

Lemma serve_served h env req c :
  served h env req c (fst (serve h env req c))
         (cache (snd (serve h env req c))) (calls (snd (serve h env req c))).
Proof.
  unfold serve, GET, bind.
  destruct (given (apiKey h)) as [key|] eqn:Ekey; cbn [ret respond fst snd cache calls];
    [|apply served_no_key; auto].
  destruct (QuerySchema.safeParse _) as [details|query] eqn:Eq;
    cbn [ret respond fst snd cache calls]; [eapply served_invalid; eauto|].
  destruct (resolveWindow h env (from query) (to query)) as [[s e]|err] eqn:Ew;
    cbn [lift ret raise fst snd cache calls]; [|eapply served_bad_date; eauto].
  assert (prepared h env req key query s e) as P by (now constructor).
  assert ((if flag req "nocache" then ret tt
           else fun w => match cache_get (keyOf query s e) w with
                         | (Next a, w') =>
                             match a with
                             | Some entry =>
                                 returnIf (now_lookup env - ts entry <? TTL_MS)
                                          (json (DataBody (data entry)) 200)
                             | None => ret tt
                             end w'
                         | (Return r, w') => (Return r, w')
                         | (Raise e0, w') => (Raise e0, w')
                         end) {| cache := c; calls := [] |}
          = match lookupHit (flag req "nocache") c (keyOf query s e) (now_lookup env) with
            | Some entry => (Return (json (DataBody (data entry)) 200),
                             {| cache := c; calls := [] |})
            | None => (Next tt, {| cache := c; calls := [] |})
            end) as ->.
  { unfold lookupHit, cache_get, returnIf, ret, respond.
    destruct (flag req "nocache"); [reflexivity|]. cbn [cache].
    destruct (c !! keyOf query s e) as [entry|]; [|reflexivity].
    now destruct (_ <? _). }
  destruct (lookupHit _ _ _ _) as [entry|] eqn:Eh; cbn [fst snd cache calls];
    [eapply served_hit; eauto|].
  unfold returnIf. destruct (flag req "debug") eqn:Ed;
    cbn [ret respond fst snd cache calls]; [eapply served_debug; eauto|].
  unfold fetch. cbn [cache calls app].
  destruct (upstream env (tmUrlOf key query s e)) as [r|] eqn:Eu;
    cbn [fst snd cache calls]; [|eapply served_unreachable; eauto].
  destruct (ok r) eqn:Eok; cbn [ret].
  - destruct (body_json r) as [raw|err] eqn:Ej; cbn [lift ret raise fst snd cache calls];
      [|eapply served_bad_json; eauto].
    destruct (normalize raw) as [events|err] eqn:En; cbn [lift ret raise fst snd cache calls];
      [|eapply served_bad_payload; eauto; now rewrite En].
    destruct (refilter h s e events) as [filtered|err] eqn:Ef;
      cbn [lift ret raise fst snd cache calls];
      [|eapply served_bad_payload; eauto; now rewrite En].
    pose proof (served_fresh h env req c key query s e r raw events filtered
                  P Eh Ed Eu Eok Ej En Ef) as S.
    destruct (flag req "nocache"); cbn [ret cache_set respond fst snd cache calls]; exact S.
  - unfold upstreamFailure, bind.
    destruct (failureDetails r) as [details|err] eqn:Ef;
      cbn [lift ret raise respond fst snd cache calls].
    + eapply served_refused; eauto.
    + eapply served_refused_unread; eauto.
Qed.

(** The handler always ends by answering or throwing. *)
Lemma serve_never_next h env req c r : fst (serve h env req c) <> Next r.
Proof.
  pose proof (serve_served h env req c) as S. intros E. rewrite E in S. inversion S.
Qed.

(** ** The re-filter and the sort *)





Lemma effectiveInstant_Some h v ms :
  effectiveInstant h v = Ok (Some ms) ->
  exists p, Date_parse h (toString v) = Some p /\ effectiveAt h v p ms.
Proof.
  unfold effectiveInstant, effectiveAt.
  destruct (Date_parse h (toString v)) as [p|]; [|discriminate].
  intros H. exists p. split; [reflexivity|].
  destruct (isDateOnly (toChars v)).
  - destruct v; try discriminate H. injection H as H. eauto.
  - now injection H as ->.
Qed.



Lemma keep_true h s e ev :
  (forall e', e = Some e' -> given e = e) ->
  keep h (startMsOf h s) (endMsOf h e) ev = Ok true -> inWindow h s e ev.
Proof.
  intros Hg. unfold keep.
  destruct (effectiveInstant h (start ev)) as [[ms|]|] eqn:E; try discriminate.
  apply effectiveInstant_Some in E as (p & Hp & He).
  cbn [obind]. intros [= H]. unfold within, startMsOf, endMsOf in H.
  destruct (Date_parse h s) as [ts|] eqn:Es; [|discriminate].
  apply andb_prop in H as [H1 H2]. apply Z.leb_le in H1. exists p, ms, ts.
  repeat (split; [assumption|]).
  destruct e as [e'|]; [|exact I].
  rewrite (Hg e' eq_refl) in H2.
  destruct (Date_parse h e') as [te|]; [|discriminate]. apply Z.leb_le in H2. eauto.
Qed.

Lemma ofilter_Ok {A} (p : A -> outcome bool) l l' :
  ofilter p l = Ok l' -> Forall (fun x => p x = Ok true) l'.
Proof.
  revert l'; induction l as [|x l IH]; cbn; intros l' H.
  - injection H as <-. constructor.
  - destruct (p x) as [b|] eqn:Ep; [|discriminate]. cbn in H.
    destruct (ofilter p l) as [r|]; [|discriminate]. cbn in H. injection H as <-.
    destruct b; [constructor|]; auto.
Qed.

Lemma insert_Permutation {A} (cmp : A -> A -> outcome Num.jsnum) x l l' :
  insert cmp x l = Ok l' -> Permutation (x :: l) l'.
Proof.
  revert l'; induction l as [|y l IH]; cbn [insert]; intros l' H.
  - now injection H as <-.
  - destruct (cmp x y) as [c|]; [|discriminate]. cbn [obind] in H.
    destruct (Num.ltb _ c).
    + destruct (insert cmp x l) as [r|]; [|discriminate]. cbn [obind] in H.
      injection H as <-. rewrite perm_swap. constructor. now apply IH.
    + now injection H as <-.
Qed.

Lemma sort_Permutation {A} (cmp : A -> A -> outcome Num.jsnum) l l' :
  sort cmp l = Ok l' -> Permutation l l'.
Proof.
  revert l'; induction l as [|x l IH]; cbn [sort]; intros l' H.
  - now injection H as <-.
  - destruct (sort cmp l) as [r|]; [|discriminate]. cbn [obind] in H.
    apply insert_Permutation in H. rewrite <- H. constructor. now apply IH.
Qed.



Lemma byStart_positive h a b ta tb :
  parsedStart h a = Some ta -> parsedStart h b = Some tb ->
  exists c, byStart h a b = Ok c /\ Num.ltb (Num.Fin 0 0) c = (tb <? ta).
Proof.
  unfold parsedStart, byStart. intros -> ->. eexists. split; [reflexivity|].
  cbn. rewrite !Z.mul_1_r. destruct (Z.ltb_spec 0 (ta - tb)), (Z.ltb_spec tb ta); lia || reflexivity.
Qed.

Lemma insert_sorted h x l l' tx :
  parsedStart h x = Some tx ->
  Forall (fun ev => parsedStart h ev <> None) l ->
  StronglySorted (notAfter h) l ->
  insert (byStart h) x l = Ok l' ->
  StronglySorted (notAfter h) l'.
Proof.
  intros Hx. revert l'. induction l as [|y l IH]; cbn [insert]; intros l' Hk Hs H.
  - injection H as <-. repeat constructor.
  - apply Forall_cons in Hk as [Hy Hk].
    destruct (parsedStart h y) as [ty|] eqn:Ey; [|contradiction].
    destruct (byStart_positive h x y tx ty Hx Ey) as (c & Ec & Hc).
    rewrite Ec in H. cbn [obind] in H. rewrite Hc in H. apply StronglySorted_inv in Hs as [Hs Hy'].
    destruct (Z.ltb_spec ty tx) as [Hlt|Hge].
    + destruct (insert (byStart h) x l) as [r|] eqn:Er; [|discriminate]. cbn in H.
      injection H as <-. constructor; [now apply IH|].
      eapply Permutation_Forall; [exact (insert_Permutation _ _ _ _ Er)|].
      constructor; [|assumption]. exists ty, tx. repeat split; auto; lia.
    + injection H as <-. constructor; [constructor; assumption|].
      constructor; [exists tx, ty; auto|].
      eapply List.Forall_impl; [|exact Hy']. intros z (ty' & tz & E1 & E2 & Hle). cbv beta.
      rewrite Ey in E1. injection E1 as <-. exists tx, tz. repeat split; auto; lia.
Qed.

Lemma sort_sorted h l l' :
  Forall (fun ev => parsedStart h ev <> None) l ->
  sort (byStart h) l = Ok l' ->
  StronglySorted (notAfter h) l'.
Proof.
  revert l'; induction l as [|x l IH]; cbn [sort]; intros l' Hk H.
  - injection H as <-. constructor.
  - apply Forall_cons in Hk as [Hx Hk].
    destruct (sort (byStart h) l) as [r|] eqn:Er; [|discriminate]. cbn [obind] in H.
    destruct (parsedStart h x) as [tx|] eqn:Ex; [|contradiction].
    apply (insert_sorted h x r l' tx Ex); [|now apply IH|exact H].
    eapply Permutation_Forall; [exact (sort_Permutation _ _ _ Er)|exact Hk].
Qed.

(** What [refilter] returns: only events inside the window, ascending by
    parsed instant. *)
Lemma refilter_Ok h s e events filtered :
  (forall e', e = Some e' -> given e = e) ->
  refilter h s e events = Ok filtered ->
  Forall (inWindow h s e) filtered /\ StronglySorted (notAfter h) filtered.
Proof.
  intros Hg. unfold refilter.
  destruct (ofilter _ events) as [kept|] eqn:Ek; [|discriminate]. cbn [obind]. intros Hs.
  apply ofilter_Ok in Ek.
  assert (Forall (inWindow h s e) kept) as Hin.
  { eapply List.Forall_impl; [|exact Ek]. intros ev. now apply keep_true. }
  split.
  - eapply Permutation_Forall; [exact (sort_Permutation _ _ _ Hs)|exact Hin].
  - eapply sort_sorted; [|exact Hs].
    eapply List.Forall_impl; [|exact Hin]. intros ev (p & ms & ts & Hp & _). cbv beta.
    now rewrite Hp.
Qed.

Lemma sorted_adjacent {A} (R : A -> A -> Prop) (l : list A) (i : nat) a b :
  StronglySorted R l -> l !! i = Some a -> l !! S i = Some b -> R a b.
Proof.
  intros H. revert i. induction H as [|x l Hs IH Hx]; intros i Ha Hb; [discriminate|].
  destruct i as [|i]; cbn in *.
  - injection Ha as <-. rewrite Forall_forall in Hx. apply Hx.
    eapply list_elem_of_lookup_2. exact Hb.
  - eauto.
Qed.

(** ** The cache invariant *)





Lemma prepared_window h env req key query s e :
  prepared h env req key query s e ->
  (exists ts, isoText s ts) /\ (forall e', e = Some e' -> exists te, isoText e' te).
Proof. intros [_ _ Hw]. now apply resolveWindow_isoText in Hw. Qed.

Lemma prepared_refilter h env req key query s e events filtered :
  prepared h env req key query s e ->
  refilter h s e events = Ok filtered -> filteredFor h s e filtered.
Proof.
  intros P. destruct (prepared_window _ _ _ _ _ _ _ P) as [_ He].
  apply refilter_Ok. intros e' ->. destruct (He e' eq_refl) as [te Hte].
  now apply isoText_given in Hte.
Qed.

Lemma served_cache_ok h env req c st c' calls :
  served h env req c st c' calls ->
  (forall k entry, c !! k = Some entry -> entry_ok h k entry) ->
  forall k entry, c' !! k = Some entry -> entry_ok h k entry.
Proof.
  intros S Hc. destruct S; try exact Hc.
  destruct (flag req "nocache"); [exact Hc|].
  intros k entry. rewrite lookup_insert. destruct (decide (keyOf query s e = k)) as [<-|]; [|apply Hc].
  intros [= <-]. exists query, s, e. cbn [data results].
  destruct (prepared_window _ _ _ _ _ _ _ H) as [Hs He].
  repeat split; auto; eapply prepared_refilter; eauto.
Qed.

Lemma reachable_ok h c :
  reachable h c -> forall k entry, c !! k = Some entry -> entry_ok h k entry.
Proof.
  induction 1 as [|env req c R IH].
  - intros k entry. now rewrite lookup_empty.
  - eapply served_cache_ok; [apply serve_served|exact IH].
Qed.

Lemma lookupHit_Some nocache c key now entry :
  lookupHit nocache c key now = Some entry ->
  nocache = false /\ c !! key = Some entry /\ now - ts entry < TTL_MS.
Proof.
  unfold lookupHit. destruct nocache; [discriminate|].
  destruct (c !! key) as [x|]; [|discriminate].
  destruct (Z.ltb_spec (now - ts x) TTL_MS); [|discriminate]. now intros [= <-].
Qed.

(** A response with results was filtered and sorted for the window of
    the request it answers, also when it comes from the cache. *)
Lemma served_data h env req c code d c' calls :
  (forall k entry, c !! k = Some entry -> entry_ok h k entry) ->
  served h env req c (Return {| code := code; body := DataBody d |}) c' calls ->
  exists key query s e,
    prepared h env req key query s e /\ filteredFor h s e (results d).
Proof.
  intros Hc S. unfold json in S. inversion S; subst.
  - exists key, query, s, e. split; [assumption|].
    match goal with H : lookupHit _ _ _ _ = Some _ |- _ =>
      apply lookupHit_Some in H as (_ & Hl & _) end.
    destruct (Hc _ _ Hl) as (query' & s' & e' & Hk & [ts' Hs'] & He' & Hf).
    match goal with H : prepared _ _ _ _ _ _ _ |- _ =>
      destruct (prepared_window _ _ _ _ _ _ _ H) as [[ts Hs] He] end.
    unfold keyOf in Hk. apply cacheKeyOf_window in Hk as [-> ->]; [assumption| | | |].
    + eapply isoText_plain; eauto.
    + intros x ->. destruct (He x eq_refl). eapply isoText_plain; eauto.
    + eapply isoText_plain; eauto.
    + intros x ->. destruct (He' x eq_refl). eapply isoText_plain; eauto.
  - exists key, query, s, e. split; [assumption|]. cbn [results].
    eapply prepared_refilter; eauto.
Qed.

(** ** The handler is a function: one result per request and cache *)

Lemma prepared_inj h env req key query s e key' query' s' e' :
  prepared h env req key query s e -> prepared h env req key' query' s' e' ->
  key' = key /\ query' = query /\ s' = s /\ e' = e.
Proof.
  intros [K Q W] [K' Q' W']. rewrite K in K'. injection K' as <-.
  rewrite Q in Q'. injection Q' as <-. rewrite W in W'. now injection W' as <- <-.
Qed.

Ltac same_request :=
  repeat match goal with
         | P : prepared ?h ?env ?req ?k ?q ?s ?e,
           P' : prepared ?h ?env ?req ?k' ?q' ?s' ?e' |- _ =>
             destruct (prepared_inj _ _ _ _ _ _ _ _ _ _ _ P P') as (-> & -> & -> & ->);
             clear P'
         | P : prepared ?h _ _ _ _ _ _, K : given (apiKey ?h) = None |- _ =>
             destruct P as [K' _ _]; congruence
         | P : prepared _ _ ?req _ _ _ _,
           Q : QuerySchema.safeParse (URL.fromEntries (searchParams ?req)) = inl _ |- _ =>
             destruct P as [_ Q' _]; congruence
         | P : prepared ?h ?env ?req _ ?q _ _,
           Q : QuerySchema.safeParse (URL.fromEntries (searchParams ?req)) = inr ?q',
           W : resolveWindow ?h ?env (from ?q') (to ?q') = Throw _ |- _ =>
             destruct P as [_ Q' W']; rewrite Q in Q'; injection Q' as <-; congruence
         end.

Lemma served_det h env req c st1 c1 l1 st2 c2 l2 :
  served h env req c st1 c1 l1 -> served h env req c st2 c2 l2 ->
  st1 = st2 /\ c1 = c2 /\ l1 = l2.
Proof.
  intros S1 S2.
  destruct S1; inversion S2; subst; same_request;
    repeat match goal with
           | H1 : ?x = _, H2 : ?x = _ |- _ =>
               rewrite H1 in H2; first [discriminate H2 | injection H2 as ? ; subst | clear H2]
           end;
    try congruence; auto;
    match goal with
    | H : obind (normalize ?r) _ = Throw _, N : normalize ?r = Ok _ |- _ =>
        rewrite N in H; cbn [obind] in H; congruence
    end.
Qed.

(** Whatever derivation we build is the run of the handler. *)
Lemma served_serve h env req c st c' l :
  served h env req c st c' l ->
  serve h env req c = (st, {| cache := c'; calls := l |}).
Proof.
  intros S. destruct (served_det _ _ _ _ _ _ _ _ _ _ S (serve_served h env req c))
    as (-> & -> & ->).
  destruct (serve h env req c) as [st [cc ll]]. reflexivity.
Qed.

(* ================================================================== *)
(** * The claims *)

(* ================================================================== *)
(** ** C1: what the pipeline returns lies in the window *)



(* ================================================================== *)
(** ** C2: the order of the results *)



(** On UTC, a date-only event of the fourth of July is returned before
    an event at noon of that day, though it counts as 23:59:59.999 in the
    filter: the comparator of the sort parses the start directly. *)
Lemma sorted_by_effective_instant_fails : ~ sorted_by_effective_instant.
Proof.
  intros H.
  specialize (H utcHost ∅ (answering mid_june july4) julyRequest 200 julyData
                (reach_start utcHost) ltac:(vm_compute; reflexivity) 0%nat).
  specialize (H _ _ 1751673599999 1751630400000 eq_refl eq_refl
                ltac:(vm_compute; reflexivity) ltac:(vm_compute; reflexivity)).
  lia.
Qed.

(** C2, amended. Adjacent results ascend by the instant [Date.parse]
    gives for their start: for all [i], the start of result [i] parses to
    an instant not after the one the start of result [i+1] parses to. *)
Theorem results_sorted_by_parsed_start h c env req code d :
  reachable h c ->
  fst (serve h env req c) = Return {| code := code; body := DataBody d |} ->
  forall i a b,
    results d !! i = Some a -> results d !! S i = Some b ->
    exists ta tb, parsedStart h a = Some ta /\ parsedStart h b = Some tb /\ ta <= tb.
Proof.
  intros R E i a b Ha Hb. pose proof (serve_served h env req c) as S. rewrite E in S.
  apply served_data in S as (key & query & s & e & _ & _ & Hs);
    [|now apply reachable_ok].
  exact (sorted_adjacent _ _ i a b Hs Ha Hb).
Qed.

Lemma results_sorted_by_parsed_start_witness :
  reachable utcHost ∅
  /\ fst (serve utcHost (answering mid_june july4) julyRequest ∅)
     = Return {| code := 200; body := DataBody julyData |}
  /\ forall i a b,
       results julyData !! i = Some a -> results julyData !! S i = Some b ->
       exists ta tb, parsedStart utcHost a = Some ta /\ parsedStart utcHost b = Some tb
                     /\ ta <= tb.
Proof.
  split; [constructor|]. split; [vm_compute; reflexivity|].
  apply (results_sorted_by_parsed_start utcHost ∅ (answering mid_june july4) julyRequest
           200 julyData); [constructor | vm_compute; reflexivity].
Defined.

(* ================================================================== *)
(** ** C4, C5: the date window *)

(** C4. For every pair of [from]/[to] strings of the shape [YYYY-MM-DD]
    (every valid calendar date has it), in whatever order, and so when
    [from] is the later date, the window resolves (the request is not
    rejected) and its start is not after its end: the start is the earlier
    of the two raw bounds, and the end the later one, capped. *)
Theorem reversed_dates_give_ordered_window h env f t :
  zoneBounded h ->
  isDateOnly (Str.chars f) = true ->
  isDateOnly (Str.chars t) = true ->
  exists s e ts te a b,
    resolveWindow h env (Some f) (Some t) = Ok (s, Some e)
    /\ Date_parse h s = Some ts /\ Date_parse h e = Some te /\ ts <= te
    /\ ymdToLocalStart h f = Some a /\ ymdToLocalEnd h t = Some b
    /\ ts = Z.min (a - a mod 1000) (b - b mod 1000)
    /\ te = Z.min (Z.max (a - a mod 1000) (b - b mod 1000)) (ts + MAX_WINDOW_MS).
Proof.
  intros Hz Hf Ht.
  destruct (ymdToLocal_dateOnly h f 0 0 0 0 Hz Hf ltac:(cbv; split; congruence)) as [a Ha].
  destruct (ymdToLocal_dateOnly h t 23 59 59 999 Hz Ht ltac:(cbv; split; congruence))
    as [b Hb].
  fold (ymdToLocalStart h f) in Ha. fold (ymdToLocalEnd h t) in Hb.
  assert (given (Some f) = Some f /\ given (Some t) = Some t) as [Gf Gt].
  { unfold given. destruct f, t; try discriminate; auto. }
  pose proof (Date_local_range _ _ _ _ _ _ _ _ _ Ha) as Ra.
  pose proof (Date_local_range _ _ _ _ _ _ _ _ _ Hb) as Rb.
  assert (isoText (Str.text (isoNoMs a)) (a - a mod 1000)) as Ia by (exists a; auto).
  assert (isoText (Str.text (isoNoMs b)) (b - b mod 1000)) as Ib by (exists b; auto).
  set (a' := a - a mod 1000) in *. set (b' := b - b mod 1000) in *.
  unfold resolveWindow, startIsoFromYMD, endIsoFromYMD. rewrite Gf, Gt, Ha, Hb.
  cbn [toIsoNoMs obind]. rewrite !dropMs_toISOChars.
  rewrite (orderWindow_spec h _ _ a' b' Ia Ib).
  destruct (Z.ltb_spec b' a') as [Hlt|Hge].
  - destruct (capWindow_spec h _ _ b' a' Ib Ia) as (e' & -> & He' & _).
    exists (Str.text (isoNoMs b)), e', b', (Z.min a' (b' + MAX_WINDOW_MS)), a, b.
    rewrite (isoText_parse h _ _ Ib), (isoText_parse h _ _ He').
    unfold MAX_WINDOW_MS. repeat split; lia.
  - destruct (capWindow_spec h _ _ a' b' Ia Ib) as (e' & -> & He' & _).
    exists (Str.text (isoNoMs a)), e', a', (Z.min b' (a' + MAX_WINDOW_MS)), a, b.
    rewrite (isoText_parse h _ _ Ia), (isoText_parse h _ _ He').
    unfold MAX_WINDOW_MS. repeat split; lia.
Qed.

Lemma reversed_dates_give_ordered_window_witness :
  zoneBounded utcHost
  /\ isDateOnly (Str.chars "2025-07-31") = true
  /\ isDateOnly (Str.chars "2025-07-01") = true
  /\ exists s e ts te a b,
       resolveWindow utcHost (answering mid_june july4)
                     (Some "2025-07-31"%string) (Some "2025-07-01"%string) = Ok (s, Some e)
       /\ Date_parse utcHost s = Some ts /\ Date_parse utcHost e = Some te /\ ts <= te
       /\ ymdToLocalStart utcHost "2025-07-31" = Some a
       /\ ymdToLocalEnd utcHost "2025-07-01" = Some b
       /\ ts = Z.min (a - a mod 1000) (b - b mod 1000)
       /\ te = Z.min (Z.max (a - a mod 1000) (b - b mod 1000)) (ts + MAX_WINDOW_MS).
Proof.
  assert (zoneBounded utcHost) as Hz by (intros t; simpl; unfold Date.msPerDay; lia).
  split; [exact Hz|]. split; [reflexivity|]. split; [reflexivity|].
  apply (reversed_dates_give_ordered_window utcHost (answering mid_june july4)
           "2025-07-31" "2025-07-01" Hz); reflexivity.
Defined.

Example reversed_dates_swapped :
  resolveWindow utcHost (answering mid_june july4)
                (Some "2025-07-31"%string) (Some "2025-07-01"%string)
  = Ok ("2025-07-01T23:59:59Z"%string, Some "2025-07-31T00:00:00Z"%string).
Proof. vm_compute. reflexivity. Qed.

(** C5. Whenever a window resolves with an end, both bounds parse and
    [end - start <= 180 days].  With the raw bounds put in order as
    [(s1, e1)], the start stays [s1]; the end is [start + 180 days] when
    [e1] lies further than that, and stays [e1] otherwise. *)
Theorem window_spans_at_most_180_days h env f t s e :
  resolveWindow h env f t = Ok (s, Some e) ->
  exists ts te,
    Date_parse h s = Some ts /\ Date_parse h e = Some te
    /\ te - ts <= MAX_WINDOW_MS
    /\ exists s0 e0 e1 te1,
         startIsoFromYMD h env f = Ok s0 /\ endIsoFromYMD h t = Ok (Some e0)
         /\ orderWindow h s0 (Some e0) = (s, Some e1)
         /\ Date_parse h e1 = Some te1
         /\ (MAX_WINDOW_MS < te1 - ts -> te = ts + MAX_WINDOW_MS)
         /\ (te1 - ts <= MAX_WINDOW_MS -> e = e1).
Proof.
  unfold resolveWindow.
  destruct (startIsoFromYMD h env f) as [s0|] eqn:Es; [|discriminate].
  destruct (endIsoFromYMD h t) as [[e0|]|] eqn:Ee; cbn [obind]; try discriminate.
  destruct (startIsoFromYMD_Ok _ _ _ _ Es) as [a Ha].
  destruct (endIsoFromYMD_Ok _ _ _ Ee) as [b Hb].
  rewrite (orderWindow_spec h s0 e0 a b Ha Hb).
  destruct (Z.ltb_spec b a) as [Hlt|Hge].
  - destruct (capWindow_spec h e0 s0 b a Hb Ha) as (e' & -> & He' & Hsame).
    intros [= <- <-]. exists b, (Z.min a (b + MAX_WINDOW_MS)).
    rewrite (isoText_parse h _ _ Hb), (isoText_parse h _ _ He').
    repeat (split; [reflexivity || lia|]).
    exists s0, e0, s0, a.
    rewrite (isoText_parse h _ _ Ha), (orderWindow_spec h s0 e0 a b Ha Hb).
    destruct (Z.ltb_spec b a); [|lia].
    repeat (split; [reflexivity || lia|]). exact Hsame.
  - destruct (capWindow_spec h s0 e0 a b Ha Hb) as (e' & -> & He' & Hsame).
    intros [= <- <-]. exists a, (Z.min b (a + MAX_WINDOW_MS)).
    rewrite (isoText_parse h _ _ Ha), (isoText_parse h _ _ He').
    repeat (split; [reflexivity || lia|]).
    exists s0, e0, e0, b.
    rewrite (isoText_parse h _ _ Hb), (orderWindow_spec h s0 e0 a b Ha Hb).
    destruct (Z.ltb_spec b a); [lia|].
    repeat (split; [reflexivity || lia|]). exact Hsame.
Qed.

Lemma window_spans_at_most_180_days_witness :
  resolveWindow utcHost (answering mid_june july4)
                (Some "2025-01-01"%string) (Some "2026-01-01"%string)
  = Ok ("2025-01-01T00:00:00Z"%string, Some "2025-06-30T00:00:00Z"%string)
  /\ exists ts te,
       Date_parse utcHost "2025-01-01T00:00:00Z" = Some ts
       /\ Date_parse utcHost "2025-06-30T00:00:00Z" = Some te
       /\ te - ts <= MAX_WINDOW_MS
       /\ exists s0 e0 e1 te1,
            startIsoFromYMD utcHost (answering mid_june july4) (Some "2025-01-01"%string)
            = Ok s0
            /\ endIsoFromYMD utcHost (Some "2026-01-01"%string) = Ok (Some e0)
            /\ orderWindow utcHost s0 (Some e0) = ("2025-01-01T00:00:00Z"%string, Some e1)
            /\ Date_parse utcHost e1 = Some te1
            /\ (MAX_WINDOW_MS < te1 - ts -> te = ts + MAX_WINDOW_MS)
            /\ (te1 - ts <= MAX_WINDOW_MS -> "2025-06-30T00:00:00Z"%string = e1).
Proof.
  split; [vm_compute; reflexivity|].
  apply (window_spans_at_most_180_days utcHost (answering mid_june july4)
           (Some "2025-01-01"%string) (Some "2026-01-01"%string)).
  vm_compute. reflexivity.
Defined.

(* ================================================================== *)
(** ** C3: the same request again, within the TTL *)

Lemma safeParse_from obj query :
  QuerySchema.safeParse obj = inr query ->
  from query = obj !! "from"%string /\ to query = obj !! "to"%string.
Proof.
  unfold QuerySchema.safeParse.
  destruct (QuerySchema.q _), (QuerySchema.lat _), (QuerySchema.lng _),
    (QuerySchema.radius _), (QuerySchema.from _) eqn:Ef, (QuerySchema.to _) eqn:Et,
    (QuerySchema.page _); try discriminate.
  intros [= <-]. cbn [from to].
  unfold QuerySchema.from, QuerySchema.to, Zod.optional, Zod.anyString in Ef, Et.
  destruct (obj !! "from"%string), (obj !! "to"%string); now inversion Ef; inversion Et.
Qed.

Lemma isoNoMs_same_second t1 t2 : t1 / 1000 = t2 / 1000 -> isoNoMs t1 = isoNoMs t2.
Proof.
  intros H.
  assert (Date.Day t1 = Date.Day t2) as Hd
    by (unfold Date.Day, Date.msPerDay; Z.div_mod_to_equations; lia).
  assert (Date.HourFromTime t1 = Date.HourFromTime t2) as Hh
    by (unfold Date.HourFromTime, Date.msPerHour; Z.div_mod_to_equations; lia).
  assert (Date.MinFromTime t1 = Date.MinFromTime t2) as Hm
    by (unfold Date.MinFromTime, Date.msPerMinute; Z.div_mod_to_equations; lia).
  assert (Date.SecFromTime t1 = Date.SecFromTime t2) as Hs
    by (unfold Date.SecFromTime, Date.msPerSecond; Z.div_mod_to_equations; lia).
  unfold isoNoMs, Date.isoDate, Date.isoClock, Date.DateFromTime, Date.MonthFromTime,
    Date.DayWithinYear, Date.InLeapYear, Date.YearFromTime.
  now rewrite Hd, Hh, Hm, Hs.
Qed.

(** The window resolves alike when [from] is given, or when the clock
    shows the same second. *)
Lemma resolveWindow_again h env1 env2 f t w :
  (given f = None ->
   now_default env1 / 1000 = now_default env2 / 1000
   /\ Z.abs (now_default env2) <= Date.maxTime) ->
  resolveWindow h env1 f t = Ok w -> resolveWindow h env2 f t = Ok w.
Proof.
  intros Hn. unfold resolveWindow.
  assert (forall s, startIsoFromYMD h env1 f = Ok s -> startIsoFromYMD h env2 f = Ok s) as Hs.
  { unfold startIsoFromYMD. destruct (given f); [auto|].
    destruct (Hn eq_refl) as [Hsec Hr]. intros s H.
    apply toIsoNoMs_Ok in H as (t1 & H1 & ->). apply TimeClip_Some in H1 as [-> _].
    unfold Date.TimeClip. destruct (Z.leb_spec (Z.abs (now_default env2)) Date.maxTime); [|lia].
    cbn. now rewrite dropMs_toISOChars, (isoNoMs_same_second _ _ Hsec). }
  destruct (startIsoFromYMD h env1 f) as [s|]; [|discriminate].
  now rewrite (Hs s eq_refl).
Qed.



(** A request without [from], answered from upstream, then repeated one
    second later: the window starts at "now" to the second and the key
    holds the window, so the second request misses and calls upstream. *)
Lemma repeat_is_served_from_cache_fails : ~ repeat_is_served_from_cache.
Proof.
  intros H.
  specialize (H utcHost (answering mid_june july4) (answering (mid_june + 1000) july4)
                {| searchParams := [] |} ∅ (reach_start utcHost)
                ltac:(cbn; lia) ltac:(cbn; lia) ltac:(cbn; unfold TTL_MS; lia)).
  destruct H as [_ H]. vm_compute in H. discriminate H.
Qed.

(** C3, amended. A request without the bypass flag, answered from
    upstream (a cache miss that completed the round trip), and repeated
    with the same parameters: when the second lookup happens less than
    the TTL after the first store, and [from] is given or else both
    requests read the clock within the same second, the second request
    gets the same response from the cache, calls no upstream and leaves
    the cache as it is. *)
Theorem repeat_within_ttl_hits h env1 env2 req c d w1 :
  flag req "nocache" = false ->
  serve h env1 req c = (Return (json (DataBody d) 200), w1) ->
  calls w1 <> [] ->
  now_lookup env2 - now_store env1 < TTL_MS ->
  (given (URL.fromEntries (searchParams req) !! "from"%string) = None ->
   now_default env1 / 1000 = now_default env2 / 1000
   /\ Z.abs (now_default env2) <= Date.maxTime) ->
  serve h env2 req (cache w1)
  = (Return (json (DataBody d) 200), {| cache := cache w1; calls := [] |}).
Proof.
  intros Hn E Hc Httl Hfrom. destruct w1 as [c1 l1]. cbn [cache calls] in *.
  pose proof (serve_served h env1 req c) as S. rewrite E in S. cbn [fst snd cache calls] in S.
  unfold json in S. inversion S; subst; [contradiction|]. rewrite Hn.
  match goal with P : prepared _ _ _ _ _ _ _ |- _ => destruct P as [K Q W] end.
  destruct (safeParse_from _ _ Q) as [Ef _].
  apply served_serve.
  apply (served_hit h env2 req _ key query s e
           {| ts := now_store env1;
              data := {| results := filtered; pageInfo := pageInfoOf raw |} |}).
  - constructor; auto. eapply resolveWindow_again; [|exact W]. now rewrite Ef.
  - unfold lookupHit. rewrite Hn, lookup_insert_eq. cbn [ts].
    destruct (Z.ltb_spec (now_lookup env2 - now_store env1) TTL_MS); [reflexivity|lia].
Qed.

Lemma repeat_within_ttl_hits_witness :
  let env1 := answering mid_june july4 in
  let env2 := answering (mid_june + 60000) july4 in
  let w1 := snd (serve utcHost env1 julyRequest ∅) in
  flag julyRequest "nocache" = false
  /\ serve utcHost env1 julyRequest ∅ = (Return (json (DataBody julyData) 200), w1)
  /\ calls w1 <> []
  /\ now_lookup env2 - now_store env1 < TTL_MS
  /\ serve utcHost env2 julyRequest (cache w1)
     = (Return (json (DataBody julyData) 200), {| cache := cache w1; calls := [] |}).
Proof.
  intros env1 env2 w1.
  assert (flag julyRequest "nocache" = false) as H1 by reflexivity.
  assert (serve utcHost env1 julyRequest ∅ = (Return (json (DataBody julyData) 200), w1))
    as H2 by (vm_compute; reflexivity).
  assert (calls w1 <> []) as H3 by (vm_compute; discriminate).
  assert (now_lookup env2 - now_store env1 < TTL_MS) as H4 by (vm_compute; reflexivity).
  repeat (split; [assumption|]).
  apply (repeat_within_ttl_hits utcHost env1 env2 julyRequest ∅ julyData w1 H1 H2 H3 H4).
  vm_compute. discriminate.
Defined.

(* ================================================================== *)
(** ** C7: the bypass flag *)

(** With the bypass flag, the run is the same on any cache, and leaves
    the cache as it is. *)
Lemma served_nocache h env req c c0 st c' l :
  flag req "nocache" = true ->
  served h env req c st c' l -> c' = c /\ served h env req c0 st c0 l.
Proof.
  intros Hn S. destruct S; rewrite ?Hn in *; (split; [reflexivity|]).
  - now apply served_no_key.
  - eapply served_invalid; eauto.
  - eapply served_bad_date; eauto.
  - discriminate.
  - eapply served_debug; eauto. now rewrite Hn.
  - eapply served_unreachable; eauto. now rewrite Hn.
  - eapply served_refused; eauto. now rewrite Hn.
  - eapply served_refused_unread; eauto. now rewrite Hn.
  - eapply served_bad_json; eauto. now rewrite Hn.
  - eapply served_bad_payload; eauto. now rewrite Hn.
  - pose proof (served_fresh h env req c0 key query s e r raw events filtered) as F.
    rewrite Hn in F. apply F; auto.
Qed.



(** A valid request with the bypass flag and the debug flag, while the
    cache holds a fresh entry for its key: the debug hook answers before
    the upstream call. *)
Lemma bypass_always_calls_upstream_fails : ~ bypass_always_calls_upstream.
Proof.
  intros H.
  destruct (H utcHost (answering (mid_june + 60000) july4)
              {| searchParams := [("from", "2025-07-01"); ("to", "2025-07-31");
                                  ("nocache", "1"); ("debug", "1")]%string |}
              _ (reach_serve utcHost (answering mid_june july4) julyRequest ∅
                   (reach_start utcHost)) eq_refl) as [H1 _].
  apply H1. vm_compute. reflexivity.
Qed.

(** C7, amended. For every request carrying the bypass flag the cache is
    neither read nor written: the cache after the request is the cache
    before it, and the response and the upstream calls are those of the
    same request on an empty cache, whatever entry the cache holds.  When
    the request passes the credential check, validation and date
    normalisation and does not carry the debug flag, the upstream is
    called, once, with the Ticketmaster URL. *)
Theorem bypass_skips_lookup_and_store h env req c :
  flag req "nocache" = true ->
  cache (snd (serve h env req c)) = c
  /\ fst (serve h env req c) = fst (serve h env req ∅)
  /\ calls (snd (serve h env req c)) = calls (snd (serve h env req ∅))
  /\ forall key query s e,
       prepared h env req key query s e -> flag req "debug" = false ->
       calls (snd (serve h env req c)) = [tmUrlOf key query s e].
Proof.
  intros Hn.
  destruct (served_nocache h env req c ∅ _ _ _ Hn (serve_served h env req c)) as [Hc S].
  apply served_serve in S. split; [exact Hc|]. rewrite S. cbn [fst snd calls].
  repeat split. intros key query s e P Hd.
  pose proof (serve_served h env req c) as S'.
  destruct S'; same_request; try congruence; try reflexivity.
  match goal with H : lookupHit _ _ _ _ = Some _ |- _ => rewrite Hn in H; discriminate H end.
Qed.

Lemma bypass_skips_lookup_and_store_witness :
  let req := {| searchParams := [("from", "2025-07-01"); ("to", "2025-07-31");
                                 ("nocache", "1")]%string |} in
  let env := answering (mid_june + 60000) july4 in
  let c := cache (snd (serve utcHost (answering mid_june july4) julyRequest ∅)) in
  flag req "nocache" = true
  /\ (cache (snd (serve utcHost env req c)) = c
      /\ fst (serve utcHost env req c) = fst (serve utcHost env req ∅)
      /\ calls (snd (serve utcHost env req c)) = calls (snd (serve utcHost env req ∅))
      /\ forall key query s e,
           prepared utcHost env req key query s e -> flag req "debug" = false ->
           calls (snd (serve utcHost env req c)) = [tmUrlOf key query s e]).
Proof.
  intros req env c. split; [reflexivity|].
  apply (bypass_skips_lookup_and_store utcHost env req c). reflexivity.
Defined.

(* ================================================================== *)
(** ** C8: when the cache is written *)

(** C8. The cache changes only when a request without the bypass flag
    misses the cache, gets a 2xx answer from upstream whose body
    normalises, and is answered with status 200: then exactly the entry
    for its key is written.  A request that ends in a validation failure
    (400), a missing credential (500), a refusal from upstream, the debug
    answer, or an exception, leaves the cache as it was. *)
Theorem cache_written_only_after_round_trip h env req c :
  (forall resp, fst (serve h env req c) = Return resp ->
                (forall d, body resp <> DataBody d) ->
                cache (snd (serve h env req c)) = c)
  /\ (forall err, fst (serve h env req c) = Raise err ->
                  cache (snd (serve h env req c)) = c)
  /\ (cache (snd (serve h env req c)) <> c ->
      exists key query s e r raw events filtered,
        prepared h env req key query s e
        /\ flag req "nocache" = false
        /\ lookupHit false c (keyOf query s e) (now_lookup env) = None
        /\ upstream env (tmUrlOf key query s e) = Some r /\ ok r = true
        /\ body_json r = Ok raw /\ normalize raw = Ok events
        /\ refilter h s e events = Ok filtered
        /\ serve h env req c
           = (Return (json (DataBody {| results := filtered; pageInfo := pageInfoOf raw |}) 200),
              {| cache := <[keyOf query s e :=
                             {| ts := now_store env;
                                data := {| results := filtered;
                                           pageInfo := pageInfoOf raw |} |}]> c;
                 calls := [tmUrlOf key query s e] |})).
Proof.
  pose proof (serve_served h env req c) as S.
  destruct (serve h env req c) as [st [c' l]]. cbn [fst snd cache calls] in *.
  split; [|split].
  - intros resp -> Hb. inversion S; subst; try reflexivity.
    exfalso. eapply Hb. reflexivity.
  - intros err ->. inversion S; subst; reflexivity.
  - intros Hne. destruct S; try contradiction.
    destruct (flag req "nocache") eqn:Hn; [contradiction|].
    exists key, query, s, e, r, raw, events, filtered.
    repeat (split; [assumption || reflexivity|]). reflexivity.
Qed.

(* ================================================================== *)
(** ** C10: the upstream URL in the response *)

Lemma text_app l1 l2 : Str.text (l1 ++ l2) = Str.text l1 +:+ Str.text l2.
Proof.
  unfold Str.text. induction l1 as [|c l1 IH]; cbn [app string_of_list_ascii String.append];
    [reflexivity|now rewrite IH].
Qed.

Lemma tmParams_head key query s e :
  exists r, tmParams key query s e = ("apikey", key) :: ("size", "100") :: r.
Proof.
  unfold tmParams.
  destruct (given (q query)), (lat query), (lng query), (given e);
    eexists; reflexivity.
Qed.

(** The URL the handler fetches starts with the API key, form-encoded. *)
Lemma tmUrlOf_apikey key query s e :
  exists rest,
    tmUrlOf key query s e
    = TM_BASE +:+ "?apikey=" +:+ Str.text (URL.encode key) +:+ "&" +:+ rest.
Proof.
  unfold tmUrlOf, URL.toString. destruct (tmParams_head key query s e) as [r ->].
  cbn [map joinWith fst snd].
  change (URL.encode "apikey") with (Str.chars "apikey").
  change (Str.chars "apikey" ++ "="%char :: ?l) with (Str.chars "apikey=" ++ l).
  rewrite !text_app, text_chars.
  change ("&"%char :: ?l) with (["&"%char] ++ l). rewrite text_app.
  eexists. reflexivity.
Qed.








(* ================================================================== *)
(** ** C9: venue coordinates *)







Lemma coords_iff_both_parse_fails : ~ coords_iff_both_parse.
Proof.
  intros H.
  destruct (normalizeEvent oddVenueEvent) as [e|] eqn:E; [|discriminate E].
  destruct (H oddVenueEvent e E) as [_ H2].
  vm_compute in E. injection E as <-.
  destruct (H2 _ eq_refl) as [H3 _]. discriminate H3.
Qed.

(** C9, amended. The coordinates of a normalised event are populated
    exactly when the latitude and the longitude of the first upstream
    venue's location are both truthy (so both present: not undefined, not
    null, not an empty string, not zero); they are then [Number(latitude)]
    and [Number(longitude)], whatever those are. *)
Theorem coords_follow_truthiness ev e :
  normalizeEvent ev = Ok e ->
  (is_Some (coords (venue e))
   <-> truthy (latitudeOf ev) = true /\ truthy (longitudeOf ev) = true)
  /\ (forall c, coords (venue e) = Some c ->
                coords_lat c = toNumber (latitudeOf ev)
                /\ coords_lng c = toNumber (longitudeOf ev))
  /\ (is_Some (coords (venue e)) ->
      nullish (latitudeOf ev) = false /\ nullish (longitudeOf ev) = false).
Proof.
  unfold normalizeEvent. intros H.
  destruct (member ev "priceRanges") as [pr|]; [|discriminate H]. cbn [obind] in H.
  destruct (classNames ev "segment") as [sg|]; [|discriminate H]. cbn [obind] in H.
  destruct (classNames ev "genre") as [ge|]; [|discriminate H]. cbn [obind] in H.
  destruct (pickImage _) as [img|]; [|discriminate H]. cbn [obind] in H.
  injection H as <-. cbn [venue coords]. unfold venueCoords.
  fold (latitudeOf ev). fold (longitudeOf ev).
  destruct (truthy (latitudeOf ev)) eqn:Ela, (truthy (longitudeOf ev)) eqn:Elo; cbn [andb].
  - split; [split; [auto|eauto]|]. split; [intros c [= <-]; auto|]. intros _. split.
    + destruct (latitudeOf ev); try reflexivity; discriminate Ela.
    + destruct (longitudeOf ev); try reflexivity; discriminate Elo.
  - split; [split; [intros [x Hx]|intros [_ Hx]]; discriminate Hx|].
    split; [intros c Hc|intros [x Hx]]; discriminate.
  - split; [split; [intros [x Hx]|intros [Hx _]]; discriminate Hx|].
    split; [intros c Hc|intros [x Hx]]; discriminate.
  - split; [split; [intros [x Hx]|intros [Hx _]]; discriminate Hx|].
    split; [intros c Hc|intros [x Hx]]; discriminate.
Qed.

Lemma coords_follow_truthiness_witness :
  exists e,
    normalizeEvent oddVenueEvent = Ok e
    /\ (is_Some (coords (venue e))
        <-> truthy (latitudeOf oddVenueEvent) = true
            /\ truthy (longitudeOf oddVenueEvent) = true)
    /\ (forall c, coords (venue e) = Some c ->
                  coords_lat c = toNumber (latitudeOf oddVenueEvent)
                  /\ coords_lng c = toNumber (longitudeOf oddVenueEvent))
    /\ (is_Some (coords (venue e)) ->
        nullish (latitudeOf oddVenueEvent) = false
        /\ nullish (longitudeOf oddVenueEvent) = false).
Proof.
  eexists. split; [vm_compute; reflexivity|].
  apply (coords_follow_truthiness oddVenueEvent). vm_compute. reflexivity.
Defined.

(* ================================================================== *)
(** ** C6: what the validator lets through *)

(** C6, at the failing input. [from=abc] passes the schema (any string
    does), [ymdToLocalStart] makes an Invalid Date of it, and
    [toISOString] throws a RangeError that nothing in the handler
    catches: the request ends in an exception, not in a 400. *)
Theorem unparsable_from_throws :
  serve utcHost (answering mid_june july4) {| searchParams := [("from", "abc")]%string |} ∅
  = (Raise RangeError, {| cache := ∅; calls := [] |}).
Proof. vm_compute. reflexivity. Qed.

(** The same on any machine with a credential, whatever its time zone
    and its cache. *)
Lemma unparsable_from_throws_anywhere h env c key :
  given (apiKey h) = Some key ->
  serve h env {| searchParams := [("from", "abc")]%string |} c
  = (Raise RangeError, {| cache := c; calls := [] |}).
Proof.
  intros K. apply served_serve.
  eapply served_bad_date; [exact K|vm_compute; reflexivity|reflexivity].
Qed.

(** The numeric fields are validated as the claim says: a value that
    does not coerce to a number ends the request with a 400 that names
    the field. *)
Lemma non_numeric_lat_is_rejected h env req c key v :
  given (apiKey h) = Some key ->
  URL.fromEntries (searchParams req) !! "lat"%string = Some v ->
  Num.isNaN (Num.of_string v) = true ->
  exists details,
    serve h env req c = (Return (json (InvalidQuery details) 400), {| cache := c; calls := [] |})
    /\ In ("lat"%string, Zod.invalid_type) details.
Proof.
  intros K V N.
  assert (QuerySchema.lat (Some v) = inl [Zod.invalid_type]) as L.
  { unfold QuerySchema.lat, Zod.optional, Zod.coerceNumber. now rewrite N. }
  assert (exists details,
             QuerySchema.safeParse (URL.fromEntries (searchParams req)) = inl details
             /\ In ("lat"%string, Zod.invalid_type) details) as (details & Q & I).
  { unfold QuerySchema.safeParse. rewrite V, L.
    destruct (QuerySchema.q _); eexists; (split; [reflexivity|]);
      cbn [Zod.issuesOf map app]; rewrite ?in_app_iff; cbn [In map]; auto. }
  exists details. split; [|exact I]. apply served_serve. eapply served_invalid; eauto.
Qed.

(* ================================================================== *)
(** * Further properties of the route *)

(** ** The date helpers *)

(** X1. [toIsoNoMs] and [Date.parse] round trip: for every time value
    [t] a Date can hold, the text [toIsoNoMs] writes reads back as [t]
    cut to the whole second, and writing that date again gives the same
    text.  Outside the range of time values the Date is invalid and
    [toIsoNoMs] throws a RangeError. *)
Theorem iso_text_reads_back h t :
  match toIsoNoMs (Date.TimeClip t) with
  | Ok s =>
      Z.abs t <= Date.maxTime
      /\ s = Str.text (isoNoMs t)
      /\ Date_parse h s = Some (t - t mod 1000)
      /\ toIsoNoMs (Date_parse h s) = Ok s
  | Throw err => err = RangeError /\ Date.maxTime < Z.abs t
  end.
Proof.
  unfold Date.TimeClip. destruct (Z.leb_spec (Z.abs t) Date.maxTime) as [Ht|Ht].
  - cbn [toIsoNoMs]. rewrite dropMs_toISOChars, Date_parse_isoNoMs by assumption.
    cbn [toIsoNoMs]. rewrite dropMs_toISOChars.
    repeat split; try assumption. do 2 f_equal. apply isoNoMs_same_second.
    Z.div_mod_to_equations. lia.
  - cbn [toIsoNoMs]. split; [reflexivity|assumption].
Qed.

(** X2. With no [to] (absent or empty) the window has no end, and with
    no [from] either it starts at the current instant cut to the whole
    second. *)
Theorem open_window_starts_now h env f t :
  given t = None ->
  (forall s e, resolveWindow h env f t = Ok (s, e) -> e = None)
  /\ (given f = None -> Z.abs (now_default env) <= Date.maxTime ->
      resolveWindow h env f t = Ok (Str.text (isoNoMs (now_default env)), None)).
Proof.
  intros Gt. unfold resolveWindow, endIsoFromYMD. rewrite Gt. split.
  - intros s e. destruct (startIsoFromYMD h env f) as [s0|]; [|discriminate].
    cbn [obind]. unfold orderWindow, capWindow. cbn [given]. now intros [= _ <-].
  - intros Gf Hn. unfold startIsoFromYMD, Date.TimeClip. rewrite Gf.
    destruct (Z.leb_spec (Z.abs (now_default env)) Date.maxTime); [|lia].
    cbn [toIsoNoMs obind]. now rewrite dropMs_toISOChars.
Qed.

Lemma open_window_starts_now_witness :
  given (Some ""%string) = None
  /\ ((forall s e, resolveWindow utcHost (answering mid_june july4) None (Some ""%string)
                   = Ok (s, e) -> e = None)
      /\ (given None = None -> Z.abs (now_default (answering mid_june july4)) <= Date.maxTime ->
          resolveWindow utcHost (answering mid_june july4) None (Some ""%string)
          = Ok (Str.text (isoNoMs (now_default (answering mid_june july4))), None))).
Proof.
  split; [reflexivity|].
  apply (open_window_starts_now utcHost (answering mid_june july4) None (Some ""%string)).
  reflexivity.
Defined.

(** A string of the shape [YYYY-MM-DD], as [ymdToLocal] reads it. *)
Lemma ymdToLocal_closed h s hh mi ss ms :
  isDateOnly (Str.chars s) = true ->
  exists y m d,
    Str.chars s = Str.pad 4 y ++ "-"%char :: Str.pad 2 m ++ "-"%char :: Str.pad 2 d
    /\ 0 <= y < 10000 /\ 0 <= m < 100 /\ 0 <= d < 100
    /\ ymdToLocal h s hh mi ss ms
       = let t := Date.MakeDate (Date.MakeDay (Date.MakeFullYear y) (m - 1) d)
                                (Date.MakeTime hh mi ss ms) in
         Date.TimeClip (t - localTZA h t).
Proof.
  intros Hs. apply isDateOnly_inv in Hs as (y & m & d & E & Hy & Hm & Hd).
  exists y, m, d. repeat (split; [assumption|]).
  unfold ymdToLocal, Str.split. rewrite E, split_date. cbn [map nth].
  unfold Num.of_string. rewrite !chars_text. unfold Date_local.
  rewrite (Number_pad4 y Hy). destruct (Number_pad2 m Hm) as [_ ->].
  destruct (Number_pad2 d Hd) as [-> _]. reflexivity.
Qed.

(** X3. A valid calendar date [YYYY-MM-DD] from the year 100 on, which
    [Date.parse] reads as the UTC midnight [u]: [ymdToLocalStart] is the
    same wall-clock midnight in the zone of the machine, [u] less the
    zone's offset there, [ymdToLocalEnd] is 23:59:59.999 of that day in
    the zone, and the filter counts an event that starts on that date
    at that last millisecond. *)
Theorem local_day_of_calendar_date h s u :
  zoneBounded h ->
  isDateOnly (Str.chars s) = true ->
  Date.isoParse (Str.chars s) = Some u ->
  Date.TimeFromYear 100 <= u ->
  ymdToLocalStart h s = Some (u - localTZA h u)
  /\ ymdToLocalEnd h s = Some (u + 86399999 - localTZA h (u + 86399999))
  /\ effectiveInstant h (VStr s) = Ok (Some (u + 86399999 - localTZA h (u + 86399999))).
Proof.
  intros Hz Hs Hp Hu.
  assert (forall hh mi ss ms, 0 <= Date.MakeTime hh mi ss ms < Date.msPerDay ->
            ymdToLocal h s hh mi ss ms
            = Some (u + Date.MakeTime hh mi ss ms
                    - localTZA h (u + Date.MakeTime hh mi ss ms))) as Hc.
  { intros hh mi ss ms Ht.
    destruct (ymdToLocal_closed h s hh mi ss ms Hs) as (y & m & d & E & Hy & Hm & Hd & ->).
    unfold Date.isoParse, Date.isoDateOf in Hp. rewrite E in Hp.
    pose proof (pad_digits 4 y) as Dy. pose proof (pad_length 4 y) as Ly.
    destruct (Str.pad 4 y) as [|c l] eqn:Ey; [discriminate Ly|].
    cbn [app] in Hp. rewrite isoYearOf_digits in Hp
      by (cbn in Dy; now apply andb_prop in Dy).
    change (c :: l ++ ?r) with ((c :: l) ++ r) in Hp. rewrite <- Ey in Hp.
    rewrite take_digits_pad in Hp by (change (10 ^ Z.of_nat 4) with 10000; lia).
    rewrite take_digits_pad in Hp by (change (10 ^ Z.of_nat 2) with 100; lia).
    rewrite <- (app_nil_r (Str.pad 2 d)) in Hp.
    rewrite take_digits_pad in Hp by (change (10 ^ Z.of_nat 2) with 100; lia).
    destruct ((1 <=? m) && (m <=? 12) && (1 <=? d) && (d <=? Date.DaysInMonth y (m - 1)))
      eqn:Ev; [|discriminate].
    apply TimeClip_Some in Hp as [-> _].
    apply andb_prop in Ev as [Ev Hd2]. apply andb_prop in Ev as [Ev Hd1].
    apply andb_prop in Ev as [Hm1 Hm2].
    apply Z.leb_le in Hm1, Hm2, Hd1, Hd2.
    assert (Date.DaysInMonth y (m - 1) <= 31) as Hdm.
    { unfold Date.DaysInMonth. pose proof (leapDays_range y).
      assert (m = 1 \/ m = 2 \/ m = 3 \/ m = 4 \/ m = 5 \/ m = 6 \/ m = 7 \/ m = 8
              \/ m = 9 \/ m = 10 \/ m = 11 \/ m = 12) as Hcase by lia.
      repeat (destruct Hcase as [-> | Hcase]; [simpl; lia|]). subst m. simpl; lia. }
    assert (100 <= y) as Hy100.
    { destruct (Z.le_gt_cases 100 y) as [|Hlt]; [assumption|exfalso].
      revert Hu. unfold Date.TimeFromYear, Date.MakeDate, Date.MakeDay.
      replace (y + (m - 1) / 12) with y by (Z.div_mod_to_equations; lia).
      replace ((m - 1) mod 12) with (m - 1) by (Z.div_mod_to_equations; lia).
      assert (Date.monthStart (Date.leapDays y) (m - 1) <= 334 + Date.leapDays y) as Hms.
      { pose proof (leapDays_range y).
        assert (m = 1 \/ m = 2 \/ m = 3 \/ m = 4 \/ m = 5 \/ m = 6 \/ m = 7 \/ m = 8
                \/ m = 9 \/ m = 10 \/ m = 11 \/ m = 12) as Hcase by lia.
        repeat (destruct Hcase as [-> | Hcase]; [simpl; lia|]). subst m. simpl; lia. }
      pose proof (DayFromYear_step y) as Hstep. unfold Date.leapDays in *.
      assert (Date.DayFromYear (y + 1) <= Date.DayFromYear 100) as Hmono
        by (unfold Date.DayFromYear; Z.div_mod_to_equations; lia).
      unfold Date.msPerDay. lia. }
    assert (Date.MakeFullYear y = y) as ->.
    { unfold Date.MakeFullYear. destruct (Z.leb_spec 0 y), (Z.leb_spec y 99); cbn [andb]; lia. }
    cbv zeta. unfold Date.MakeDate in *. rewrite ?Z.add_0_r in *.
    set (day := Date.MakeDay y (m - 1) d) in *.
    set (tm := Date.MakeTime hh mi ss ms) in *.
    assert (Z.abs (day * Date.msPerDay) <= 4000000 * Date.msPerDay) as Hb.
    { subst day. unfold Date.MakeDay.
      replace (y + (m - 1) / 12) with y by (Z.div_mod_to_equations; lia).
      replace ((m - 1) mod 12) with (m - 1) by (Z.div_mod_to_equations; lia).
      pose proof (monthStart_range (Date.leapDays y) (m - 1) (leapDays_range _)
                    ltac:(lia)) as Hms.
      assert (-700000 <= Date.DayFromYear y <= 3000000) as Hdy
        by (unfold Date.DayFromYear; Z.div_mod_to_equations; lia).
      unfold Date.msPerDay. lia. }
    specialize (Hz (day * Date.msPerDay + tm)).
    unfold Date.TimeClip.
    destruct (Z.leb_spec (Z.abs (day * Date.msPerDay + tm
                                 - localTZA h (day * Date.msPerDay + tm))) Date.maxTime)
      as [|Hn]; [reflexivity|].
    exfalso. unfold Date.msPerDay, Date.maxTime in *. lia. }
  pose proof (Hc 0 0 0 0 ltac:(cbv; split; congruence)) as H0.
  pose proof (Hc 23 59 59 999 ltac:(cbv; split; congruence)) as H1.
  change (Date.MakeTime 0 0 0 0) with 0 in H0. rewrite Z.add_0_r in H0.
  change (Date.MakeTime 23 59 59 999) with 86399999 in H1.
  split; [exact H0|]. split; [exact H1|].
  unfold effectiveInstant, toString. cbn [toChars]. rewrite text_chars.
  unfold Date_parse. rewrite Hp, Hs. now rewrite H1.
Qed.

Lemma local_day_of_calendar_date_witness :
  let h := {| apiKey := Some "demo-key"%string; localTZA := fun _ => -14400000;
              parseOther := fun _ => None |} in
  ymdToLocalStart h "2025-07-04" = Some (1751587200000 - localTZA h 1751587200000)
  /\ ymdToLocalEnd h "2025-07-04"
     = Some (1751587200000 + 86399999 - localTZA h (1751587200000 + 86399999))
  /\ effectiveInstant h (VStr "2025-07-04")
     = Ok (Some (1751587200000 + 86399999 - localTZA h (1751587200000 + 86399999))).
Proof.
  intros h.
  apply (local_day_of_calendar_date h "2025-07-04" 1751587200000).
  - intros t. cbn. unfold Date.msPerDay. lia.
  - reflexivity.
  - vm_compute. reflexivity.
  - vm_compute. congruence.
Defined.

(** ** The query schema *)


Lemma drop_ws_fixed l :
  match l with c :: _ => Str.is_ws c = false | [] => True end -> Str.drop_ws l = l.
Proof. destruct l as [|c l]; [reflexivity|]. cbn. now intros ->. Qed.

Lemma drop_ws_head l :
  match Str.drop_ws l with c :: _ => Str.is_ws c = false | [] => True end.
Proof.
  induction l as [|c l IH]; [exact I|]. cbn [Str.drop_ws].
  destruct (Str.is_ws c) eqn:E; [exact IH|exact E].
Qed.

Lemma drop_ws_suffix l : exists pre, l = pre ++ Str.drop_ws l.
Proof.
  induction l as [|c l [pre IH]]; [now exists []|]. cbn [Str.drop_ws].
  destruct (Str.is_ws c).
  - exists (c :: pre). cbn. now f_equal.
  - now exists [].
Qed.

(** Trimming twice is trimming once. *)
Lemma trim_chars_idem l : Str.trim_chars (Str.trim_chars l) = Str.trim_chars l.
Proof.
  unfold Str.trim_chars.
  set (l1 := Str.drop_ws l). set (r := Str.drop_ws (rev l1)).
  assert (Str.drop_ws (rev r) = rev r) as ->.
  { apply drop_ws_fixed. destruct (drop_ws_suffix (rev l1)) as [pre E]. fold r in E.
    apply (f_equal (@rev _)) in E. rewrite rev_involutive, rev_app_distr in E.
    pose proof (drop_ws_head l) as Hh. fold l1 in Hh. rewrite E in Hh.
    destruct (rev r); [exact I|exact Hh]. }
  rewrite rev_involutive. f_equal. apply drop_ws_fixed. apply drop_ws_head.
Qed.




(** ** The Ticketmaster query *)

(** X5. The parameters the route sends upstream: the key, the fixed size,
    sort and locale, the page, and the window's start always; the
    keyword only for a non-empty [q]; the end only when the window has
    one; [latlong], [radius] and [unit] only when both [lat] and [lng]
    are given (a [radius] alone is not sent), also when one of them is
    zero.  No name occurs twice. *)
Theorem upstream_query_parameters key query s e :
  let p := tmParams key query s e in
  let located := match lat query, lng query with Some _, Some _ => true | _, _ => false end in
  URL.get p "apikey" = Some key
  /\ URL.get p "size" = Some "100"%string
  /\ URL.get p "page" = Some (Num.to_string (page query))
  /\ URL.get p "sort" = Some "relevance,desc"%string
  /\ URL.get p "locale" = Some "*"%string
  /\ URL.get p "keyword" = given (q query)
  /\ URL.get p "latlong"
     = match lat query, lng query with
       | Some la, Some ln => Some (Num.to_string la +:+ "," +:+ Num.to_string ln)
       | _, _ => None
       end
  /\ URL.get p "radius" = (if located then Some (Num.to_string (radius query)) else None)
  /\ URL.get p "unit" = (if located then Some "km"%string else None)
  /\ URL.get p "startDateTime" = Some s
  /\ URL.get p "endDateTime" = given e
  /\ NoDup (map fst p).
Proof.
  unfold tmParams.
  destruct (given (q query)), (lat query), (lng query), (given e);
    cbv zeta; repeat (split; [reflexivity|]); cbn;
    repeat (apply NoDup_cons_2;
            [cbn; rewrite ?elem_of_cons, ?elem_of_nil; intuition discriminate|]);
    apply NoDup_nil_2.
Qed.

(** ** The handler *)

(** X6. Without a Ticketmaster key in the environment, unset or empty,
    every request is answered 500 with the same error, whatever its
    parameters: before validation, without reading the cache and without
    an upstream call. *)
Theorem missing_key_answers_500 h env req c :
  given (apiKey h) = None ->
  serve h env req c
  = (Return (json (ErrorBody "Missing TICKETMASTER_API_KEY") 500),
     {| cache := c; calls := [] |}).
Proof. intros K. apply served_serve. now apply served_no_key. Qed.

Lemma missing_key_answers_500_witness :
  let h := {| apiKey := Some ""%string; localTZA := fun _ => 0; parseOther := fun _ => None |} in
  let req := {| searchParams := [("lat", "north")]%string |} in
  serve h (answering mid_june july4) req ∅
  = (Return (json (ErrorBody "Missing TICKETMASTER_API_KEY") 500),
     {| cache := ∅; calls := [] |}).
Proof.
  intros h req. apply (missing_key_answers_500 h (answering mid_june july4) req ∅).
  reflexivity.
Defined.

(** X7. The status tells the kind of body: results and the debug answer
    always come with 200, a validation failure with 400, the missing key
    with 500, and the relayed upstream failure with the upstream's own
    status, which is never a 2xx. *)
Theorem status_matches_body h env req c resp :
  fst (serve h env req c) = Return resp ->
  match body resp with
  | DataBody _ | DebugBody _ _ _ => code resp = 200
  | InvalidQuery _ => code resp = 400
  | ErrorBody _ => code resp = 500
  | UpstreamFailed _ _ =>
      ~ successful (code resp)
      /\ exists url r, calls (snd (serve h env req c)) = [url]
                       /\ upstream env url = Some r /\ code resp = status r
  end.
Proof.
  pose proof (serve_served h env req c) as S.
  destruct (serve h env req c) as [st [c' l]]. cbn [fst snd cache calls] in *. intros ->.
  inversion S; subst; cbn [body code json]; try reflexivity.
  split.
  - unfold successful. match goal with H : ok _ = false |- _ => unfold ok in H end.
    destruct (Z.leb_spec 200 (status r)), (Z.leb_spec (status r) 299);
      try discriminate; lia.
  - eauto.
Qed.

Lemma status_matches_body_witness :
  let env := {| now_default := mid_june; now_lookup := mid_june; now_store := mid_june;
                upstream := fun _ => Some {| status := 429; payload := JsonBody VNull |} |} in
  exists resp,
    fst (serve utcHost env julyRequest ∅) = Return resp
    /\ match body resp with
       | DataBody _ | DebugBody _ _ _ => code resp = 200
       | InvalidQuery _ => code resp = 400
       | ErrorBody _ => code resp = 500
       | UpstreamFailed _ _ =>
           ~ successful (code resp)
           /\ exists url r, calls (snd (serve utcHost env julyRequest ∅)) = [url]
                            /\ upstream env url = Some r /\ code resp = status r
       end.
Proof.
  intros env. eexists. split; [vm_compute; reflexivity|].
  apply (status_matches_body utcHost env julyRequest ∅). vm_compute. reflexivity.
Defined.

(** X8. A request makes at most one upstream call, and only to the
    Ticketmaster events endpoint, with the configured key as the first
    parameter. *)
Theorem at_most_one_upstream_call h env req c :
  calls (snd (serve h env req c)) = []
  \/ exists key query s e rest,
       prepared h env req key query s e
       /\ calls (snd (serve h env req c)) = [tmUrlOf key query s e]
       /\ tmUrlOf key query s e
          = TM_BASE +:+ "?apikey=" +:+ Str.text (URL.encode key) +:+ "&" +:+ rest.
Proof.
  pose proof (serve_served h env req c) as S.
  destruct (serve h env req c) as [st [c' l]]. cbn [fst snd cache calls] in *.
  inversion S; subst; try (left; reflexivity); right;
    match goal with
    | P : prepared _ _ _ ?key ?query ?s ?e |- _ =>
        destruct (tmUrlOf_apikey key query s e) as [rest Hr];
        exists key, query, s, e, rest; auto
    end.
Qed.

(** ** The cache *)

Lemma serve_keeps_entries h env req c k :
  is_Some (c !! k) -> is_Some (cache (snd (serve h env req c)) !! k).
Proof.
  intros Hk. pose proof (serve_served h env req c) as S.
  destruct (serve h env req c) as [st [c' l]]. cbn [fst snd cache calls] in *.
  inversion S; subst; try exact Hk.
  destruct (flag req "nocache"); [exact Hk|].
  rewrite lookup_insert. destruct (decide (keyOf query s e = k)); [eauto|exact Hk].
Qed.

(** X9. The cache never forgets: through any run of requests, a key that
    has an entry keeps one.  Entries older than the TTL are not purged;
    they stay until a later answer for the same key overwrites them. *)
Theorem cache_never_forgets h reqs c k :
  is_Some (c !! k) -> is_Some (serveAll h reqs c !! k).
Proof.
  revert c. induction reqs as [|[env req] reqs IH]; intros c Hk; [exact Hk|].
  cbn [serveAll]. apply IH. now apply serve_keeps_entries.
Qed.

Lemma cache_never_forgets_witness :
  let c := cache (snd (serve utcHost (answering mid_june july4) julyRequest ∅)) in
  let later := answering (mid_june + 86400000) july4 in
  let k := keyOf (mkQuery None None None (Num.of_Z 25) (Some "2025-07-01"%string)
                    (Some "2025-07-31"%string) (Num.of_Z 0))
                 "2025-07-01T00:00:00Z" (Some "2025-07-31T23:59:59Z"%string) in
  is_Some (c !! k)
  /\ is_Some (serveAll utcHost [(later, {| searchParams := [] |}); (later, julyRequest)] c
                !! k).
Proof.
  intros c later k.
  assert (is_Some (c !! k)) as H by (vm_compute; eauto).
  split; [exact H|].
  exact (cache_never_forgets utcHost [(later, {| searchParams := [] |}); (later, julyRequest)]
           c k H).
Defined.

(** X10. The TTL is exclusive: an entry that is 300000 ms old or older
    is not served.  The request made for its key goes upstream, and when
    it is answered with results the entry is overwritten with them and
    the time of the store. *)
Theorem stale_entry_is_refetched h env req c key query s e entry :
  prepared h env req key query s e ->
  flag req "nocache" = false -> flag req "debug" = false ->
  c !! keyOf query s e = Some entry ->
  TTL_MS <= now_lookup env - ts entry ->
  calls (snd (serve h env req c)) = [tmUrlOf key query s e]
  /\ forall d code,
       fst (serve h env req c) = Return {| code := code; body := DataBody d |} ->
       cache (snd (serve h env req c))
       = <[keyOf query s e := {| ts := now_store env; data := d |}]> c.
Proof.
  intros P Hn Hd Hc Hage. pose proof (serve_served h env req c) as S.
  destruct (serve h env req c) as [st [c' l]]. cbn [fst snd cache calls] in *.
  assert (lookupHit false c (keyOf query s e) (now_lookup env) = None) as Hmiss.
  { unfold lookupHit. rewrite Hc. destruct (Z.ltb_spec (now_lookup env - ts entry) TTL_MS);
      [lia|reflexivity]. }
  inversion S; subst; same_request; try congruence;
    try (split; [reflexivity|intros d code' [=]]).
  rewrite Hn. subst. reflexivity.
Qed.

Lemma stale_entry_is_refetched_witness :
  let c := cache (snd (serve utcHost (answering mid_june july4) julyRequest ∅)) in
  let env := {| now_default := mid_june + 300000; now_lookup := mid_june + 300002;
                now_store := mid_june + 300004;
                upstream := fun _ => Some {| status := 200; payload := JsonBody july4 |} |} in
  let query := mkQuery None None None (Num.of_Z 25) (Some "2025-07-01"%string)
                 (Some "2025-07-31"%string) (Num.of_Z 0) in
  let s := "2025-07-01T00:00:00Z"%string in
  let e := Some "2025-07-31T23:59:59Z"%string in
  c !! keyOf query s e = Some {| ts := mid_june + 2; data := julyData |}
  /\ calls (snd (serve utcHost env julyRequest c)) = [tmUrlOf "demo-key" query s e]
  /\ forall d code,
       fst (serve utcHost env julyRequest c) = Return {| code := code; body := DataBody d |} ->
       cache (snd (serve utcHost env julyRequest c))
       = <[keyOf query s e := {| ts := now_store env; data := d |}]> c.
Proof.
  intros c env query s e.
  assert (c !! keyOf query s e = Some {| ts := mid_june + 2; data := julyData |}) as Hc
    by (vm_compute; reflexivity).
  split; [exact Hc|].
  apply (stale_entry_is_refetched utcHost env julyRequest c "demo-key" query s e
           {| ts := mid_june + 2; data := julyData |}).
  - split; vm_compute; reflexivity.
  - reflexivity.
  - reflexivity.
  - exact Hc.
  - vm_compute. congruence.
Defined.

(** ** Numbers in order *)

Lemma ltb_Fin m1 e1 m2 e2 k :
  k <= e1 -> k <= e2 ->
  Num.ltb (Num.Fin m1 e1) (Num.Fin m2 e2) = (m1 * 10 ^ (e1 - k) <? m2 * 10 ^ (e2 - k)).
Proof.
  intros H1 H2. unfold Num.ltb, Num.align.
  set (e := Z.min e1 e2).
  assert (k <= e) as He by (subst e; lia).
  replace (e1 - k) with ((e1 - e) + (e - k)) by lia.
  replace (e2 - k) with ((e2 - e) + (e - k)) by lia.
  rewrite !Z.pow_add_r by (subst e; lia).
  assert (0 < 10 ^ (e - k)) as Hp by (apply Z.pow_pos_nonneg; lia).
  set (a := m1 * 10 ^ (e1 - e)). set (b := m2 * 10 ^ (e2 - e)).
  rewrite !Z.mul_assoc. fold a b.
  destruct (Z.ltb_spec a b), (Z.ltb_spec (a * 10 ^ (e - k)) (b * 10 ^ (e - k)));
    try reflexivity; nia.
Qed.

Lemma ltb_irrefl x : Num.ltb x x = false.
Proof.
  destruct x as [| | |m e]; try reflexivity.
  rewrite (ltb_Fin m e m e e) by lia. apply Z.ltb_irrefl.
Qed.



(** The sign of a difference: [a - b > 0] exactly when [b < a]. *)
Lemma ltb_sub a b :
  Num.isNaN a = false -> Num.isNaN b = false ->
  Num.ltb (Num.Fin 0 0) (Num.sub a b) = Num.ltb b a.
Proof.
  destruct a as [| | |m1 e1], b as [| | |m2 e2]; try discriminate; try reflexivity.
  intros _ _. unfold Num.sub, Num.align. set (e := Z.min e1 e2).
  rewrite (ltb_Fin 0 0 _ e (Z.min 0 e)), (ltb_Fin m2 e2 m1 e1 e) by (subst e; lia).
  assert (0 < 10 ^ (e - Z.min 0 e)) as Hp by (apply Z.pow_pos_nonneg; lia).
  rewrite Z.mul_0_l.
  destruct (Z.ltb_spec 0 ((m1 * 10 ^ (e1 - e) - m2 * 10 ^ (e2 - e)) * 10 ^ (e - Z.min 0 e))),
    (Z.ltb_spec (m2 * 10 ^ (e2 - e)) (m1 * 10 ^ (e1 - e))); try reflexivity; nia.
Qed.

(** ** Sorting with a comparator that cannot throw *)

Section Arranged.
Context {A : Type} (behind : A -> A -> bool) (cmp : A -> A -> outcome Num.jsnum).

Lemma place_Permutation x l : Permutation (x :: l) (place behind x l).
Proof.
  induction l as [|y l IH]; cbn [place]; [reflexivity|].
  destruct (behind x y); [|reflexivity]. rewrite perm_swap. now constructor.
Qed.

Lemma arrange_Permutation l : Permutation l (arrange behind l).
Proof.
  induction l as [|x l IH]; cbn [arrange]; [reflexivity|].
  rewrite <- place_Permutation. now constructor.
Qed.

Lemma insert_place x l :
  (forall b, In b l -> exists c, cmp x b = Ok c /\ Num.ltb (Num.Fin 0 0) c = behind x b) ->
  insert cmp x l = Ok (place behind x l).
Proof.
  induction l as [|y l IH]; intros H; cbn [insert place]; [reflexivity|].
  destruct (H y (or_introl eq_refl)) as (c & -> & Hc). cbn [obind]. rewrite Hc.
  destruct (behind x y); [|reflexivity].
  rewrite IH by (intros b Hb; apply H; now right). reflexivity.
Qed.

(** The sort of the language is the insertion sort. *)
Lemma sort_arrange l : comparable behind cmp l -> sort cmp l = Ok (arrange behind l).
Proof.
  intros H. induction l as [|x l IH]; cbn [sort arrange]; [reflexivity|].
  rewrite IH by (intros a b Ha Hb; apply H; now right). cbn [obind].
  apply insert_place. intros b Hb. apply H; [now left|right].
  eapply Permutation_in; [symmetry; apply arrange_Permutation|exact Hb].
Qed.

(** Elements of which none goes behind another keep their order. *)
Lemma place_stable (p : A -> bool) x l :
  (forall a b, p a = true -> p b = true -> behind a b = false) ->
  List.filter p (place behind x l) = List.filter p (x :: l).
Proof.
  intros H. induction l as [|y l IH]; cbn [place]; [reflexivity|].
  destruct (behind x y) eqn:E; [|reflexivity].
  cbn [List.filter] in *. rewrite IH.
  destruct (p x) eqn:Px, (p y) eqn:Py; try reflexivity.
  now rewrite (H x y Px Py) in E.
Qed.

Lemma arrange_stable (p : A -> bool) l :
  (forall a b, p a = true -> p b = true -> behind a b = false) ->
  List.filter p (arrange behind l) = List.filter p l.
Proof.
  intros H. induction l as [|x l IH]; cbn [arrange]; [reflexivity|].
  rewrite place_stable by assumption. cbn [List.filter]. now rewrite IH.
Qed.

(** For a strict weak order on the elements in hand. *)
Context (good : A -> Prop).
Hypothesis behind_irrefl : forall a, behind a a = false.
Hypothesis behind_trans :
  forall a b c, behind a b = true -> behind b c = true -> behind a c = true.
Hypothesis behind_negtrans :
  forall a b c, good b -> behind a b = false -> behind b c = false -> behind a c = false.




End Arranged.



(** ** The window filter and the sort *)

Lemma ofilter_filter {A} (p : A -> outcome bool) l l' :
  ofilter p l = Ok l' ->
  l' = List.filter (fun x => match p x with Ok b => b | Throw _ => false end) l.
Proof.
  revert l'; induction l as [|x l IH]; cbn [ofilter List.filter]; intros l' H.
  - now injection H as <-.
  - destruct (p x) as [b|]; [|discriminate]. cbn [obind] in H.
    destruct (ofilter p l) as [r|]; [|discriminate]. cbn [obind] in H.
    injection H as <-. rewrite (IH r eq_refl). now destruct b.
Qed.

Lemma kept_parses h s e ev : kept h s e ev = true -> parsedStart h ev <> None.
Proof.
  unfold kept, keep, effectiveInstant, parsedStart.
  destruct (Date_parse h (toString (start ev))); [discriminate|].
  cbn [obind]. discriminate.
Qed.



(** The comparator of the route orders the events that parse by their
    parsed start. *)
Lemma byStart_comparable h l :
  Forall (fun ev => parsedStart h ev <> None) l ->
  comparable (ascendingBy (fun ev => numOfTime (parsedStart h ev))) (byStart h) l.
Proof.
  intros H a b Ha Hb. rewrite List.Forall_forall in H.
  pose proof (H a Ha) as Pa. pose proof (H b Hb) as Pb.
  unfold byStart, ascendingBy. fold (parsedStart h a) (parsedStart h b).
  destruct (parsedStart h a) eqn:Ea, (parsedStart h b) eqn:Eb; try congruence.
  eexists. split; [reflexivity|]. now apply ltb_sub.
Qed.

Lemma refilter_arrange h s e events filtered :
  refilter h s e events = Ok filtered ->
  filtered = arrange (ascendingBy (fun ev => numOfTime (parsedStart h ev)))
               (List.filter (kept h s e) events).
Proof.
  unfold refilter. destruct (ofilter _ events) as [k|] eqn:Ek; [|discriminate].
  cbn [obind]. intros Hs. apply ofilter_filter in Ek. fold (kept h s e) in Ek.
  change (fun x => match keep h (startMsOf h s) (endMsOf h e) x with
                   | Ok b => b | Throw _ => false end) with (kept h s e) in Ek.
  subst k. rewrite (sort_arrange (ascendingBy (fun ev => numOfTime (parsedStart h ev)))) in Hs.
  - now injection Hs as <-.
  - apply byStart_comparable. apply List.Forall_forall. intros ev Hev.
    apply filter_In in Hev as [_ Hk]. now apply kept_parses in Hk.
Qed.



(** X12. The sort is stable: the events whose starts parse as the same
    instant come out in the order upstream sent them. *)
Theorem equal_starts_keep_upstream_order h s e events filtered t :
  refilter h s e events = Ok filtered ->
  List.filter (startsAt h t) filtered
  = List.filter (startsAt h t) (List.filter (kept h s e) events).
Proof.
  intros Hr. apply refilter_arrange in Hr. subst filtered.
  apply arrange_stable. intros a b Ha Hb. unfold startsAt in Ha, Hb. unfold ascendingBy.
  destruct (parsedStart h a) as [pa|]; [|discriminate].
  destruct (parsedStart h b) as [pb|]; [|discriminate].
  apply Z.eqb_eq in Ha, Hb. subst. apply ltb_irrefl.
Qed.

Lemma equal_starts_keep_upstream_order_witness :
  let events := match normalize threeShows with Ok l => l | Throw _ => [] end in
  let s := "2025-07-01T00:00:00Z"%string in
  let filtered := match refilter utcHost s None events with Ok l => l | Throw _ => [] end in
  List.filter (startsAt utcHost 1751630400000) filtered
  = List.filter (startsAt utcHost 1751630400000) (List.filter (kept utcHost s None) events).
Proof.
  intros events s filtered.
  apply (equal_starts_keep_upstream_order utcHost s None events filtered 1751630400000).
  vm_compute. reflexivity.
Defined.

(** ** The normaliser *)

(** X13. An upstream answer that is 2xx JSON but holds no
    [_embedded.events] (an empty page, [{}], even [null]) is answered
    with 200 and an empty result list, and a payload without [page]
    gives page information of zeros. *)
Theorem no_events_gives_empty_results h env req c key query s e r raw :
  prepared h env req key query s e ->
  lookupHit (flag req "nocache") c (keyOf query s e) (now_lookup env) = None ->
  flag req "debug" = false ->
  upstream env (tmUrlOf key query s e) = Some r ->
  ok r = true -> body_json r = Ok raw ->
  nullish (prop (prop raw "_embedded") "events") = true ->
  fst (serve h env req c)
  = Return (json (DataBody {| results := []; pageInfo := pageInfoOf raw |}) 200)
  /\ (nullish (prop raw "page") = true ->
      pageInfoOf raw = {| pi_page := VNum (Num.of_Z 0); totalPages := VNum (Num.of_Z 0);
                          total := VNum (Num.of_Z 0) |}).
Proof.
  intros P Hm Hd Hu Hok Hj Hn. split.
  - assert (normalize raw = Ok []) as Hnorm.
    { unfold normalize. destruct (prop (prop raw "_embedded") "events"); try discriminate;
        reflexivity. }
    erewrite served_serve; [reflexivity|].
    eapply served_fresh; eauto.
  - intros Hp. unfold pageInfoOf. destruct (prop raw "page"); try discriminate; reflexivity.
Qed.

Lemma no_events_gives_empty_results_witness :
  let env := {| now_default := mid_june; now_lookup := mid_june; now_store := mid_june;
                upstream := fun _ => Some {| status := 200; payload := JsonBody VNull |} |} in
  fst (serve utcHost env julyRequest ∅)
  = Return (json (DataBody {| results := []; pageInfo := pageInfoOf VNull |}) 200)
  /\ (nullish (prop VNull "page") = true ->
      pageInfoOf VNull = {| pi_page := VNum (Num.of_Z 0); totalPages := VNum (Num.of_Z 0);
                            total := VNum (Num.of_Z 0) |}).
Proof.
  intros env.
  apply (no_events_gives_empty_results utcHost env julyRequest ∅ "demo-key"
           (mkQuery None None None (Num.of_Z 25) (Some "2025-07-01"%string)
              (Some "2025-07-31"%string) (Num.of_Z 0))
           "2025-07-01T00:00:00Z" (Some "2025-07-31T23:59:59Z"%string)
           {| status := 200; payload := JsonBody VNull |} VNull);
    try reflexivity.
  split; vm_compute; reflexivity.
Defined.

Lemma normalizeEvent_start raw ev :
  normalizeEvent raw = Ok ev ->
  start ev
  = coalesce (coalesce (prop (prop (prop raw "dates") "start") "dateTime")
                       (prop (prop (prop raw "dates") "start") "localDate"))
             (VStr "").
Proof.
  unfold normalizeEvent.
  destruct (member raw "priceRanges"); [|discriminate]. cbn [obind].
  destruct (classNames raw "segment"); [|discriminate]. cbn [obind].
  destruct (classNames raw "genre"); [|discriminate]. cbn [obind].
  destruct (pickImage (prop raw "images")); [|discriminate]. cbn [obind].
  now intros [= <-].
Qed.

(** X14. The start of a normalised event is the upstream [dateTime] when
    there is one, else the [localDate], else the empty string, and never
    [null] or [undefined].  An event with neither date gets the empty
    start, which no window keeps: on a machine where [Date.parse] of the
    empty string is NaN, as the language has it, such an event is never
    among the results. *)
Theorem undated_events_are_dropped h s e raw ev :
  parseOther h "" = None ->
  normalizeEvent raw = Ok ev ->
  nullish (start ev) = false
  /\ (nullish (prop (prop (prop raw "dates") "start") "dateTime") = true ->
      nullish (prop (prop (prop raw "dates") "start") "localDate") = true ->
      start ev = VStr ""
      /\ forall events filtered, refilter h s e events = Ok filtered -> ~ In ev filtered).
Proof.
  intros Hp Hn. apply normalizeEvent_start in Hn. split.
  - rewrite Hn. unfold coalesce at 1.
    destruct (nullish (coalesce _ _)) eqn:E; [reflexivity|exact E].
  - intros H1 H2. assert (start ev = VStr "") as Hs.
    { rewrite Hn. unfold coalesce. rewrite H1, H2. reflexivity. }
    split; [exact Hs|]. intros events filtered Hr Hin.
    apply refilter_arrange in Hr. subst filtered.
    eapply Permutation_in in Hin; [|symmetry; apply arrange_Permutation].
    apply filter_In in Hin as [_ Hk]. apply kept_parses in Hk. apply Hk.
    unfold parsedStart. rewrite Hs. unfold Date_parse. cbn. exact Hp.
Qed.

Lemma undated_events_are_dropped_witness :
  let raw := tmEvent "tba" (VObj []) [] in
  let ev := match normalizeEvent raw with Ok ev => ev | Throw _ => julyShow end in
  nullish (start ev) = false
  /\ (nullish (prop (prop (prop raw "dates") "start") "dateTime") = true ->
      nullish (prop (prop (prop raw "dates") "start") "localDate") = true ->
      start ev = VStr ""
      /\ forall events filtered,
           refilter utcHost "2025-07-01T00:00:00Z" None events = Ok filtered ->
           ~ In ev filtered).
Proof.
  intros raw ev.
  apply (undated_events_are_dropped utcHost "2025-07-01T00:00:00Z" None raw ev);
    reflexivity.
Defined.




(* ================================================================== *)
(** * The movie-search route *)






Lemma omap_Forall2 {A B} (f : A -> outcome B) l l' :
  omap f l = Ok l' -> Forall2 (fun x y => f x = Ok y) l l'.
Proof.
  revert l'; induction l as [|x l IH]; cbn [omap]; intros l' H.
  - injection H as <-. constructor.
  - destruct (f x) as [y|] eqn:Ey; [|discriminate]. cbn [obind] in H.
    destruct (omap f l) as [ys|]; [|discriminate]. cbn [obind] in H.
    injection H as <-. constructor; auto.
Qed.

(** X18. What the movie route returns on success: one movie per upstream
    record, in the upstream's order, with [id], [title], [release_date]
    and [poster_path] copied, and an [overview] that is never [null] or
    [undefined] (the empty string stands in).  A payload without
    [results] gives the empty list. *)
Theorem movies_follow_upstream_records apiKey upstream req resp :
  fst (TMDB.GET apiKey upstream req) = TMDB.Answer resp ->
  forall movies, TMDB.body resp = TMDB.Results movies ->
    TMDB.code resp = 200
    /\ (snd (TMDB.GET apiKey upstream req) = [] /\ movies = []
        \/ exists url r data records,
             snd (TMDB.GET apiKey upstream req) = [url]
             /\ upstream url = Some r /\ body_json r = Ok data
             /\ coalesce (prop data "results") (VArr []) = VArr records
             /\ Forall2 (fun (m : value) (movie : TMDB.Movie) =>
                           TMDB.id movie = prop m "id"
                           /\ TMDB.title movie = prop m "title"
                           /\ TMDB.overview movie = coalesce (prop m "overview") (VStr "")
                           /\ nullish (TMDB.overview movie) = false
                           /\ TMDB.release_date movie = prop m "release_date"
                           /\ TMDB.poster_path movie = prop m "poster_path")
                        records movies).
Proof.
  unfold TMDB.GET.
  destruct (negb (nonEmpty (TMDB.queryOf req))).
  { cbn. intros [= <-] movies [= <-]. auto. }
  destruct (given apiKey) as [key|]; [|cbn; intros [= <-] movies [=]].
  cbv zeta. destruct (upstream _) as [r|] eqn:Eu; [|discriminate].
  destruct (negb (ok r)); [cbn; intros [= <-] movies [=]|].
  destruct (body_json r) as [data|] eqn:Ej; [|discriminate]. cbn [obind].
  destruct (TMDB.normalize data) as [ms|] eqn:En; [|discriminate].
  cbn. intros [= <-] movies [= <-]. split; [reflexivity|]. right.
  unfold TMDB.normalize, member in En.
  destruct (nullish data); [discriminate|]. cbn [obind] in En.
  destruct (coalesce (prop data "results") (VArr [])) as [| | | | |records|] eqn:Ec;
    try discriminate.
  exists (TMDB.urlOf key (TMDB.queryOf req)), r, data, records.
  repeat (split; [reflexivity || assumption|]).
  apply omap_Forall2 in En. eapply Forall2_impl; [exact En|].
  intros m movie Hm. cbv beta in Hm. unfold TMDB.normalizeMovie, member in Hm.
  destruct (nullish m); [discriminate|]. cbn [obind] in Hm. injection Hm as <-.
  cbn. repeat split. unfold coalesce. destruct (nullish (prop m "overview")) eqn:E; [reflexivity|exact E].
Qed.

Lemma movies_follow_upstream_records_witness :
  let req := {| searchParams := [("q", "shrek")]%string |} in
  let up := fun _ : string =>
    Some {| status := 200; payload := JsonBody (VObj [("results", VArr [shrek])]%string) |} in
  exists resp movies,
    fst (TMDB.GET (Some "k3y"%string) up req) = TMDB.Answer resp
    /\ TMDB.body resp = TMDB.Results movies
    /\ TMDB.code resp = 200
    /\ (snd (TMDB.GET (Some "k3y"%string) up req) = [] /\ movies = []
        \/ exists url r data records,
             snd (TMDB.GET (Some "k3y"%string) up req) = [url]
             /\ up url = Some r /\ body_json r = Ok data
             /\ coalesce (prop data "results") (VArr []) = VArr records
             /\ Forall2 (fun (m : value) (movie : TMDB.Movie) =>
                           TMDB.id movie = prop m "id"
                           /\ TMDB.title movie = prop m "title"
                           /\ TMDB.overview movie = coalesce (prop m "overview") (VStr "")
                           /\ nullish (TMDB.overview movie) = false
                           /\ TMDB.release_date movie = prop m "release_date"
                           /\ TMDB.poster_path movie = prop m "poster_path")
                        records movies).
Proof.
  intros req up. do 2 eexists.
  split; [vm_compute; reflexivity|]. split; [reflexivity|].
  exact (movies_follow_upstream_records (Some "k3y"%string) up req _ eq_refl _ eq_refl).
Defined.

(* ================================================================== *)
(** * Query strings *)

Lemma decode_step c rest :
  Form.percentDecode (map (fun c => if Ascii.eqb c "+" then " "%char else c)
                          (URL.encodeChar c ++ rest))
  = c :: Form.percentDecode (map (fun c => if Ascii.eqb c "+" then " "%char else c) rest).
Proof. destruct c as [[] [] [] [] [] [] [] []]; reflexivity. Qed.

Lemma decode_encode s : asciiText s -> Form.decode (URL.encode s) = Some s.
Proof.
  unfold asciiText, Form.decode, URL.encode. intros H.
  assert (Form.percentDecode
            (map (fun c => if Ascii.eqb c "+" then " "%char else c)
                 (flat_map URL.encodeChar (Str.chars s))) = Str.chars s) as ->.
  { induction (Str.chars s) as [|c l IH]; [reflexivity|].
    cbn [flat_map]. rewrite decode_step. f_equal. apply IH.
    cbn [forallb] in H. now apply andb_prop in H. }
  now rewrite H, text_chars.
Qed.

Lemma encodeChar_free c :
  free "&" (URL.encodeChar c) /\ free "=" (URL.encodeChar c).
Proof. destruct c as [[] [] [] [] [] [] [] []]; split; reflexivity. Qed.

Lemma encode_free s : free "&" (URL.encode s) /\ free "=" (URL.encode s).
Proof.
  unfold URL.encode. induction (Str.chars s) as [|c l [IH1 IH2]]; [split; reflexivity|].
  cbn [flat_map]. destruct (encodeChar_free c). split; now apply free_app.
Qed.

Lemma span_free sep l rest :
  free sep l ->
  Str.span (fun c => negb (Ascii.eqb c sep)) (l ++ sep :: rest) = (l, sep :: rest).
Proof.
  unfold free. induction l as [|c l IH]; cbn [app Str.span forallb]; intros H.
  - now rewrite Ascii.eqb_refl.
  - apply andb_prop in H as [Hc Hl]. rewrite Hc, (IH Hl). reflexivity.
Qed.

Lemma pairOf_encode k v :
  asciiText k -> asciiText v ->
  Form.pairOf (URL.encode k ++ "="%char :: URL.encode v) = Some (k, v).
Proof.
  intros Hk Hv. unfold Form.pairOf.
  rewrite span_free by apply encode_free.
  now rewrite !decode_encode.
Qed.

Lemma joinWith_flat sep x (r : list (list ascii)) :
  joinWith sep (x :: r) = x ++ flat_map (fun s => sep :: s) r.
Proof.
  revert x. induction r as [|y r IH]; intros x.
  - cbn. now rewrite app_nil_r.
  - change (joinWith sep (x :: y :: r)) with (x ++ sep :: joinWith sep (y :: r)).
    rewrite IH. reflexivity.
Qed.

Lemma split_joinWith sep segs :
  segs <> [] -> Forall (free sep) segs ->
  Str.split_chars sep (joinWith sep segs) = segs.
Proof.
  destruct segs as [|x r]; [contradiction|]. intros _ H.
  apply Forall_cons in H as [Hx Hr].
  now rewrite joinWith_flat, split_chars_segments, split_chars_free.
Qed.

(** What [URLSearchParams.toString] writes, parsed. *)
Lemma parse_toString p :
  Forall (fun kv => asciiText (fst kv) /\ asciiText (snd kv)) p ->
  Form.parse (URL.toString p) = Some p.
Proof.
  intros H. unfold Form.parse, URL.toString. rewrite chars_text.
  destruct p as [|kv p]; [reflexivity|].
  rewrite split_joinWith.
  - induction H as [|[k v] l [Hk Hv] Hl IH]; [reflexivity|].
    cbn [map fst snd].
    destruct (URL.encode k ++ "="%char :: URL.encode v) eqn:E.
    { destruct (URL.encode k); discriminate. }
    cbn [List.filter map Form.collect]. rewrite <- E, pairOf_encode by assumption.
    now rewrite IH.
  - discriminate.
  - apply List.Forall_forall. intros seg Hin. apply in_map_iff in Hin as ([k v] & <- & _).
    cbn [fst snd]. apply free_app; [apply encode_free|].
    change ("="%char :: URL.encode v) with (["="%char] ++ URL.encode v).
    apply free_app; [reflexivity|apply encode_free].
Qed.

(** X19. A query string reads back as it was written: the parser of
    [searchParams] applied to what [URLSearchParams.toString] writes
    gives the same pairs, in the same order, whatever characters the
    names and the values hold (ASCII text: [&], [=], [+], [%], quotes,
    spaces and control characters included). *)
Theorem query_string_reads_back p :
  Forall (fun kv => asciiText (fst kv) /\ asciiText (snd kv)) p ->
  Form.parse (URL.toString p) = Some p.
Proof. exact (parse_toString p). Qed.

Lemma query_string_reads_back_witness :
  Form.parse (URL.toString [("q", "rock & roll = 100% + more"); ("from", "2025-07-01")]%string)
  = Some [("q", "rock & roll = 100% + more"); ("from", "2025-07-01")]%string.
Proof.
  apply (query_string_reads_back
           [("q", "rock & roll = 100% + more"); ("from", "2025-07-01")]%string).
  repeat constructor.
Defined.

(* ================================================================== *)
(** * The events page *)


(** X20. The radius field keeps the radius between 1 and 200: whatever
    number is typed, the new radius lies in [[1, 200]], and it is the
    number typed when that lies there (an empty field counts as 0 and
    gives 1).  Text that is no number is not clamped: the radius
    becomes NaN. *)
Theorem radius_is_clamped input :
  let typed := Num.of_string input in
  let r := EventsPage.clampRadius input in
  (Num.isNaN typed = true -> r = Num.NaN)
  /\ (Num.isNaN typed = false -> inRange 1 200 r)
  /\ (inRange 1 200 typed -> r = typed).
Proof.
  cbv zeta. unfold EventsPage.clampRadius.
  destruct (Num.of_string input) as [| | |m e] eqn:E; cbn [Num.isNaN].
  - split; [reflexivity|]. split; [discriminate|reflexivity].
  - split; [discriminate|]. split.
    + intros _. exists 200, 0. split; [reflexivity|]. cbv. split; congruence.
    + intros (m & e & H & _). discriminate.
  - split; [discriminate|]. split.
    + intros _. exists 1, 0. split; [reflexivity|]. cbv. split; congruence.
    + intros (m & e & H & _). discriminate.
  - split; [discriminate|].
    assert (forall lo, Num.ltb (Num.Fin m e) (Num.of_Z lo)
                       = (m * 10 ^ Z.max 0 e <? lo * 10 ^ Z.max 0 (- e))) as L1.
    { intros lo. unfold Num.of_Z. rewrite (ltb_Fin m e lo 0 (Z.min 0 e)) by lia.
      destruct (Z.le_gt_cases 0 e).
      - rewrite Z.min_l, (Z.max_r 0 e), (Z.max_l 0 (- e)) by lia.
        now rewrite !Z.sub_0_r.
      - rewrite Z.min_r, (Z.max_l 0 e), (Z.max_r 0 (- e)) by lia.
        now rewrite Z.sub_diag, Z.sub_0_l. }
    assert (forall hi, Num.ltb (Num.of_Z hi) (Num.Fin m e)
                       = (hi * 10 ^ Z.max 0 (- e) <? m * 10 ^ Z.max 0 e)) as L2.
    { intros hi. unfold Num.of_Z. rewrite (ltb_Fin hi 0 m e (Z.min 0 e)) by lia.
      destruct (Z.le_gt_cases 0 e).
      - rewrite Z.min_l, (Z.max_r 0 e), (Z.max_l 0 (- e)) by lia.
        now rewrite !Z.sub_0_r.
      - rewrite Z.min_r, (Z.max_l 0 e), (Z.max_r 0 (- e)) by lia.
        now rewrite Z.sub_diag, Z.sub_0_l. }
    rewrite L1, L2.
    destruct (Z.ltb_spec (m * 10 ^ Z.max 0 e) (1 * 10 ^ Z.max 0 (- e))) as [H1|H1];
      [|destruct (Z.ltb_spec (200 * 10 ^ Z.max 0 (- e)) (m * 10 ^ Z.max 0 e)) as [H2|H2]].
    + split.
      * intros _. exists 1, 0. split; [reflexivity|]. cbv. split; congruence.
      * intros (m' & e' & [= <- <-] & Hlo & _). lia.
    + split.
      * intros _. exists 200, 0. split; [reflexivity|]. cbv. split; congruence.
      * intros (m' & e' & [= <- <-] & _ & Hhi). lia.
    + split; [|reflexivity]. intros _. exists m, e. split; [reflexivity|]. lia.
Qed.

Lemma shown_nonempty m : EventsPage.shown m <> ""%string.
Proof. unfold EventsPage.shown. destruct m; cbn; discriminate. Qed.

(** X21. However the request of [search] settles, the page stops
    loading.  An aborted request leaves no error and the list as it was;
    every failure (no network, a body that is not JSON, a reply that is
    not ok, a payload that cannot be listed) shows an error that is
    never the empty text, and leaves the list as it was; with no error
    and no abort, the list is the reply's results, sorted by price. *)
Theorem search_settles typeError v s :
  let v' := EventsPage.search typeError v s in
  EventsPage.loading v' = false
  /\ (s = EventsPage.Aborted ->
      EventsPage.error v' = None /\ EventsPage.events v' = EventsPage.events v)
  /\ (forall m, EventsPage.error v' = Some m ->
                m <> ""%string /\ EventsPage.events v' = EventsPage.events v)
  /\ (EventsPage.error v' = None -> s <> EventsPage.Aborted ->
      exists json, s = EventsPage.Replied true json
                   /\ EventsPage.sortedResults json = Ok (EventsPage.events v')).
Proof.
  cbv zeta. destruct s as [|m|m|[] json]; cbn [EventsPage.search].
  - cbn. repeat split; try discriminate; congruence.
  - cbn. repeat split; try discriminate.
    + injection H as <-. apply shown_nonempty.
  - cbn. repeat split; try discriminate.
    + injection H as <-. apply shown_nonempty.
  - destruct (EventsPage.sortedResults json) as [sorted|] eqn:E; cbn.
    + repeat split; try discriminate. eauto.
    + repeat split; try discriminate.
      injection H as <-. apply shown_nonempty.
  - cbn. repeat split; try discriminate.
    + injection H as <-. apply shown_nonempty.
Qed.




Lemma sameValueZero_sym a b : EventsPage.sameValueZero a b = EventsPage.sameValueZero b a.
Proof.
  destruct a, b; cbn; try reflexivity.
  - now destruct b, b0.
  - destruct (Num.isNaN n), (Num.isNaN n0), (Num.ltb n n0), (Num.ltb n0 n); reflexivity.
  - apply String.eqb_sym.
Qed.

(** Equal values are truthy together. *)
Lemma sameValueZero_truthy a b :
  EventsPage.sameValueZero a b = true -> truthy a = truthy b.
Proof.
  destruct a, b; cbn; try discriminate; try reflexivity.
  - intros H. apply Bool.eqb_prop in H. now subst.
  - destruct (Num.isNaN n) eqn:En, (Num.isNaN n0) eqn:En0; cbn; try discriminate;
      [reflexivity|].
    intros H. apply andb_prop in H as [H1 H2]. apply negb_true_iff in H1, H2.
    destruct n as [| | |m e], n0 as [| | |m0 e0]; try discriminate; try reflexivity.
    rewrite (ltb_Fin m e m0 e0 (Z.min e e0)) in H1 by lia.
    rewrite (ltb_Fin m0 e0 m e (Z.min e e0)) in H2 by lia.
    apply Z.ltb_ge in H1, H2.
    assert (0 < 10 ^ (e - Z.min e e0)) by (apply Z.pow_pos_nonneg; lia).
    assert (0 < 10 ^ (e0 - Z.min e e0)) by (apply Z.pow_pos_nonneg; lia).
    cbn. destruct m, m0; try reflexivity; exfalso; nia.
  - intros H. apply String.eqb_eq in H. now subst.
Qed.

Lemma distinct_spec seen l :
  Forall (fun c => In c l /\ existsb (EventsPage.sameValueZero c) seen = false)
         (EventsPage.distinct seen l)
  /\ ForallOrdPairs (fun x y => EventsPage.sameValueZero x y = false)
                    (EventsPage.distinct seen l)
  /\ forall c, In c l ->
       existsb (EventsPage.sameValueZero c) seen = true
       \/ In c (EventsPage.distinct seen l)
       \/ exists c', In c' (EventsPage.distinct seen l)
                     /\ EventsPage.sameValueZero c c' = true.
Proof.
  revert seen. induction l as [|x r IH]; intros seen; cbn [EventsPage.distinct].
  - repeat split; [constructor|constructor|intros c []].
  - destruct (existsb (EventsPage.sameValueZero x) seen) eqn:Ex.
    + destruct (IH seen) as (H1 & H2 & H3). split; [|split].
      * eapply List.Forall_impl; [|exact H1]. intros c [Hc Hs]. split; [now right|exact Hs].
      * exact H2.
      * intros c [<-|Hc]; [now left|apply H3, Hc].
    + destruct (IH (x :: seen)) as (H1 & H2 & H3). split; [|split].
      * constructor; [split; [now left|exact Ex]|].
        eapply List.Forall_impl; [|exact H1]. intros c [Hc Hs]. split; [now right|].
        cbn [existsb] in Hs. now apply orb_false_elim in Hs as [_ Hs].
      * constructor; [|exact H2].
        eapply List.Forall_impl; [|exact H1]. intros c [_ Hs]. cbv beta.
        cbn [existsb] in Hs. apply orb_false_elim in Hs as [Hs _].
        now rewrite sameValueZero_sym.
      * intros c [<-|Hc]; [right; left; now left|].
        destruct (H3 c Hc) as [Hs|[Hin|(c' & Hc' & Hs)]].
        -- cbn [existsb] in Hs. apply orb_prop in Hs as [Hs|Hs]; [|now left].
           right. right. exists x. split; [now left|exact Hs].
        -- right. left. now right.
        -- right. right. exists c'. split; [now right|exact Hs].
Qed.

Lemma ForallOrdPairs_filter {A} (R : A -> A -> Prop) (p : A -> bool) l :
  ForallOrdPairs R l -> ForallOrdPairs R (List.filter p l).
Proof.
  induction 1 as [|x l Hx Hl IH]; cbn [List.filter]; [constructor|].
  destruct (p x); [|exact IH]. constructor; [|exact IH].
  apply List.Forall_forall. intros y Hy. apply filter_In in Hy as [Hy _].
  rewrite List.Forall_forall in Hx. now apply Hx.
Qed.

Lemma firstn_In {A} n (l : list A) x : In x (firstn n l) -> In x l.
Proof.
  revert n. induction l as [|y l IH]; intros [|n]; cbn [firstn]; try intros [].
  - now left.
  - right. now apply (IH n).
Qed.

Lemma ForallOrdPairs_firstn {A} (R : A -> A -> Prop) n l :
  ForallOrdPairs R l -> ForallOrdPairs R (firstn n l).
Proof.
  intros H. revert n. induction H as [|x l Hx Hl IH]; intros [|n]; cbn [firstn];
    try constructor; [|apply IH].
  apply List.Forall_forall. intros y Hy. apply firstn_In in Hy.
  rewrite List.Forall_forall in Hx. now apply Hx.
Qed.

(** X23. The badges of a card: at most two, each a category of the event
    that is not empty, and no two of them equal.  When fewer than two
    are shown, none is held back: every category that is not empty is
    one of the badges, or equal to one. *)
Theorem badges_are_two_distinct_categories categories :
  let shownBadges := EventsPage.badges categories in
  (length shownBadges <= 2)%nat
  /\ Forall (fun c => In c categories /\ truthy c = true) shownBadges
  /\ ForallOrdPairs (fun x y => EventsPage.sameValueZero x y = false) shownBadges
  /\ ((length shownBadges < 2)%nat ->
      forall c, In c categories -> truthy c = true ->
        In c shownBadges
        \/ exists c', In c' shownBadges /\ EventsPage.sameValueZero c c' = true).
Proof.
  cbv zeta. unfold EventsPage.badges.
  destruct (distinct_spec [] categories) as (H1 & H2 & H3).
  set (d := EventsPage.distinct [] categories) in *.
  split; [apply firstn_le_length|]. split; [|split].
  - apply List.Forall_forall. intros c Hc. apply firstn_In in Hc.
    apply filter_In in Hc as [Hc Ht]. rewrite List.Forall_forall in H1.
    split; [now apply H1|exact Ht].
  - now apply ForallOrdPairs_firstn, ForallOrdPairs_filter.
  - intros Hlen c Hc Ht.
    assert (firstn 2 (List.filter truthy d) = List.filter truthy d) as ->.
    { apply firstn_all2. rewrite length_firstn in Hlen. lia. }
    destruct (H3 c Hc) as [Hs|[Hin|(c' & Hc' & Hs)]]; [discriminate| |].
    + left. apply filter_In. auto.
    + right. exists c'. split; [|exact Hs]. apply filter_In. split; [exact Hc'|].
      now rewrite <- (sameValueZero_truthy c c' Hs).
Qed.

(** ** What the page sends *)

Section Every.
Context (P : ascii -> bool).

Lemma every_rev l : forallb P l = true -> forallb P (rev l) = true.
Proof.
  induction l as [|c l IH]; cbn; [reflexivity|].
  intros H. apply andb_prop in H as [Hc Hl].
  rewrite forallb_app, IH by assumption. cbn. now rewrite Hc.
Qed.

Lemma every_firstn n l : forallb P l = true -> forallb P (firstn n l) = true.
Proof.
  revert l; induction n as [|n IH]; intros [|c l]; cbn; try reflexivity.
  intros H. apply andb_prop in H as [Hc Hl]. now rewrite Hc, IH.
Qed.

Lemma every_skipn n l : forallb P l = true -> forallb P (skipn n l) = true.
Proof.
  revert l; induction n as [|n IH]; intros [|c l]; cbn; try reflexivity; auto.
  intros H. apply andb_prop in H as [Hc Hl]. now apply IH.
Qed.

Lemma every_repeat c n : P c = true -> forallb P (repeat c n) = true.
Proof. intros H. induction n; cbn; [reflexivity|]. now rewrite H. Qed.

Lemma every_span (p : ascii -> bool) l :
  forallb P l = true ->
  forallb P (fst (Str.span p l)) = true /\ forallb P (snd (Str.span p l)) = true.
Proof.
  induction l as [|c l IH]; cbn; [auto|].
  intros H. pose proof H as H'. apply andb_prop in H as [Hc Hl].
  destruct (p c); [|cbn; auto].
  destruct (Str.span p l) as [a b]. cbn in *. rewrite Hc. destruct (IH Hl). auto.
Qed.

Lemma every_drop_ws l : forallb P l = true -> forallb P (Str.drop_ws l) = true.
Proof.
  induction l as [|c l IH]; cbn; [reflexivity|].
  intros H. destruct (Str.is_ws c); [|exact H]. apply andb_prop in H as [_ Hl]. auto.
Qed.

Lemma every_trim l : forallb P l = true -> forallb P (Str.trim_chars l) = true.
Proof. intros H. unfold Str.trim_chars. now apply every_rev, every_drop_ws, every_rev, every_drop_ws. Qed.

End Every.

Lemma digit_isAscii c : Str.is_digit c = true -> Form.isAscii c = true.
Proof. destruct c as [[] [] [] [] [] [] [] []]; intros H; try discriminate H; reflexivity. Qed.

Lemma digits_isAscii l : forallb Str.is_digit l = true -> forallb Form.isAscii l = true.
Proof.
  induction l as [|c l IH]; cbn; [reflexivity|].
  intros H. apply andb_prop in H as [Hc Hl]. now rewrite digit_isAscii, IH.
Qed.

Lemma of_Z_isAscii z : forallb Form.isAscii (Str.of_Z z) = true.
Proof.
  destruct z; cbn [Str.of_Z]; [reflexivity|apply digits_isAscii, of_N_digits|].
  cbn [forallb]. now rewrite digits_isAscii by apply of_N_digits.
Qed.

(** A number is written in ASCII. *)
Lemma to_chars_isAscii x : forallb Form.isAscii (Num.to_chars x) = true.
Proof.
  destruct x as [| | |m e]; try reflexivity.
  unfold Num.to_chars. destruct (m =? 0); [reflexivity|].
  assert (forallb Form.isAscii (fst (Num.strip_zeros (Str.of_Z (Z.abs m)))) = true) as Hds.
  { unfold Num.strip_zeros.
    pose proof (every_span Form.isAscii (Ascii.eqb "0") (rev (Str.of_Z (Z.abs m)))
                  (every_rev _ _ (of_Z_isAscii _))) as [_ H2].
    destruct (Str.span _ _) as [a b]. cbn in *. now apply every_rev. }
  destruct (Num.strip_zeros (Str.of_Z (Z.abs m))) as [ds z]. cbn [fst] in Hds.
  rewrite forallb_app. apply andb_true_intro. split; [destruct (m <? 0); reflexivity|].
  repeat match goal with |- context [if ?b then _ else _] => destruct b end.
  - rewrite forallb_app, Hds. now apply every_repeat.
  - rewrite forallb_app, every_firstn by assumption. cbn [forallb].
    now rewrite every_skipn.
  - cbn [forallb]. rewrite forallb_app, Hds, every_repeat; reflexivity.
  - destruct ds as [|d [|d' rest]]; [reflexivity| |]; cbn [forallb] in *;
      rewrite ?forallb_app; cbn [forallb]; rewrite ?of_Z_isAscii;
      repeat match goal with
             | H : _ && _ = true |- _ => apply andb_prop in H as [? ?]
             end;
      repeat (apply andb_true_intro; split); auto.
  - destruct ds as [|d [|d' rest]]; [reflexivity| |]; cbn [forallb] in *;
      rewrite ?forallb_app; cbn [forallb]; rewrite ?of_Z_isAscii;
      repeat match goal with
             | H : _ && _ = true |- _ => apply andb_prop in H as [? ?]
             end;
      repeat (apply andb_true_intro; split); auto.
Qed.

Lemma to_string_ascii x : asciiText (Num.to_string x).
Proof. unfold asciiText, Num.to_string. rewrite chars_text. apply to_chars_isAscii. Qed.

Lemma trim_ascii s : asciiText s -> asciiText (Str.trim s).
Proof. unfold asciiText, Str.trim. rewrite chars_text. apply every_trim. Qed.

(** X24. The request of the events page, as the route reads it: the
    form parser gives back the pairs the page set, each name once.  The
    keyword goes out trimmed, and only when it is not blank; the centre
    and the radius always; [from] and [to] only when set, as they were
    typed.  (The keyword and the dates are ASCII text.) *)
Theorem page_request_reaches_the_route f :
  asciiText (EventsPage.q f) -> asciiText (EventsPage.from f) -> asciiText (EventsPage.to f) ->
  let p := EventsPage.params f in
  Form.parse (EventsPage.queryString f) = Some p
  /\ NoDup (map fst p)
  /\ URL.get p "q" = given (Some (Str.trim (EventsPage.q f)))
  /\ URL.get p "lat" = Some (Num.to_string (EventsPage.center_lat f))
  /\ URL.get p "lng" = Some (Num.to_string (EventsPage.center_lng f))
  /\ URL.get p "radius" = Some (Num.to_string (EventsPage.radius f))
  /\ URL.get p "from" = given (Some (EventsPage.from f))
  /\ URL.get p "to" = given (Some (EventsPage.to f)).
Proof.
  intros Hq Hf Ht. cbv zeta. split.
  - apply parse_toString. unfold EventsPage.params.
    pose proof (trim_ascii _ Hq) as Hq'.
    pose proof (to_string_ascii (EventsPage.center_lat f)).
    pose proof (to_string_ascii (EventsPage.center_lng f)).
    pose proof (to_string_ascii (EventsPage.radius f)).
    destruct (nonEmpty (Str.trim (EventsPage.q f))), (nonEmpty (EventsPage.from f)),
      (nonEmpty (EventsPage.to f)); cbn;
      repeat (constructor; [split; cbn [fst snd]; (assumption || reflexivity)|]);
      constructor.
  - unfold EventsPage.params, given.
    destruct (nonEmpty (Str.trim (EventsPage.q f))), (nonEmpty (EventsPage.from f)),
      (nonEmpty (EventsPage.to f)); cbn;
      (split; [repeat (apply NoDup_cons_2;
                       [cbn; rewrite ?elem_of_cons, ?elem_of_nil; intuition discriminate|]);
               apply NoDup_nil_2|]);
      repeat split; reflexivity.
Qed.

Lemma page_request_reaches_the_route_witness :
  let f := {| EventsPage.q := " jazz & blues "; EventsPage.from := "2025-07-01";
              EventsPage.to := ""; EventsPage.radius := Num.of_Z 25;
              EventsPage.center_lat := Num.Fin 436532 (-4);
              EventsPage.center_lng := Num.Fin (-793832) (-4) |} in
  EventsPage.queryString f
  = "q=jazz+%26+blues&lat=43.6532&lng=-79.3832&radius=25&from=2025-07-01"%string
  /\ Form.parse (EventsPage.queryString f) = Some (EventsPage.params f)
  /\ NoDup (map fst (EventsPage.params f))
  /\ URL.get (EventsPage.params f) "q" = given (Some (Str.trim (EventsPage.q f)))
  /\ URL.get (EventsPage.params f) "lat" = Some (Num.to_string (EventsPage.center_lat f))
  /\ URL.get (EventsPage.params f) "lng" = Some (Num.to_string (EventsPage.center_lng f))
  /\ URL.get (EventsPage.params f) "radius" = Some (Num.to_string (EventsPage.radius f))
  /\ URL.get (EventsPage.params f) "from" = given (Some (EventsPage.from f))
  /\ URL.get (EventsPage.params f) "to" = given (Some (EventsPage.to f)).
Proof.
  intros f. split; [vm_compute; reflexivity|].
  apply (page_request_reaches_the_route f); reflexivity.
Defined.

(* ================================================================== *)
(** * The home page and the movie route *)

Lemma uri_decode_step c rest :
  Form.isAscii c = true ->
  Form.percentDecode (map (fun c => if Ascii.eqb c "+" then " "%char else c)
                          (TMDB.encodeChar c ++ rest))
  = c :: Form.percentDecode (map (fun c => if Ascii.eqb c "+" then " "%char else c) rest).
Proof. destruct c as [[] [] [] [] [] [] [] []]; intros H; try discriminate H; reflexivity. Qed.

Lemma uri_decode_encode s :
  asciiText s -> Form.decode (TMDB.encodeURIComponent s) = Some s.
Proof.
  unfold asciiText, Form.decode, TMDB.encodeURIComponent. intros H.
  assert (Form.percentDecode
            (map (fun c => if Ascii.eqb c "+" then " "%char else c)
                 (flat_map TMDB.encodeChar (Str.chars s))) = Str.chars s) as ->.
  { induction (Str.chars s) as [|c l IH]; [reflexivity|].
    cbn [forallb] in H. apply andb_prop in H as [Hc Hl].
    cbn [flat_map]. rewrite uri_decode_step by assumption. f_equal. now apply IH. }
  now rewrite H, text_chars.
Qed.

Lemma uri_encodeChar_free c :
  free "&" (TMDB.encodeChar c) /\ free "=" (TMDB.encodeChar c).
Proof. destruct c as [[] [] [] [] [] [] [] []]; split; reflexivity. Qed.

Lemma uri_encode_free s :
  free "&" (TMDB.encodeURIComponent s) /\ free "=" (TMDB.encodeURIComponent s).
Proof.
  unfold TMDB.encodeURIComponent.
  induction (Str.chars s) as [|c l [IH1 IH2]]; [split; reflexivity|].
  cbn [flat_map]. destruct (uri_encodeChar_free c). split; now apply free_app.
Qed.

(** X25. What is typed on the home page reaches the movie route as it
    was typed: the route reads the query string the page builds as the
    one parameter [q] with the text of the field, whatever characters
    that holds (ASCII text).  The route then trims it; with a key it
    calls TMDB once with the trimmed text, and for a blank text not at
    all. *)
Theorem home_search_reaches_tmdb q apiKey upstream key :
  asciiText q -> given apiKey = Some key ->
  Form.parse (HomePage.queryString q) = Some [("q"%string, q)]
  /\ snd (TMDB.GET apiKey upstream {| searchParams := [("q"%string, q)] |})
     = (if nonEmpty (Str.trim q) then [TMDB.urlOf key (Str.trim q)] else []).
Proof.
  intros Hq Hk. split.
  - unfold Form.parse, HomePage.queryString. rewrite chars_text.
    rewrite split_chars_free.
    + cbn [List.filter app Str.chars list_ascii_of_string map Form.collect].
      unfold Form.pairOf.
      change ("q"%char :: "="%char :: ?l) with (["q"%char] ++ "="%char :: l).
      rewrite span_free by reflexivity.
      rewrite uri_decode_encode by assumption. reflexivity.
    + apply free_app; [reflexivity|apply uri_encode_free].
  - unfold TMDB.GET, TMDB.queryOf. cbn [searchParams URL.get String.eqb Ascii.eqb Bool.eqb].
    rewrite Hk. destruct (nonEmpty (Str.trim q)); [|reflexivity]. cbn [negb].
    destruct (upstream _) as [r|]; [|reflexivity].
    destruct (negb (ok r)); [reflexivity|]. destruct (obind _ _); reflexivity.
Qed.

Lemma home_search_reaches_tmdb_witness :
  let up := fun _ : string => Some {| status := 200; payload := JsonBody (VObj []) |} in
  Form.parse (HomePage.queryString " tom & jerry ") = Some [("q", " tom & jerry ")]%string
  /\ snd (TMDB.GET (Some "k3y"%string) up {| searchParams := [("q", " tom & jerry ")]%string |})
     = (if nonEmpty (Str.trim " tom & jerry ")
        then [TMDB.urlOf "k3y" (Str.trim " tom & jerry ")] else []).
Proof.
  intros up.
  exact (home_search_reaches_tmdb " tom & jerry " (Some "k3y"%string) up "k3y"
           eq_refl eq_refl).
Defined.

(* ================================================================== *)
(** * The earlier choice of image *)

Lemma abs_isNaN x : Num.isNaN (Earlier.abs x) = Num.isNaN x.
Proof. now destruct x. Qed.




(* ================================================================== *)
(** * The cache key *)

(** X27. The cache key tells the window: two requests that passed
    validation and date normalisation and have the same key have the
    same resolved window, start and end.  An entry stored for one window
    is never looked up for another. *)
Theorem same_key_same_window h env1 req1 key1 query1 s1 e1 env2 req2 key2 query2 s2 e2 :
  prepared h env1 req1 key1 query1 s1 e1 ->
  prepared h env2 req2 key2 query2 s2 e2 ->
  keyOf query1 s1 e1 = keyOf query2 s2 e2 ->
  s1 = s2 /\ e1 = e2.
Proof.
  intros P1 P2 Hk.
  destruct (prepared_window _ _ _ _ _ _ _ P1) as [[t1 Hs1] He1].
  destruct (prepared_window _ _ _ _ _ _ _ P2) as [[t2 Hs2] He2].
  unfold keyOf in Hk. eapply cacheKeyOf_window; [| | | |exact Hk].
  - eapply isoText_plain; eauto.
  - intros x ->. destruct (He1 x eq_refl). eapply isoText_plain; eauto.
  - eapply isoText_plain; eauto.
  - intros x ->. destruct (He2 x eq_refl). eapply isoText_plain; eauto.
Qed.

Lemma same_key_same_window_witness :
  let query := mkQuery None None None (Num.of_Z 25) (Some "2025-07-01"%string)
                 (Some "2025-07-31"%string) (Num.of_Z 0) in
  let s := "2025-07-01T00:00:00Z"%string in
  let e := Some "2025-07-31T23:59:59Z"%string in
  let again := {| searchParams := [("to", "2025-07-31"); ("from", "2025-07-01");
                                   ("page", "0")]%string |} in
  prepared utcHost (answering mid_june july4) julyRequest "demo-key" query s e
  /\ prepared utcHost (answering (mid_june + 5000) july4) again "demo-key" query s e
  /\ s = s /\ e = e.
Proof.
  intros query s e again.
  assert (prepared utcHost (answering mid_june july4) julyRequest "demo-key" query s e) as P1
    by (split; vm_compute; reflexivity).
  assert (prepared utcHost (answering (mid_june + 5000) july4) again "demo-key" query s e) as P2
    by (split; vm_compute; reflexivity).
  split; [exact P1|]. split; [exact P2|].
  exact (same_key_same_window _ _ _ _ _ _ _ _ _ _ _ _ _ P1 P2 eq_refl).
Defined.

(* ================================================================== *)
(** * Numbers and their text *)

From Stdlib Require Import DecimalFacts DecimalPos DecimalN.

(** ** Decimal digits *)

Lemma of_N_uint n : Str.of_N n = Str.chars (NilEmpty.string_of_uint (N.to_uint n)).
Proof. destruct n; reflexivity. Qed.

Lemma fold_digits_acc u acc :
  fold_left (fun a c => 10 * a + Str.digit_val c)
            (Str.chars (NilEmpty.string_of_uint u)) (Z.pos acc)
  = Z.pos (Pos.of_uint_acc u acc).
Proof.
  revert acc. induction u; intros acc; cbn [NilEmpty.string_of_uint Str.chars
    list_ascii_of_string fold_left Pos.of_uint_acc]; [reflexivity|..];
    fold (Str.chars (NilEmpty.string_of_uint u));
    match goal with
    | |- context [Str.digit_val ?c] =>
        let v := eval vm_compute in (Str.digit_val c) in change (Str.digit_val c) with v
    end;
    match goal with
    | |- fold_left _ _ ?a = Z.pos (Pos.of_uint_acc _ ?k) =>
        replace a with (Z.pos k) by lia
    end; apply IHu.
Qed.

Lemma digits_val_uint u :
  Str.digits_val (Str.chars (NilEmpty.string_of_uint u)) = Z.of_N (N.of_uint u).
Proof.
  unfold Str.digits_val, N.of_uint.
  induction u; cbn [NilEmpty.string_of_uint Str.chars list_ascii_of_string fold_left
    Pos.of_uint]; [reflexivity|exact IHu|..];
    fold (Str.chars (NilEmpty.string_of_uint u));
    match goal with
    | |- context [Str.digit_val ?c] =>
        let v := eval vm_compute in (Str.digit_val c) in change (Str.digit_val c) with v
    end;
    match goal with
    | |- fold_left _ _ ?a = Z.of_N (N.pos (Pos.of_uint_acc _ ?k)) =>
        replace a with (Z.pos k) by lia
    end; apply fold_digits_acc.
Qed.

(** The digits of a number are its value. *)
Lemma digits_val_of_N n : Str.digits_val (Str.of_N n) = Z.of_N n.
Proof. now rewrite of_N_uint, digits_val_uint, DecimalN.Unsigned.of_to. Qed.

Lemma nzhead_digits u :
  Str.chars (NilEmpty.string_of_uint (Decimal.nzhead u))
  = snd (Str.span (Ascii.eqb "0") (Str.chars (NilEmpty.string_of_uint u))).
Proof.
  unfold Str.chars.
  induction u; cbn [Decimal.nzhead NilEmpty.string_of_uint list_ascii_of_string
    Str.span]; try reflexivity.
  change (Ascii.eqb "0" "0") with true. cbv iota.
  rewrite IHu. now destruct (Str.span _ _).
Qed.

Lemma uint_of_digits l :
  forallb Str.is_digit l = true -> exists u, Str.chars (NilEmpty.string_of_uint u) = l.
Proof.
  induction l as [|c l IH]; intros H; [now exists Decimal.Nil|].
  cbn [forallb] in H. apply andb_prop in H as [Hc Hl]. destruct (IH Hl) as [u <-].
  destruct c as [[] [] [] [] [] [] [] []]; try discriminate Hc;
    first [exists (Decimal.D0 u); reflexivity | exists (Decimal.D1 u); reflexivity
          |exists (Decimal.D2 u); reflexivity | exists (Decimal.D3 u); reflexivity
          |exists (Decimal.D4 u); reflexivity | exists (Decimal.D5 u); reflexivity
          |exists (Decimal.D6 u); reflexivity | exists (Decimal.D7 u); reflexivity
          |exists (Decimal.D8 u); reflexivity | exists (Decimal.D9 u); reflexivity].
Qed.

(** Writing the value of a run of digits drops its leading zeros. *)
Lemma of_N_digits_val l :
  forallb Str.is_digit l = true -> Str.digits_val l <> 0 ->
  Str.of_N (Z.to_N (Str.digits_val l)) = snd (Str.span (Ascii.eqb "0") l).
Proof.
  intros Hd Hv. destruct (uint_of_digits l Hd) as [u <-].
  rewrite digits_val_uint in *. rewrite N2Z.id, of_N_uint, DecimalN.Unsigned.to_of.
  rewrite <- nzhead_digits. f_equal. f_equal. apply unorm_nzhead.
  intros E. apply Hv. 
  assert (Decimal.unorm u = Decimal.D0 Decimal.Nil) as E0 by now apply unorm_0.
  rewrite <- (DecimalN.Unsigned.of_uint_norm u), E0. reflexivity.
Qed.

(** The digits of a positive number: at least one, the first not 0. *)
Lemma of_N_pos_head p :
  exists d rest, Str.of_N (N.pos p) = d :: rest /\ Ascii.eqb "0" d = false.
Proof.
  pose proof (of_N_digits_val (Str.of_N (N.pos p)) (of_N_digits _)) as H.
  rewrite digits_val_of_N in H. specialize (H ltac:(discriminate)).
  rewrite N2Z.id in H.
  destruct (Str.of_N (N.pos p)) as [|d rest] eqn:E.
  - exfalso. pose proof (digits_val_of_N (N.pos p)) as V. rewrite E in V. discriminate V.
  - exists d, rest. split; [reflexivity|].
    destruct (Ascii.eqb "0" d) eqn:Ed; [|reflexivity]. exfalso.
    cbn [Str.span] in H. rewrite Ed in H. destruct (Str.span _ rest) as [a b] eqn:Es.
    cbn [snd] in H. apply (f_equal (@length _)) in H.
    assert (length b <= length rest)%nat.
    { clear -Es. revert a b Es. induction rest as [|c r IH]; cbn [Str.span]; intros a b Es.
      - injection Es as <- <-. cbn. lia.
      - destruct (Ascii.eqb "0" c).
        + destruct (Str.span _ r) as [a' b'] eqn:E'. injection Es as <- <-.
          specialize (IH _ _ eq_refl). cbn. lia.
        + injection Es as <- <-. cbn. lia. }
    cbn [length] in H. lia.
Qed.

(** The last digit is the value modulo 10. *)
Lemma digits_val_snoc l c :
  Str.digits_val (l ++ [c]) = 10 * Str.digits_val l + Str.digit_val c.
Proof. unfold Str.digits_val. rewrite fold_left_app. reflexivity. Qed.

Lemma digit_val_range c : Str.is_digit c = true -> 0 <= Str.digit_val c <= 9.
Proof. destruct c as [[] [] [] [] [] [] [] []]; intros H; try discriminate H; cbv; split; congruence. Qed.

Lemma digit_val_zero c :
  Str.is_digit c = true -> (Str.digit_val c = 0 <-> Ascii.eqb "0" c = true).
Proof.
  destruct c as [[] [] [] [] [] [] [] []]; intros H; try discriminate H; cbv; split;
    congruence.
Qed.

(** ** Zeros at either end *)

Lemma span_zeros n r :
  match r with c :: _ => Ascii.eqb "0" c = false | [] => True end ->
  Str.span (Ascii.eqb "0") (repeat "0"%char n ++ r) = (repeat "0"%char n, r).
Proof.
  intros H. induction n as [|n IH]; cbn [repeat app Str.span].
  - destruct r as [|c r]; [reflexivity|]. cbn [Str.span]. now rewrite H.
  - change (Ascii.eqb "0" "0") with true. cbv iota. now rewrite IH.
Qed.

Lemma rev_repeat_zero n : rev (repeat "0"%char n) = repeat "0"%char n.
Proof.
  induction n as [|n IH]; [reflexivity|]. cbn [repeat rev]. rewrite IH.
  clear IH. induction n as [|n IH]; [reflexivity|]. cbn [repeat app]. now rewrite IH.
Qed.

Lemma strip_zeros_app l n :
  endsNonzero l -> Num.strip_zeros (l ++ repeat "0"%char n) = (l, Z.of_nat n).
Proof.
  intros H. unfold Num.strip_zeros. rewrite rev_app_distr, rev_repeat_zero.
  rewrite span_zeros by exact H. now rewrite rev_involutive, repeat_length.
Qed.

Lemma digits_val_zeros n l :
  Str.digits_val (repeat "0"%char n ++ l) = Str.digits_val l.
Proof.
  unfold Str.digits_val. rewrite fold_left_app.
  replace (fold_left _ (repeat "0"%char n) 0) with 0; [reflexivity|].
  induction n as [|n IH]; [reflexivity|]. cbn [repeat fold_left].
  change (10 * 0 + Str.digit_val "0") with 0. exact IH.
Qed.

Lemma endsNonzero_app a l : l <> [] -> endsNonzero l -> endsNonzero (a ++ l).
Proof.
  unfold endsNonzero. rewrite rev_app_distr. intros Hl H.
  destruct (rev l) as [|c r] eqn:E; [|exact H].
  apply (f_equal (@rev _)) in E. rewrite rev_involutive in E. contradiction.
Qed.

(** The digits of a positive number that is no multiple of 10. *)
Lemma of_N_pos_ends p : Z.pos p mod 10 <> 0 -> endsNonzero (Str.of_N (N.pos p)).
Proof.
  intros Hp. unfold endsNonzero.
  pose proof (digits_val_of_N (N.pos p)) as V.
  pose proof (of_N_digits (N.pos p)) as Dg.
  rewrite <- (rev_involutive (Str.of_N (N.pos p))) in V, Dg.
  destruct (rev (Str.of_N (N.pos p))) as [|c r]; [exact I|].
  cbn [rev] in V, Dg. rewrite digits_val_snoc in V.
  rewrite forallb_app in Dg. apply andb_prop in Dg as [_ Dc]. cbn in Dc.
  rewrite andb_true_r in Dc.
  destruct (Ascii.eqb "0" c) eqn:E; [|reflexivity]. exfalso.
  apply (digit_val_zero c Dc) in E. rewrite E in V. apply Hp.
  change (Z.of_N (N.pos p)) with (Z.pos p) in V. rewrite <- V.
  Z.div_mod_to_equations. lia.
Qed.

(** [decimal] on the digits of a number, with zeros before and after. *)
Lemma decimal_digits neg a p b s :
  Z.pos p mod 10 <> 0 ->
  Num.decimal neg (repeat "0"%char a ++ Str.of_N (N.pos p) ++ repeat "0"%char b) s
  = let mag := Z.of_nat (length (Str.of_N (N.pos p))) + s + Z.of_nat b in
    if 309 <? mag then (if neg then Num.NegInf else Num.PosInf)
    else if mag <? -323 then Num.Fin 0 0
    else Num.Fin (if neg then - Z.pos p else Z.pos p) (s + Z.of_nat b).
Proof.
  intros Hp. unfold Num.decimal.
  destruct (of_N_pos_head p) as (d & rest & E & Hd).
  rewrite app_assoc, strip_zeros_app.
  2:{ apply endsNonzero_app; [rewrite E; discriminate|now apply of_N_pos_ends]. }
  rewrite digits_val_zeros, digits_val_of_N. change (Z.of_N (N.pos p)) with (Z.pos p).
  cbn [Z.eqb]. rewrite span_zeros by (rewrite E; exact Hd). cbn [snd].
  cbv zeta. reflexivity.
Qed.

(** ** Reading a decimal literal *)

Lemma span_digits l r :
  forallb Str.is_digit l = true ->
  match r with c :: _ => Str.is_digit c = false | [] => True end ->
  Str.span Str.is_digit (l ++ r) = (l, r).
Proof.
  intros Hl Hr. induction l as [|c l IH]; cbn [app Str.span].
  - destruct r as [|c r]; [reflexivity|]. cbn [Str.span]. now rewrite Hr.
  - cbn [forallb] in Hl. apply andb_prop in Hl as [Hc Hl]. now rewrite Hc, IH.
Qed.

Lemma digit_not_infinity d r :
  Str.is_digit d = true -> String.eqb (Str.text (d :: r)) "Infinity" = false.
Proof.
  destruct d as [[] [] [] [] [] [] [] []]; intros H; try discriminate H; reflexivity.
Qed.

(** A literal of digits, a fraction and an exponent. *)
Lemma unsigned_decimal_parts neg ip fp tail x :
  forallb Str.is_digit ip = true -> ip <> [] -> forallb Str.is_digit fp = true ->
  (tail = [] /\ x = 0
   \/ exists sg E, tail = "e"%char :: sg :: E /\ Num.exponent (sg :: E) = Some x) ->
  Num.unsigned_decimal neg
    (ip ++ match fp with [] => [] | _ => "."%char :: fp end ++ tail)
  = Num.decimal neg (ip ++ fp) (- Z.of_nat (length fp) + x).
Proof.
  intros Hip Hne Hfp Ht. unfold Num.unsigned_decimal.
  destruct ip as [|d ip']; [contradiction|].
  pose proof Hip as Hip'. cbn [forallb] in Hip'. apply andb_prop in Hip' as [Hd _].
  change ((d :: ip') ++ ?r) with (d :: ip' ++ r) at 1.
  rewrite digit_not_infinity by assumption.
  change (d :: ip' ++ ?r) with ((d :: ip') ++ r).
  rewrite span_digits.
  2: exact Hip.
  2:{ destruct fp; [|reflexivity]. cbn [app].
      destruct Ht as [[-> _]|(sg & E & -> & _)]; [exact I|reflexivity]. }
  destruct fp as [|c fp'].
  - destruct Ht as [[-> ->]|(sg & E & -> & Hx)].
    + cbn [app length]. now rewrite Z.add_0_r.
    + cbn [app length]. change (Ascii.eqb "e" "e") with true. cbn [orb].
      rewrite Hx. reflexivity.
  - cbn [app]. change (c :: fp' ++ tail) with ((c :: fp') ++ tail).
    rewrite span_digits.
    2: exact Hfp.
    2:{ destruct Ht as [[-> _]|(sg & E & -> & _)]; [exact I|reflexivity]. }
    destruct Ht as [[-> ->]|(sg & E & -> & Hx)].
    + now rewrite Z.add_0_r.
    + change (Ascii.eqb "e" "e") with true. cbn [orb]. rewrite Hx. reflexivity.
Qed.

Lemma exponent_of n :
  Num.exponent ((if 0 <=? n then "+"%char else "-"%char) :: Str.of_Z (Z.abs n)) = Some n.
Proof.
  assert (Str.of_Z (Z.abs n) = Str.of_N (Z.to_N (Z.abs n))) as E
    by (destruct n; reflexivity).
  pose proof (of_N_digits (Z.to_N (Z.abs n))) as Dg.
  pose proof (digits_val_of_N (Z.to_N (Z.abs n))) as V.
  rewrite Z2N.id in V by lia. rewrite <- E in *.
  assert (Str.of_Z (Z.abs n) <> []) as Hne.
  { intros E0. rewrite E0 in E. destruct (Z.to_N (Z.abs n)) as [|p]; [discriminate E|].
    destruct (of_N_pos_head p) as (d & r & E1 & _). rewrite E1 in E. discriminate E. }
  unfold Num.exponent. destruct (Z.leb_spec 0 n).
  - destruct (Str.of_Z (Z.abs n)) as [|c r]; [contradiction|].
    rewrite Dg, V. f_equal. lia.
  - destruct (Str.of_Z (Z.abs n)) as [|c r]; [contradiction|].
    rewrite Dg, V. f_equal. lia.
Qed.

Lemma trim_nows l :
  forallb (fun c => negb (Str.is_ws c)) l = true -> Str.trim_chars l = l.
Proof.
  intros H. unfold Str.trim_chars.
  assert (forall l, forallb (fun c => negb (Str.is_ws c)) l = true -> Str.drop_ws l = l) as F.
  { intros l0 H0. apply drop_ws_fixed. destruct l0 as [|c r]; [exact I|].
    cbn [forallb] in H0. apply andb_prop in H0 as [Hc _]. now apply negb_true_iff in Hc. }
  rewrite (F l H), F by now apply every_rev. apply rev_involutive.
Qed.

(** ** The characters of a number *)

Section NumberText.
Context (P : ascii -> bool).
Hypothesis P_digit : forall c, Str.is_digit c = true -> P c = true.
Hypothesis P_marks : forallb P (Str.chars ".e+-NaNInfinity") = true.

Lemma every_digits l : forallb Str.is_digit l = true -> forallb P l = true.
Proof.
  induction l as [|c l IH]; cbn; [reflexivity|].
  intros H. apply andb_prop in H as [Hc Hl]. now rewrite P_digit, IH.
Qed.

Lemma every_of_Z z : forallb P (Str.of_Z z) = true.
Proof.
  destruct z; cbn [Str.of_Z]; try (apply every_digits, of_N_digits).
  cbn [forallb]. rewrite every_digits by apply of_N_digits.
  cbn in P_marks. repeat (apply andb_prop in P_marks as [? P_marks]).
  now rewrite andb_true_r.
Qed.

Lemma to_chars_every x : forallb P (Num.to_chars x) = true.
Proof.
  pose proof P_marks as M. cbn in M.
  repeat match type of M with _ && _ = true => apply andb_prop in M as [? M] end.
  destruct x as [| | |m e];
    try (cbn; repeat (apply andb_true_intro; split); assumption || reflexivity).
  unfold Num.to_chars. destruct (m =? 0); [cbn; now rewrite P_digit|].
  assert (forallb P (fst (Num.strip_zeros (Str.of_Z (Z.abs m)))) = true) as Hds.
  { unfold Num.strip_zeros.
    pose proof (every_span P (Ascii.eqb "0") (rev (Str.of_Z (Z.abs m)))
                  (every_rev _ _ (every_of_Z _))) as [_ Hsp].
    destruct (Str.span _ _) as [a b]. cbn in *. now apply every_rev. }
  destruct (Num.strip_zeros (Str.of_Z (Z.abs m))) as [ds z]. cbn [fst] in Hds.
  rewrite forallb_app. apply andb_true_intro.
  split; [destruct (m <? 0); cbn; rewrite ?andb_true_r; auto|].
  assert (P "0" = true) as P0 by now apply P_digit.
  assert (forall n, forallb P (firstn n ds) = true) as Hf by (intros; now apply every_firstn).
  assert (forall n, forallb P (skipn n ds) = true) as Hk by (intros; now apply every_skipn).
  assert (forall n, forallb P (repeat "0"%char n) = true) as Hr
    by (intros; now apply every_repeat).
  pose proof every_of_Z as Hz.
  repeat match goal with |- context [if ?b then _ else _] => destruct b end;
    try (destruct ds as [|d [|d' rest]]; [reflexivity| |]; cbn [forallb] in Hds;
         repeat match type of Hds with _ && _ = true => apply andb_prop in Hds as [? Hds] end);
    repeat (rewrite ?forallb_app; cbn [forallb]);
    rewrite ?Hds, ?Hf, ?Hk, ?Hr, ?Hz;
    repeat match goal with Hp : P _ = true |- _ => rewrite Hp; clear Hp end;
    reflexivity.
Qed.

End NumberText.

Lemma to_chars_nows x : forallb (fun c => negb (Str.is_ws c)) (Num.to_chars x) = true.
Proof.
  apply to_chars_every; [|reflexivity].
  intros c. destruct c as [[] [] [] [] [] [] [] []]; intros H; try discriminate H; reflexivity.
Qed.

Lemma of_chars_head l :
  forallb (fun c => negb (Str.is_ws c)) l = true ->
  (exists d r, l = d :: r /\ Str.is_digit d = true /\ Ascii.eqb "0" d = false)
  \/ (exists r, l = "0"%char :: "."%char :: r) ->
  Num.of_chars l = Num.unsigned_decimal false l.
Proof.
  intros Hw H. unfold Num.of_chars. rewrite trim_nows by assumption.
  destruct H as [(d & r & -> & Hd & Hz)|(r & ->)]; [|reflexivity].
  destruct d as [[] [] [] [] [] [] [] []]; try discriminate Hd; try discriminate Hz;
    reflexivity.
Qed.

Lemma of_chars_minus l :
  forallb (fun c => negb (Str.is_ws c)) l = true ->
  Num.of_chars ("-"%char :: l) = Num.unsigned_decimal true l.
Proof.
  intros Hw. unfold Num.of_chars. rewrite trim_nows; [reflexivity|].
  cbn [forallb]. now rewrite Hw.
Qed.

(** ** Writing a number and reading it back *)

Lemma firstn_digits n l : forallb Str.is_digit l = true -> forallb Str.is_digit (firstn n l) = true.
Proof. apply every_firstn. Qed.

Lemma skipn_digits n l : forallb Str.is_digit l = true -> forallb Str.is_digit (skipn n l) = true.
Proof. apply every_skipn. Qed.

Lemma repeat_zero_digits n : forallb Str.is_digit (repeat "0"%char n) = true.
Proof. now apply every_repeat. Qed.

(** The four notations of a number that is not zero, read back. *)
Lemma number_text_reads_back neg p e :
  Z.pos p mod 10 <> 0 ->
  -323 <= Z.of_nat (length (Str.of_N (N.pos p))) + e <= 309 ->
  let ds := Str.of_N (N.pos p) in
  let k := Z.of_nat (length ds) in
  let n := k + e + 0 in
  let body :=
    if (k <=? n) && (n <=? 21)
    then ds ++ repeat "0"%char (Z.to_nat (n - k))
    else if (0 <? n) && (n <=? 21)
    then firstn (Z.to_nat n) ds ++ "."%char :: skipn (Z.to_nat n) ds
    else if (-6 <? n) && (n <=? 0)
    then "0"%char :: "."%char :: repeat "0"%char (Z.to_nat (- n)) ++ ds
    else
      let ex := (if 0 <=? n - 1 then "+"%char else "-"%char)
                  :: Str.of_Z (Z.abs (n - 1)) in
      match ds with
      | [d] => d :: "e"%char :: ex
      | d :: rest => d :: "."%char :: rest ++ "e"%char :: ex
      | [] => []
      end in
  Num.unsigned_decimal neg body = Num.Fin (if neg then - Z.pos p else Z.pos p) e
  /\ ((exists d r, body = d :: r /\ Str.is_digit d = true /\ Ascii.eqb "0" d = false)
      \/ exists r, body = "0"%char :: "."%char :: r).
Proof.
  intros Hp Hr. cbv zeta.
  pose proof (of_N_digits (N.pos p)) as Dg.
  destruct (of_N_pos_head p) as (d & rest & E & Hd0).
  assert (forall l s a b,
            l = repeat "0"%char a ++ Str.of_N (N.pos p) ++ repeat "0"%char b ->
            s + Z.of_nat b = e ->
            Num.decimal neg l s = Num.Fin (if neg then - Z.pos p else Z.pos p) e) as Dec.
  { intros l s a b -> Hs. rewrite decimal_digits by assumption. cbv zeta.
    destruct (Z.ltb_spec 309 (Z.of_nat (length (Str.of_N (N.pos p))) + s + Z.of_nat b)); [lia|].
    destruct (Z.ltb_spec (Z.of_nat (length (Str.of_N (N.pos p))) + s + Z.of_nat b) (-323));
      [lia|].
    f_equal. exact Hs. }
  set (ds := Str.of_N (N.pos p)) in *.
  set (k := Z.of_nat (length ds)) in *.
  assert (Hd : Str.is_digit d = true)
    by (rewrite E in Dg; cbn [forallb] in Dg; now apply andb_prop in Dg as [? _]).
  assert (Hrest : forallb Str.is_digit rest = true)
    by (rewrite E in Dg; cbn [forallb] in Dg; now apply andb_prop in Dg as [_ ?]).
  assert (Hk : k = 1 + Z.of_nat (length rest)) by (subst k; rewrite E; cbn [length]; lia).
  (* the exponential notation, whatever the sign of the exponent *)
  assert (Num.unsigned_decimal neg
            match ds with
            | [] => []
            | [hd] => hd :: "e"%char
                :: (if 0 <=? k + e + 0 - 1 then "+"%char else "-"%char)
                :: Str.of_Z (Z.abs (k + e + 0 - 1))
            | hd :: (_ :: _) as tl => hd :: "."%char :: tl ++ "e"%char
                :: (if 0 <=? k + e + 0 - 1 then "+"%char else "-"%char)
                :: Str.of_Z (Z.abs (k + e + 0 - 1))
            end
          = Num.Fin (if neg then - Z.pos p else Z.pos p) e
          /\ exists r, match ds with
            | [] => []
            | [hd] => hd :: "e"%char
                :: (if 0 <=? k + e + 0 - 1 then "+"%char else "-"%char)
                :: Str.of_Z (Z.abs (k + e + 0 - 1))
            | hd :: (_ :: _) as tl => hd :: "."%char :: tl ++ "e"%char
                :: (if 0 <=? k + e + 0 - 1 then "+"%char else "-"%char)
                :: Str.of_Z (Z.abs (k + e + 0 - 1))
            end = d :: r) as Expo.
  { pose proof (exponent_of (k + e + 0 - 1)) as Ex.
    pose proof (unsigned_decimal_parts neg [d] rest
                  ("e"%char :: (if 0 <=? k + e + 0 - 1 then "+"%char else "-"%char)
                     :: Str.of_Z (Z.abs (k + e + 0 - 1)))
                  (k + e + 0 - 1)) as U.
    specialize (U ltac:(cbn; now rewrite Hd) ltac:(discriminate) Hrest
                  ltac:(right; eauto)).
    rewrite E. destruct rest as [|d' rest']; (split; [|eauto]).
    - cbn [app] in U. rewrite U. apply (Dec _ _ 0%nat 0%nat).
      + rewrite E. reflexivity.
      + cbn [length] in *. lia.
    - cbn [app] in U. cbn [app]. rewrite U. apply (Dec _ _ 0%nat 0%nat).
      + rewrite E. cbn [repeat app]. now rewrite List.app_nil_r.
      + lia. }
  destruct (Z.leb_spec k (k + e + 0)) as [H1|H1];
    [destruct (Z.leb_spec (k + e + 0) 21) as [H2|H2]|]; cbn [andb].
  - (* digits, then zeros *)
    split.
    + pose proof (unsigned_decimal_parts neg (ds ++ repeat "0"%char (Z.to_nat (k + e + 0 - k)))
                    [] [] 0) as U.
      cbn [app length] in U. rewrite !List.app_nil_r in U. rewrite U.
      * apply (Dec _ _ 0%nat (Z.to_nat (k + e + 0 - k))); [reflexivity|lia].
      * rewrite forallb_app, Dg. apply repeat_zero_digits.
      * rewrite E. discriminate.
      * reflexivity.
      * now left.
    + left. rewrite E. cbn [app]. eauto.
  - destruct (Z.ltb_spec 0 (k + e + 0)); [|lia].
    destruct (Z.leb_spec (k + e + 0) 21); [lia|]. cbn [andb].
    destruct (Z.ltb_spec (-6) (k + e + 0)); [|lia].
    destruct (Z.leb_spec (k + e + 0) 0); [lia|]. cbn [andb].
    destruct Expo as [Ex1 [r Ex2]]. split; [exact Ex1|].
    left. exists d, r. auto.
  - destruct (Z.ltb_spec 0 (k + e + 0)) as [H3|H3];
      [destruct (Z.leb_spec (k + e + 0) 21) as [H4|H4]|]; cbn [andb].
    + (* digits, the point, digits *)
      assert (Z.to_nat (k + e + 0) < length ds)%nat as Hlt by (subst k; lia).
      split.
      * pose proof (unsigned_decimal_parts neg (firstn (Z.to_nat (k + e + 0)) ds)
                      (skipn (Z.to_nat (k + e + 0)) ds) [] 0) as U.
        assert (length (skipn (Z.to_nat (k + e + 0)) ds)
                = (length ds - Z.to_nat (k + e + 0))%nat) as Ls by apply length_skipn.
        rewrite firstn_skipn in U.
        destruct (skipn (Z.to_nat (k + e + 0)) ds) as [|c sk] eqn:Es;
          [cbn [length] in Ls; lia|].
        rewrite List.app_nil_r in U. rewrite U.
        -- apply (Dec _ _ 0%nat 0%nat).
           ++ cbn [repeat app]. now rewrite List.app_nil_r.
           ++ rewrite Ls. subst k. lia.
        -- now apply firstn_digits.
        -- rewrite E. destruct (Z.to_nat (k + e + 0)) eqn:En; [lia|]. discriminate.
        -- rewrite <- Es. now apply skipn_digits.
        -- now left.
      * left. rewrite E. destruct (Z.to_nat (k + e + 0)) eqn:En; [lia|]. cbn [firstn app]. eauto.
    + destruct (Z.ltb_spec (-6) (k + e + 0)); [|lia].
      destruct (Z.leb_spec (k + e + 0) 0); [lia|]. cbn [andb].
      destruct Expo as [Ex1 [r Ex2]]. split; [exact Ex1|].
      left. exists d, r. auto.
    + destruct (Z.ltb_spec (-6) (k + e + 0)) as [H5|H5]; cbn [andb];
        [destruct (Z.leb_spec (k + e + 0) 0); [|lia]|].
      * (* zero, the point, zeros, digits *)
        split; [|right; eauto].
        pose proof (unsigned_decimal_parts neg ["0"%char]
                      (repeat "0"%char (Z.to_nat (- (k + e + 0))) ++ ds) [] 0) as U.
        assert (length (repeat "0"%char (Z.to_nat (- (k + e + 0))) ++ ds)
                = (Z.to_nat (- (k + e + 0)) + length ds)%nat) as Lf
          by now rewrite length_app, repeat_length.
        destruct (repeat "0"%char (Z.to_nat (- (k + e + 0))) ++ ds) as [|c fp] eqn:Ef.
        { rewrite E in Ef. destruct (repeat _ _); discriminate Ef. }
        rewrite List.app_nil_r in U. cbn [app] in U. rewrite U.
        -- apply (Dec _ _ (S (Z.to_nat (- (k + e + 0)))) 0%nat).
           ++ cbn [repeat app]. rewrite List.app_nil_r. now rewrite <- Ef.
           ++ rewrite Lf. subst k. lia.
        -- reflexivity.
        -- discriminate.
        -- rewrite <- Ef. rewrite forallb_app, repeat_zero_digits. exact Dg.
        -- now left.
      * destruct Expo as [Ex1 [r Ex2]]. split; [exact Ex1|].
        left. exists d, r. auto.
Qed.

(** [String] of a number in the form [Number] gives, read by [Number],
    is the number. *)
Lemma number_reads_back x : canonical x -> Num.of_string (Num.to_string x) = x.
Proof.
  unfold Num.of_string, Num.to_string. rewrite chars_text.
  destruct x as [| | |m e]; [reflexivity..|].
  intros [[-> ->]|[Hm Hr]]; [reflexivity|].
  pose proof (to_chars_nows (Num.Fin m e)) as W.
  destruct m as [|p|p]; [now contradiction Hm| |].
  - pose proof (strip_zeros_app (Str.of_N (N.pos p)) 0 (of_N_pos_ends p Hm)) as S.
    cbn [repeat] in S. rewrite List.app_nil_r in S.
    change (Str.of_Z (Z.abs (Z.pos p))) with (Str.of_N (N.pos p)) in Hr.
    destruct (number_text_reads_back false p e Hm Hr) as [U Hh]. cbv zeta in U, Hh.
    unfold Num.to_chars in *.
    change (Str.of_Z (Z.abs (Z.pos p))) with (Str.of_N (N.pos p)) in *.
    change (Z.pos p =? 0) with false in *. change (Z.pos p <? 0) with false in *.
    rewrite S in W |- *. cbv beta iota zeta in W |- *.
    change (Z.of_nat 0) with 0 in W |- *.
    cbn [app] in W |- *. rewrite of_chars_head; [exact U|exact W|exact Hh].
  - assert (Z.pos p mod 10 <> 0) as Hp
      by (change (Z.neg p) with (- Z.pos p) in Hm; Z.div_mod_to_equations; lia).
    pose proof (strip_zeros_app (Str.of_N (N.pos p)) 0 (of_N_pos_ends p Hp)) as S.
    cbn [repeat] in S. rewrite List.app_nil_r in S.
    change (Str.of_Z (Z.abs (Z.neg p))) with (Str.of_N (N.pos p)) in Hr.
    destruct (number_text_reads_back true p e Hp Hr) as [U _]. cbv zeta in U.
    unfold Num.to_chars in *.
    change (Str.of_Z (Z.abs (Z.neg p))) with (Str.of_N (N.pos p)) in *.
    change (Z.neg p =? 0) with false in *. change (Z.neg p <? 0) with true in *.
    rewrite S in W |- *. cbv beta iota zeta in W |- *.
    change (Z.of_nat 0) with 0 in W |- *.
    cbn [app] in W |- *. cbn [forallb] in W. apply andb_prop in W as [_ W].
    rewrite of_chars_minus; [exact U|exact W].
Qed.

(** ** The form of a number read from text *)

Lemma span_parts {A} (p : A -> bool) (l : list A) :
  l = fst (Str.span p l) ++ snd (Str.span p l)
  /\ forallb p (fst (Str.span p l)) = true
  /\ match snd (Str.span p l) with c :: _ => p c = false | [] => True end.
Proof.
  induction l as [|c l (IH1 & IH2 & IH3)]; cbn [Str.span]; [now repeat split|].
  destruct (p c) eqn:E.
  - destruct (Str.span p l) as [a b]. cbn [fst snd app forallb] in *.
    rewrite E, IH2. repeat split; [now f_equal|exact IH3].
  - cbn [fst snd app forallb]. now repeat split.
Qed.

Lemma digits_val_nonneg l : forallb Str.is_digit l = true -> 0 <= Str.digits_val l.
Proof.
  intros H. destruct (uint_of_digits l H) as [u <-]. rewrite digits_val_uint. lia.
Qed.

(** What is left of a run of digits without its final zeros. *)
Lemma strip_zeros_parts ds :
  forallb Str.is_digit ds = true ->
  forallb Str.is_digit (fst (Num.strip_zeros ds)) = true
  /\ endsNonzero (fst (Num.strip_zeros ds)).
Proof.
  intros H. unfold Num.strip_zeros, endsNonzero.
  pose proof (span_parts (Ascii.eqb "0") (rev ds)) as (P1 & _ & P3).
  assert (forallb Str.is_digit (rev ds) = true) as Hr by now apply every_rev.
  destruct (Str.span (Ascii.eqb "0") (rev ds)) as [zs rest]. cbn [fst snd] in *.
  rewrite P1, forallb_app in Hr. apply andb_prop in Hr as [_ Hr].
  split; [now apply every_rev|]. now rewrite rev_involutive.
Qed.

Lemma decimal_canonical neg ds e :
  forallb Str.is_digit ds = true -> canonical (Num.decimal neg ds e).
Proof.
  intros H. unfold Num.decimal.
  destruct (strip_zeros_parts ds H) as [Hd He].
  destruct (Num.strip_zeros ds) as [sig k]. cbn [fst] in Hd, He. cbv zeta.
  destruct (Z.eqb_spec (Str.digits_val sig) 0) as [|Hm]; [now left|].
  pose proof (digits_val_nonneg sig Hd) as Hn.
  pose proof (of_N_digits_val sig Hd Hm) as Hl. rewrite <- Hl.
  destruct (Z.ltb_spec 309 (Z.of_nat (length (Str.of_N (Z.to_N (Str.digits_val sig)))) + e + k));
    [now destruct neg|].
  destruct (Z.ltb_spec (Z.of_nat (length (Str.of_N (Z.to_N (Str.digits_val sig)))) + e + k)
              (-323)); [now left|].
  right.
  assert (Str.digits_val sig mod 10 <> 0) as Hmod.
  { unfold endsNonzero in He. rewrite <- (rev_involutive sig) in Hd, Hm, Hn |- *.
    destruct (rev sig) as [|c r]; [now contradiction Hm|]. cbn [rev] in *.
    rewrite forallb_app in Hd. apply andb_prop in Hd as [Hr Hc]. cbn in Hc.
    rewrite andb_true_r in Hc. rewrite digits_val_snoc.
    pose proof (digit_val_range c Hc). pose proof (digit_val_zero c Hc) as Z0.
    assert (Str.digit_val c <> 0) by (rewrite Z0, He; discriminate).
    Z.div_mod_to_equations. lia. }
  assert (forall m, 0 < m -> Str.of_Z (Z.abs m) = Str.of_N (Z.to_N m)
                    /\ Str.of_Z (Z.abs (- m)) = Str.of_N (Z.to_N m)) as Habs
    by (intros [|q|q] Hq; try lia; now split).
  destruct (Habs (Str.digits_val sig) ltac:(lia)) as [A1 A2].
  destruct neg; [rewrite A2|rewrite A1]; (split; [|lia]).
  - Z.div_mod_to_equations. lia.
  - exact Hmod.
Qed.

Lemma radix_digit_nonneg base c v : Num.radix_digit base c = Some v -> 0 <= v.
Proof.
  unfold Num.radix_digit. cbv zeta.
  set (n := Z.of_nat (nat_of_ascii c)).
  destruct (Z.leb_spec 48 n), (Z.leb_spec n 57); cbn [andb];
    [destruct (_ <? _); [intros [= <-]; lia|discriminate]|..];
    (destruct (Z.leb_spec 97 n), (Z.leb_spec n 102); cbn [andb];
     [destruct (_ <? _); [intros [= <-]; lia|discriminate]|..]);
    (destruct (Z.leb_spec 65 n), (Z.leb_spec n 70); cbn [andb];
     destruct (_ <? _); (intros [= <-]; lia) || discriminate).
Qed.

Lemma radix_val_nonneg base l : forall acc v,
  0 <= base -> 0 <= acc -> Num.radix_val base acc l = Some v -> 0 <= v.
Proof.
  induction l as [|c l IH]; cbn [Num.radix_val]; intros acc v Hb Ha.
  - intros [= <-]. exact Ha.
  - destruct (Num.radix_digit base c) as [d|] eqn:E; [|discriminate].
    apply radix_digit_nonneg in E. apply IH; [exact Hb|nia].
Qed.

Lemma radix_literal_canonical base l : 0 <= base -> canonical (Num.radix_literal base l).
Proof.
  intros Hb. unfold Num.radix_literal. destruct l as [|c l]; [exact I|].
  destruct (Num.radix_val base 0 (c :: l)) as [v|] eqn:E; [|exact I].
  apply radix_val_nonneg in E; [|exact Hb|lia].
  apply decimal_canonical. destruct v as [|q|q]; [reflexivity|apply of_N_digits|lia].
Qed.

Lemma unsigned_decimal_canonical neg l : canonical (Num.unsigned_decimal neg l).
Proof.
  unfold Num.unsigned_decimal.
  destruct (String.eqb _ _); [now destruct neg|].
  pose proof (span_parts Str.is_digit l) as (_ & Hip & _).
  destruct (Str.span Str.is_digit l) as [ip r1]. cbn [fst] in Hip.
  assert (forall fp r2, forallb Str.is_digit fp = true ->
            canonical match ip ++ fp with
                      | [] => Num.NaN
                      | (_ :: _) as ds =>
                          match r2 with
                          | [] => Num.decimal neg ds (- Z.of_nat (length fp))
                          | c :: r =>
                              if Ascii.eqb c "e" || Ascii.eqb c "E"
                              then match Num.exponent r with
                                   | Some x => Num.decimal neg ds
                                                 (- Z.of_nat (length fp) + x)
                                   | None => Num.NaN
                                   end
                              else Num.NaN
                          end
                      end) as F.
  { intros fp r2 Hfp.
    assert (forallb Str.is_digit (ip ++ fp) = true) as Hds by now rewrite forallb_app, Hip.
    destruct (ip ++ fp) as [|d ds]; [exact I|].
    destruct r2 as [|c r]; [now apply decimal_canonical|].
    destruct (_ || _); [|exact I].
    destruct (Num.exponent r); [now apply decimal_canonical|exact I]. }
  destruct r1 as [|c r]; [exact (F [] [] eq_refl)|].
  destruct (Ascii.eqb_spec c "."%char) as [->|Hc].
  - pose proof (span_parts Str.is_digit r) as (_ & Hfp & _).
    destruct (Str.span Str.is_digit r) as [fp r2]. exact (F fp r2 Hfp).
  - assert (match c :: r with
            | "."%char :: r0 => Str.span Str.is_digit r0
            | _ => ([], c :: r)
            end = ([], c :: r)) as ->.
    { destruct c as [[] [] [] [] [] [] [] []]; try reflexivity. now contradiction Hc. }
    exact (F [] (c :: r) eq_refl).
Qed.

(** [Number] of any text gives a number in that form. *)
Lemma of_chars_canonical l : canonical (Num.of_chars l).
Proof.
  unfold Num.of_chars. destruct (Str.trim_chars l) as [|c r]; [now left|].
  destruct c as [[] [] [] [] [] [] [] []]; try apply unsigned_decimal_canonical.
  destruct r as [|c r]; [apply unsigned_decimal_canonical|].
  destruct c as [[] [] [] [] [] [] [] []];
    first [apply unsigned_decimal_canonical | apply radix_literal_canonical; lia].
Qed.

(* ================================================================== *)
(** ** From the page's form to the validated query *)

Lemma inRange_ltb lo hi n :
  inRange lo hi n ->
  Num.ltb n (Num.of_Z lo) = false /\ Num.ltb (Num.of_Z hi) n = false.
Proof.
  intros (m & e & -> & H). unfold Num.of_Z.
  rewrite (ltb_Fin m e lo 0 (Z.min 0 e)), (ltb_Fin hi 0 m e (Z.min 0 e)) by lia.
  rewrite !Z.ltb_ge.
  destruct (Z.le_gt_cases 0 e) as [He|He].
  - rewrite Z.min_l in * by lia. rewrite (Z.max_r 0 e), (Z.max_l 0 (- e)) in H by lia.
    rewrite ?Z.sub_0_r, ?Z.sub_diag, ?Z.pow_0_r in *. lia.
  - rewrite Z.min_r in * by lia. rewrite (Z.max_l 0 e), (Z.max_r 0 (- e)) in H by lia.
    rewrite ?Z.sub_0_l, ?Z.sub_diag, ?Z.pow_0_r in *. lia.
Qed.

(** [z.coerce.number().min(lo).max(hi)] on [String(n)]. *)
Lemma coerceNumber_accepts lo hi n :
  canonical n -> inRange lo hi n -> Zod.coerceNumber lo hi (Num.to_string n) = inr n.
Proof.
  intros Hc Hr. unfold Zod.coerceNumber. cbv zeta. rewrite number_reads_back by exact Hc.
  destruct (inRange_ltb lo hi n Hr) as [-> ->].
  destruct Hr as (m & e & -> & _). reflexivity.
Qed.

Lemma page_query_parses f :
  asciiText (EventsPage.q f) -> asciiText (EventsPage.from f) -> asciiText (EventsPage.to f) ->
  Form.parse (EventsPage.queryString f) = Some (EventsPage.params f).
Proof.
  intros Hq Hf Ht. apply parse_toString. unfold EventsPage.params.
  pose proof (trim_ascii _ Hq) as Hq'.
  pose proof (to_string_ascii (EventsPage.center_lat f)).
  pose proof (to_string_ascii (EventsPage.center_lng f)).
  pose proof (to_string_ascii (EventsPage.radius f)).
  destruct (nonEmpty (Str.trim (EventsPage.q f))), (nonEmpty (EventsPage.from f)),
    (nonEmpty (EventsPage.to f)); cbn;
    repeat (constructor; [split; cbn [fst snd]; (assumption || reflexivity)|]);
    constructor.
Qed.

(** X28. The route accepts what the events page asks: with a keyword of
    at most 80 characters once trimmed, a centre on the globe and a
    radius between 1 and 1000, the query string of the page, parsed and
    validated by [QuerySchema], is the query of the form itself: the
    keyword trimmed (absent when blank), the same centre and radius
    (each number written by [String] and read back by
    [z.coerce.number()]), the dates as typed (absent when empty) and
    page 0.  (The numbers are in the form [Number] gives them.) *)
Theorem page_request_passes_validation f :
  asciiText (EventsPage.q f) -> asciiText (EventsPage.from f) -> asciiText (EventsPage.to f) ->
  (String.length (Str.trim (EventsPage.q f)) <= 80)%nat ->
  canonical (EventsPage.center_lat f) -> inRange (-90) 90 (EventsPage.center_lat f) ->
  canonical (EventsPage.center_lng f) -> inRange (-180) 180 (EventsPage.center_lng f) ->
  canonical (EventsPage.radius f) -> inRange 1 1000 (EventsPage.radius f) ->
  exists p,
    Form.parse (EventsPage.queryString f) = Some p
    /\ QuerySchema.safeParse (URL.fromEntries p)
       = inr (mkQuery (given (Some (Str.trim (EventsPage.q f))))
                (Some (EventsPage.center_lat f)) (Some (EventsPage.center_lng f))
                (EventsPage.radius f)
                (given (Some (EventsPage.from f))) (given (Some (EventsPage.to f)))
                (Num.of_Z 0)).
Proof.
  intros Hq Hf Ht Hlen Clat Rlat Clng Rlng Crad Rrad.
  exists (EventsPage.params f). split; [now apply page_query_parses|].
  pose proof (coerceNumber_accepts _ _ _ Clat Rlat) as Elat.
  pose proof (coerceNumber_accepts _ _ _ Clng Rlng) as Elng.
  pose proof (coerceNumber_accepts _ _ _ Crad Rrad) as Erad.
  assert (Zod.trimmedString 80 (Str.trim (EventsPage.q f)) = inr (Str.trim (EventsPage.q f)))
    as Etrim.
  { unfold Zod.trimmedString. cbv zeta.
    assert (Str.trim (Str.trim (EventsPage.q f)) = Str.trim (EventsPage.q f)) as ->
      by (unfold Str.trim; now rewrite chars_text, trim_chars_idem).
    destruct (Nat.ltb_spec 80 (String.length (Str.trim (EventsPage.q f)))); [lia|reflexivity]. }
  unfold EventsPage.params, given, QuerySchema.safeParse.
  set (tq := Str.trim (EventsPage.q f)) in *.
  set (slat := Num.to_string (EventsPage.center_lat f)) in *.
  set (slng := Num.to_string (EventsPage.center_lng f)) in *.
  set (srad := Num.to_string (EventsPage.radius f)) in *.
  set (sfrom := EventsPage.from f) in *. set (sto := EventsPage.to f) in *.
  clearbody tq slat slng srad sfrom sto.
  destruct (nonEmpty tq), (nonEmpty sfrom), (nonEmpty sto);
    repeat match goal with
           | |- context [?m !! ?k] =>
               let r := eval vm_compute in (m !! k) in
               replace (m !! k) with r by (vm_compute; reflexivity)
           end;
    unfold QuerySchema.q, QuerySchema.lat, QuerySchema.lng, QuerySchema.radius,
      QuerySchema.from, QuerySchema.to, QuerySchema.page, Zod.optional, Zod.default,
      Zod.anyString;
    rewrite ?Etrim, ?Elat, ?Elng, ?Erad; reflexivity.
Qed.

Lemma page_request_passes_validation_witness :
  let f := {| EventsPage.q := " jazz & blues "; EventsPage.from := "2025-07-01";
              EventsPage.to := ""; EventsPage.radius := Num.of_Z 25;
              EventsPage.center_lat := Num.Fin 436532 (-4);
              EventsPage.center_lng := Num.Fin (-793832) (-4) |} in
  exists p,
    Form.parse "q=jazz+%26+blues&lat=43.6532&lng=-79.3832&radius=25&from=2025-07-01" = Some p
    /\ QuerySchema.safeParse (URL.fromEntries p)
       = inr (mkQuery (Some "jazz & blues"%string)
                (Some (Num.Fin 436532 (-4))) (Some (Num.Fin (-793832) (-4)))
                (Num.of_Z 25) (Some "2025-07-01"%string) None (Num.of_Z 0)).
Proof.
  intros f.
  assert (inRange (-90) 90 (EventsPage.center_lat f)) as R1
    by (exists 436532, (-4); split; [reflexivity|cbv; split; congruence]).
  assert (inRange (-180) 180 (EventsPage.center_lng f)) as R2
    by (exists (-793832), (-4); split; [reflexivity|cbv; split; congruence]).
  assert (inRange 1 1000 (EventsPage.radius f)) as R3
    by (exists 25, 0; split; [reflexivity|cbv; split; congruence]).
  assert (forall m e, m mod 10 <> 0 ->
            -323 <= Z.of_nat (length (Str.of_Z (Z.abs m))) + e <= 309 ->
            canonical (Num.Fin m e)) as C by (intros m e ? ?; right; now split).
  exact (page_request_passes_validation f eq_refl eq_refl eq_refl
           ltac:(vm_compute; lia)
           (C 436532 (-4) ltac:(vm_compute; congruence)
              ltac:(vm_compute; split; congruence)) R1
           (C (-793832) (-4) ltac:(vm_compute; congruence)
              ltac:(vm_compute; split; congruence)) R2
           (C 25 0 ltac:(vm_compute; congruence)
              ltac:(vm_compute; split; congruence)) R3).
Defined.

(** X29. Whatever number is typed in the radius field, the route accepts
    the radius the page then sends: [String] of the clamped radius
    passes [z.coerce.number().min(1).max(1000)], the validated radius
    lies in [[1, 200]], and it is the number typed when that lies
    there. *)
Theorem typed_radius_is_accepted input :
  Num.isNaN (Num.of_string input) = false ->
  exists r,
    QuerySchema.radius (Some (Num.to_string (EventsPage.clampRadius input))) = inr r
    /\ inRange 1 200 r
    /\ (inRange 1 200 (Num.of_string input) -> r = Num.of_string input).
Proof.
  intros Hn. unfold QuerySchema.radius, Zod.default, EventsPage.clampRadius. cbv zeta.
  destruct (Num.ltb (Num.of_string input) (Num.of_Z 1)) eqn:E1.
  - exists (Num.Fin 1 0). split; [vm_compute; reflexivity|]. split.
    + exists 1, 0. split; [reflexivity|cbv; split; congruence].
    + intros H. apply inRange_ltb in H as [H _]. congruence.
  - destruct (Num.ltb (Num.of_Z 200) (Num.of_string input)) eqn:E2.
    + exists (Num.Fin 2 2). split; [vm_compute; reflexivity|]. split.
      * exists 2, 2. split; [reflexivity|cbv; split; congruence].
      * intros H. apply inRange_ltb in H as [_ H]. congruence.
    + exists (Num.of_string input).
      pose proof (of_chars_canonical (Str.chars input)) as Hc.
      fold (Num.of_string input) in Hc.
      assert (inRange 1 200 (Num.of_string input)) as Hr.
      { destruct (Num.of_string input) as [| | |m e]; try discriminate.
        exists m, e. split; [reflexivity|].
        unfold Num.of_Z in E1, E2.
        rewrite (ltb_Fin m e 1 0 (Z.min 0 e)) in E1 by lia.
        rewrite (ltb_Fin 200 0 m e (Z.min 0 e)) in E2 by lia.
        rewrite Z.ltb_ge in E1, E2.
        destruct (Z.le_gt_cases 0 e) as [He|He].
        - rewrite Z.min_l in * by lia. rewrite (Z.max_r 0 e), (Z.max_l 0 (- e)) by lia.
          rewrite ?Z.sub_0_r, ?Z.sub_diag, ?Z.pow_0_r in *. lia.
        - rewrite Z.min_r in * by lia. rewrite (Z.max_l 0 e), (Z.max_r 0 (- e)) by lia.
          rewrite ?Z.sub_0_l, ?Z.sub_diag, ?Z.pow_0_r in *. lia. }
      split; [|split; [exact Hr|reflexivity]].
      apply coerceNumber_accepts; [exact Hc|].
      destruct Hr as (m & e & -> & H). exists m, e. split; [reflexivity|].
      assert (0 < 10 ^ Z.max 0 (- e)) by (apply Z.pow_pos_nonneg; lia). nia.
Qed.

Lemma typed_radius_is_accepted_witness :
  exists r,
    QuerySchema.radius (Some (Num.to_string (EventsPage.clampRadius "37.5"))) = inr r
    /\ inRange 1 200 r
    /\ (inRange 1 200 (Num.of_string "37.5") -> r = Num.of_string "37.5").
Proof. apply (typed_radius_is_accepted "37.5"). reflexivity. Defined.
